(** * ScaleCarInsurance: the claim store and its persistence bridge

    A shallow embedding of [ClaimsContext.tsx] (the reducer, the provider's
    operations, [loadFromStorage] and [saveToStorage]) and of the two
    [handleSubmit] functions of [NewClaim.tsx] and [EditClaim.tsx], with the
    properties of the claim lifecycle stated over it.  The handlers of the
    pages ([NewClaim.tsx], [EditClaim.tsx], [ClaimDetails.tsx], the approval
    page, the dashboard) and the table of repair shops follow, with the
    properties that hold of them.

    Conventions of the embedding:
    - a TypeScript interface is a record, declared in a module of the
      interface's name so that the fields keep their source names;
    - [Partial<Claim>] is a record of optional fields: [None] is an absent key;
    - a JS [number] that holds a whole quantity (a cost, a year, a count of
      milliseconds) is a [Z]; [confidence], a fraction, is a [Q];
    - a timestamp written by [new Date().toISOString()] is kept as the
      millisecond count it renders: ISO-8601 UTC strings have a fixed width,
      so they are ordered like the instants they denote;
    - a [Set<string>] is a [gset string], except the selection of the approval
      page, which [forEach] walks: it is the list of its members;
    - the clock, [Math.random], [JSON] and the quota of [localStorage] belong
      to the browser: they are fields of a [Platform];
    - what [JSON.parse] gives is not checked by the code: a stored value that
      is not of the type of its table is kept as the JSON value it is, beside
      the typed state ([Untyped.t]). *)

From Stdlib Require Import ZArith QArith Qround String Ascii List DecimalString DecimalZ.
From stdpp Require Import base option list gmap sets strings.

Local Open Scope string_scope.
Local Open Scope Z_scope.

(** ** Data model *)

Inductive DamageType := scratch | dent | structural | glass | paint.
Inductive Severity := minor | moderate | severe.
Inductive Status := pending | processing | approved | rejected.

Module DamageAssessment.
Record t := mk {
    id : string;
    type : DamageType;
    severity : Severity;
    location : string;
    estimatedCost : Z;
    confidence : Q
  }.
End DamageAssessment.

Module Claim.
Record t := mk {
    id : string;
    policyNumber : string;
    customerName : string;
    customerEmail : string;
    customerPhone : string;
    vehicleMake : string;
    vehicleModel : string;
    vehicleYear : Z;
    accidentDate : string;
    accidentDescription : string;
    photos : list string;
    videos : list string;
    status : Status;
    damageAssessments : list DamageAssessment.t;
    totalEstimatedCost : Z;
    repairShopId : option string;
    createdAt : Z;
    updatedAt : Z;
    aiAnalysisComplete : bool;
    processingTime : option Z
  }.
End Claim.

(** [Partial<Claim>]: every key may be absent.  The two keys that are
    optional in [Claim] itself may also be present and hold [undefined]. *)
Module PartialClaim.
Record t := mk {
    id : option string;
    policyNumber : option string;
    customerName : option string;
    customerEmail : option string;
    customerPhone : option string;
    vehicleMake : option string;
    vehicleModel : option string;
    vehicleYear : option Z;
    accidentDate : option string;
    accidentDescription : option string;
    photos : option (list string);
    videos : option (list string);
    status : option Status;
    damageAssessments : option (list DamageAssessment.t);
    totalEstimatedCost : option Z;
    repairShopId : option (option string);
    createdAt : option Z;
    updatedAt : option Z;
    aiAnalysisComplete : option bool;
    processingTime : option (option Z)
  }.

  (** The patch [{}]. *)
Definition empty : t :=
    mk None None None None None None None None None None
       None None None None None None None None None None.
End PartialClaim.

(** [Omit<Claim, 'id' | 'createdAt' | 'updatedAt'>], the argument of
    [addClaim]. *)
Module ClaimData.
Record t := mk {
    policyNumber : string;
    customerName : string;
    customerEmail : string;
    customerPhone : string;
    vehicleMake : string;
    vehicleModel : string;
    vehicleYear : Z;
    accidentDate : string;
    accidentDescription : string;
    photos : list string;
    videos : list string;
    status : Status;
    damageAssessments : list DamageAssessment.t;
    totalEstimatedCost : Z;
    repairShopId : option string;
    aiAnalysisComplete : bool;
    processingTime : option Z
  }.
End ClaimData.

Module InProgressClaim.
Record t := mk {
    id : string;
    formData : PartialClaim.t;
    photos : list string;
    videos : list string;
    damageAssessments : list DamageAssessment.t;
    analysisComplete : bool;
    approvedAssessments : gset string;
    lastSaved : Z
  }.
End InProgressClaim.

(** A draft as [localStorage] holds it: [approvedAssessments] is an array,
    and a parsed record may lack the key altogether. *)
Module StoredInProgress.
Record t := mk {
    id : string;
    formData : PartialClaim.t;
    photos : list string;
    videos : list string;
    damageAssessments : list DamageAssessment.t;
    analysisComplete : bool;
    approvedAssessments : option (list string);
    lastSaved : Z
  }.
End StoredInProgress.

Module ClaimsState.
Record t := mk {
    claims : list Claim.t;
    inProgressClaims : list InProgressClaim.t;
    loading : bool;
    error : option string
  }.
End ClaimsState.

Inductive ClaimsAction :=
  | ADD_CLAIM (payload : Claim.t)
  | UPDATE_CLAIM (id : string) (updates : PartialClaim.t)
  | SET_LOADING (payload : bool)
  | SET_ERROR (payload : option string)
  | LOAD_CLAIMS (payload : list Claim.t)
  | SAVE_IN_PROGRESS (payload : InProgressClaim.t)
  | DELETE_IN_PROGRESS (payload : string)
  | LOAD_IN_PROGRESS (payload : list InProgressClaim.t).

Definition initialState : ClaimsState.t :=
  ClaimsState.mk [] [] false None.

(** ** JSON values *)

(** A JSON value.  A number is a whole mantissa and a count of decimals. *)
#[local] Unset Elimination Schemes.
Inductive json :=
  | JNull
  | JBool (b : bool)
  | JNum (mantissa : Z) (decimals : nat)
  | JStr (s : string)
  | JArr (items : list json)
  | JObj (members : list (string * json)).
#[local] Set Elimination Schemes.

(** A value that the code takes for an [A]: it is one, or it is whatever
    else the text held. *)
Inductive Value (A : Type) :=
  | of_type (a : A)
  | of_another_shape (j : json).
Arguments of_type {A} a.
Arguments of_another_shape {A} j.

(** ** The browser

    What the source takes from its host.  The [n]-th reading of the system
    clock ([Date.now()] and [new Date()] alike) is [clock n]; the [n]-th
    draw [Math.random().toString(36).substr(2, 9)] is [random_suffix n].
    [JSON.stringify] and [JSON.parse] are taken at the two types they are
    used at, the table of claims and the table of drafts in its stored
    form.  [JSON.parse] does not know these types: for a text it throws a
    [SyntaxError], which is [None], or gives a value, which is a table of
    the type or a JSON value of another shape.  [localStorage_accepts] tells
    whether [setItem] has room for a value; it throws when it has not. *)

Record Platform := {
  clock : nat → Z;
  random_suffix : nat → string;
  JSON_stringify_claims : list Claim.t → string;
  JSON_parse_claims : string → option (Value (list Claim.t));
  JSON_stringify_inProgress : list StoredInProgress.t → string;
  JSON_parse_inProgress : string → option (Value (list StoredInProgress.t));
  localStorage_accepts : gmap string string → string → string → bool
}.

Inductive ConsoleEntry :=
  | console_log_entry (msg : string)
  | console_error_entry (msg : string).

Module World.
Record t := mk {
    state : ClaimsState.t;
    localStorage : gmap string string;
    console : list ConsoleEntry;
    clock_reads : nat;
    random_draws : nat
  }.
End World.

Inductive Exn := SyntaxError | QuotaExceededError | TypeError.

Inductive Completion (A : Type) :=
  | Normal (a : A)
  | Throw (e : Exn).
Arguments Normal {A} a.
Arguments Throw {A} e.

(** A computation of the page: it runs in a world and completes normally or
    abruptly. *)
Definition JS (A : Type) : Type := World.t → Completion A * World.t.

Global Instance JS_ret : MRet JS := λ A a w, (Normal a, w).
Global Instance JS_bind : MBind JS := λ A B f m w,
  match m w with
  | (Normal a, w') => f a w'
  | (Throw e, w') => (Throw e, w')
  end.

Definition throw {A} (e : Exn) : JS A := λ w, (Throw e, w).

Definition try_catch {A} (body : JS A) (handler : Exn → JS A) : JS A := λ w,
  match body w with
  | (Normal a, w') => (Normal a, w')
  | (Throw e, w') => handler e w'
  end.

Definition KEY_CLAIMS : string := "car-insurance-claims".
Definition KEY_IN_PROGRESS : string := "car-insurance-in-progress".

Section Browser.
Context (P : Platform).

Definition read_clock : JS Z := λ w,
  (Normal (clock P (World.clock_reads w)),
   World.mk (World.state w) (World.localStorage w) (World.console w)
            (S (World.clock_reads w)) (World.random_draws w)).

(** [Date.now()] *)
Definition Date_now : JS Z := read_clock.
(** [new Date().toISOString()] *)
Definition new_Date_toISOString : JS Z := read_clock.

(** [Math.random().toString(36).substr(2, 9)] *)
Definition Math_random_suffix : JS string := λ w,
  (Normal (random_suffix P (World.random_draws w)),
   World.mk (World.state w) (World.localStorage w) (World.console w)
            (World.clock_reads w) (S (World.random_draws w))).

Definition console_log (msg : string) : JS unit := λ w,
  (Normal tt,
   World.mk (World.state w) (World.localStorage w)
            (World.console w ++ [console_log_entry msg])
            (World.clock_reads w) (World.random_draws w)).

Definition console_error (msg : string) : JS unit := λ w,
  (Normal tt,
   World.mk (World.state w) (World.localStorage w)
            (World.console w ++ [console_error_entry msg])
            (World.clock_reads w) (World.random_draws w)).

Definition localStorage_getItem (key : string) : JS (option string) := λ w,
  (Normal (World.localStorage w !! key), w).

Definition localStorage_setItem (key value : string) : JS unit := λ w,
  if localStorage_accepts P (World.localStorage w) key value
  then (Normal tt,
        World.mk (World.state w) (<[key := value]> (World.localStorage w))
                 (World.console w) (World.clock_reads w) (World.random_draws w))
  else (Throw QuotaExceededError, w).

(** The value of [state] seen by the provider's closures. *)
Definition get_state : JS ClaimsState.t := λ w, (Normal (World.state w), w).

Definition set_state (st : ClaimsState.t) : JS unit := λ w,
  (Normal tt,
   World.mk st (World.localStorage w) (World.console w)
            (World.clock_reads w) (World.random_draws w)).
End Browser.

(** [if (s)] on the result of [getItem]: [null] and the empty string are
    falsy. *)
Definition truthy (s : option string) : bool :=
  match s with
  | Some text => negb (String.eqb text EmptyString)
  | None => false
  end.

(** ** Values of another shape

    [loadFromStorage] hands what [JSON.parse] gives to the reducer
    unchecked.  A value that is not a table of claims cannot be held by
    [ClaimsState.t]: the world of a load carries, beside the typed world,
    the value that each of the two tables holds when it is not of its type.
    While [Untyped.claims] is [Some j], [state.claims] is [j] and the table
    of the typed world is out of date; [Untyped.inProgressClaims] holds the
    value that [state.inProgressClaims] was mapped from. *)
Module Untyped.
Record t := mk {
  world : World.t;
  claims : option json;
  inProgressClaims : option json
}.

(** A world all of whose tables are of their types. *)
Definition of_world (w : World.t) : t := mk w None None.
End Untyped.

Definition Load (A : Type) : Type := Untyped.t → Completion A * Untyped.t.

Global Instance Load_ret : MRet Load := λ A a u, (Normal a, u).
Global Instance Load_bind : MBind Load := λ A B f m u,
  match m u with
  | (Normal a, u') => f a u'
  | (Throw e, u') => (Throw e, u')
  end.

Definition Load_throw {A} (e : Exn) : Load A := λ u, (Throw e, u).

Definition Load_try_catch {A} (body : Load A) (handler : Exn → Load A) : Load A := λ u,
  match body u with
  | (Normal a, u') => (Normal a, u')
  | (Throw e, u') => handler e u'
  end.

(** A computation of the typed world. *)
Definition typed {A} (m : JS A) : Load A := λ u,
  match m (Untyped.world u) with
  | (completion, w') =>
      (completion, Untyped.mk w' (Untyped.claims u) (Untyped.inProgressClaims u))
  end.

Definition put_claims (value : option json) : Load unit := λ u,
  (Normal tt, Untyped.mk (Untyped.world u) value (Untyped.inProgressClaims u)).

Definition put_inProgressClaims (value : option json) : Load unit := λ u,
  (Normal tt, Untyped.mk (Untyped.world u) (Untyped.claims u) value).

(** [if (s) { body(s) }] *)
Definition if_truthy (s : option string) (body : string → Load unit) : Load unit :=
  match s with
  | Some text => if truthy s then body text else mret tt
  | None => mret tt
  end.

(** [JSON.parse(text)] *)
Definition JSON_parse_as {A} (parse : string → option (Value A)) (text : string)
  : Load (Value A) :=
  match parse text with
  | Some value => mret value
  | None => Load_throw SyntaxError
  end.

(** *** The callback of [inProgress.map] on a value of another shape *)

(** Whether a value is truthy. *)
Definition json_truthy (j : json) : bool :=
  match j with
  | JNull => false
  | JBool b => b
  | JNum mantissa _ => negb (Z.eqb mantissa 0)
  | JStr s => negb (String.eqb s EmptyString)
  | JArr _ | JObj _ => true
  end.

(** Whether [new Set(j)] can walk the value: arrays and strings are
    iterable, the other values are not. *)
Definition json_iterable (j : json) : bool :=
  match j with
  | JArr _ | JStr _ => true
  | JNull | JBool _ | JNum _ _ | JObj _ => false
  end.

(** [object[key]] on an object that [JSON.parse] built: of two members with
    one key the later one stands. *)
Definition json_get (key : string) (members : list (string * json)) : option json :=
  snd <$> List.find (λ member, String.eqb (fst member) key) (rev members).

(** Whether [({ ...claim, approvedAssessments: new Set(claim.approvedAssessments || []) })]
    throws a [TypeError]: [claim] is [null], or the key holds a truthy value
    that is not iterable. *)
Definition draft_callback_throws (claim : json) : bool :=
  match claim with
  | JNull => true
  | JObj members =>
      match json_get "approvedAssessments" members with
      | Some value => json_truthy value && negb (json_iterable value)
      | None => false
      end
  | JBool _ | JNum _ _ | JStr _ | JArr _ => false
  end.

(** Whether [inProgress.map(...)] throws a [TypeError]: only an array has a
    [map] to call, and it runs the callback on each element. *)
Definition inProgress_map_throws (inProgress : json) : bool :=
  match inProgress with
  | JArr items => existsb draft_callback_throws items
  | JNull | JBool _ | JNum _ _ | JStr _ | JObj _ => true
  end.

(** A whole number in a template literal. *)
Definition Number_toString (z : Z) : string :=
  NilZero.string_of_int (Z.to_int z).

(** The template literal [`claim_${stamp}_${suffix}`] *)
Definition claim_id (stamp : Z) (suffix : string) : string :=
  "claim_" +:+ Number_toString stamp +:+ "_" +:+ suffix.

(** ** Object spread *)

(** [{ ...claim, ...updates }] *)
Definition spread (claim : Claim.t) (updates : PartialClaim.t) : Claim.t :=
  {| Claim.id := default (Claim.id claim) (PartialClaim.id updates);
     Claim.policyNumber := default (Claim.policyNumber claim) (PartialClaim.policyNumber updates);
     Claim.customerName := default (Claim.customerName claim) (PartialClaim.customerName updates);
     Claim.customerEmail := default (Claim.customerEmail claim) (PartialClaim.customerEmail updates);
     Claim.customerPhone := default (Claim.customerPhone claim) (PartialClaim.customerPhone updates);
     Claim.vehicleMake := default (Claim.vehicleMake claim) (PartialClaim.vehicleMake updates);
     Claim.vehicleModel := default (Claim.vehicleModel claim) (PartialClaim.vehicleModel updates);
     Claim.vehicleYear := default (Claim.vehicleYear claim) (PartialClaim.vehicleYear updates);
     Claim.accidentDate := default (Claim.accidentDate claim) (PartialClaim.accidentDate updates);
     Claim.accidentDescription :=
       default (Claim.accidentDescription claim) (PartialClaim.accidentDescription updates);
     Claim.photos := default (Claim.photos claim) (PartialClaim.photos updates);
     Claim.videos := default (Claim.videos claim) (PartialClaim.videos updates);
     Claim.status := default (Claim.status claim) (PartialClaim.status updates);
     Claim.damageAssessments :=
       default (Claim.damageAssessments claim) (PartialClaim.damageAssessments updates);
     Claim.totalEstimatedCost :=
       default (Claim.totalEstimatedCost claim) (PartialClaim.totalEstimatedCost updates);
     Claim.repairShopId := default (Claim.repairShopId claim) (PartialClaim.repairShopId updates);
     Claim.createdAt := default (Claim.createdAt claim) (PartialClaim.createdAt updates);
     Claim.updatedAt := default (Claim.updatedAt claim) (PartialClaim.updatedAt updates);
     Claim.aiAnalysisComplete :=
       default (Claim.aiAnalysisComplete claim) (PartialClaim.aiAnalysisComplete updates);
     Claim.processingTime := default (Claim.processingTime claim) (PartialClaim.processingTime updates) |}.

(** [{ ...claim, updatedAt: now }] *)
Definition with_updatedAt (claim : Claim.t) (now : Z) : Claim.t :=
  {| Claim.id := Claim.id claim;
     Claim.policyNumber := Claim.policyNumber claim;
     Claim.customerName := Claim.customerName claim;
     Claim.customerEmail := Claim.customerEmail claim;
     Claim.customerPhone := Claim.customerPhone claim;
     Claim.vehicleMake := Claim.vehicleMake claim;
     Claim.vehicleModel := Claim.vehicleModel claim;
     Claim.vehicleYear := Claim.vehicleYear claim;
     Claim.accidentDate := Claim.accidentDate claim;
     Claim.accidentDescription := Claim.accidentDescription claim;
     Claim.photos := Claim.photos claim;
     Claim.videos := Claim.videos claim;
     Claim.status := Claim.status claim;
     Claim.damageAssessments := Claim.damageAssessments claim;
     Claim.totalEstimatedCost := Claim.totalEstimatedCost claim;
     Claim.repairShopId := Claim.repairShopId claim;
     Claim.createdAt := Claim.createdAt claim;
     Claim.updatedAt := now;
     Claim.aiAnalysisComplete := Claim.aiAnalysisComplete claim;
     Claim.processingTime := Claim.processingTime claim |}.

(** [{ ...claimData, id, createdAt, updatedAt }] *)
Definition newClaim_of (claimData : ClaimData.t) (id : string) (createdAt updatedAt : Z)
  : Claim.t :=
  {| Claim.id := id;
     Claim.policyNumber := ClaimData.policyNumber claimData;
     Claim.customerName := ClaimData.customerName claimData;
     Claim.customerEmail := ClaimData.customerEmail claimData;
     Claim.customerPhone := ClaimData.customerPhone claimData;
     Claim.vehicleMake := ClaimData.vehicleMake claimData;
     Claim.vehicleModel := ClaimData.vehicleModel claimData;
     Claim.vehicleYear := ClaimData.vehicleYear claimData;
     Claim.accidentDate := ClaimData.accidentDate claimData;
     Claim.accidentDescription := ClaimData.accidentDescription claimData;
     Claim.photos := ClaimData.photos claimData;
     Claim.videos := ClaimData.videos claimData;
     Claim.status := ClaimData.status claimData;
     Claim.damageAssessments := ClaimData.damageAssessments claimData;
     Claim.totalEstimatedCost := ClaimData.totalEstimatedCost claimData;
     Claim.repairShopId := ClaimData.repairShopId claimData;
     Claim.createdAt := createdAt;
     Claim.updatedAt := updatedAt;
     Claim.aiAnalysisComplete := ClaimData.aiAnalysisComplete claimData;
     Claim.processingTime := ClaimData.processingTime claimData |}.

(** [{ ...claim, approvedAssessments: Array.from(claim.approvedAssessments) }] *)
Definition toStorage (claim : InProgressClaim.t) : StoredInProgress.t :=
  {| StoredInProgress.id := InProgressClaim.id claim;
     StoredInProgress.formData := InProgressClaim.formData claim;
     StoredInProgress.photos := InProgressClaim.photos claim;
     StoredInProgress.videos := InProgressClaim.videos claim;
     StoredInProgress.damageAssessments := InProgressClaim.damageAssessments claim;
     StoredInProgress.analysisComplete := InProgressClaim.analysisComplete claim;
     StoredInProgress.approvedAssessments :=
       Some (elements (InProgressClaim.approvedAssessments claim));
     StoredInProgress.lastSaved := InProgressClaim.lastSaved claim |}.

(** [{ ...claim, approvedAssessments: new Set(claim.approvedAssessments || []) }] *)
Definition fromStorage (claim : StoredInProgress.t) : InProgressClaim.t :=
  {| InProgressClaim.id := StoredInProgress.id claim;
     InProgressClaim.formData := StoredInProgress.formData claim;
     InProgressClaim.photos := StoredInProgress.photos claim;
     InProgressClaim.videos := StoredInProgress.videos claim;
     InProgressClaim.damageAssessments := StoredInProgress.damageAssessments claim;
     InProgressClaim.analysisComplete := StoredInProgress.analysisComplete claim;
     InProgressClaim.approvedAssessments :=
       list_to_set (default [] (StoredInProgress.approvedAssessments claim));
     InProgressClaim.lastSaved := StoredInProgress.lastSaved claim |}.

(** ** The reducer and the provider ([ClaimsContext.tsx]) *)

Section ClaimsProvider.
Context (P : Platform).

(** The callback of [state.claims.map] in the [UPDATE_CLAIM] case: the clock
    is read once for each claim that matches. *)
Definition update_claim (id : string) (updates : PartialClaim.t) (claim : Claim.t)
  : JS Claim.t :=
  if bool_decide (Claim.id claim = id)
  then now ← new_Date_toISOString P; mret (with_updatedAt (spread claim updates) now)
  else mret claim.

Definition claimsReducer (state : ClaimsState.t) (action : ClaimsAction)
  : JS ClaimsState.t :=
  match action with
  | ADD_CLAIM payload =>
      mret {| ClaimsState.claims := payload :: ClaimsState.claims state;
              ClaimsState.inProgressClaims := ClaimsState.inProgressClaims state;
              ClaimsState.loading := ClaimsState.loading state;
              ClaimsState.error := ClaimsState.error state |}
  | UPDATE_CLAIM id updates =>
      claims ← mapM (update_claim id updates) (ClaimsState.claims state);
      mret {| ClaimsState.claims := claims;
              ClaimsState.inProgressClaims := ClaimsState.inProgressClaims state;
              ClaimsState.loading := ClaimsState.loading state;
              ClaimsState.error := ClaimsState.error state |}
  | SET_LOADING payload =>
      mret {| ClaimsState.claims := ClaimsState.claims state;
              ClaimsState.inProgressClaims := ClaimsState.inProgressClaims state;
              ClaimsState.loading := payload;
              ClaimsState.error := ClaimsState.error state |}
  | SET_ERROR payload =>
      mret {| ClaimsState.claims := ClaimsState.claims state;
              ClaimsState.inProgressClaims := ClaimsState.inProgressClaims state;
              ClaimsState.loading := ClaimsState.loading state;
              ClaimsState.error := payload |}
  | LOAD_CLAIMS payload =>
      mret {| ClaimsState.claims := payload;
              ClaimsState.inProgressClaims := ClaimsState.inProgressClaims state;
              ClaimsState.loading := ClaimsState.loading state;
              ClaimsState.error := ClaimsState.error state |}
  | SAVE_IN_PROGRESS payload =>
      mret {| ClaimsState.claims := ClaimsState.claims state;
              ClaimsState.inProgressClaims :=
                filter (λ claim, InProgressClaim.id claim ≠ InProgressClaim.id payload)
                       (ClaimsState.inProgressClaims state) ++ [payload];
              ClaimsState.loading := ClaimsState.loading state;
              ClaimsState.error := ClaimsState.error state |}
  | DELETE_IN_PROGRESS payload =>
      mret {| ClaimsState.claims := ClaimsState.claims state;
              ClaimsState.inProgressClaims :=
                filter (λ claim, InProgressClaim.id claim ≠ payload)
                       (ClaimsState.inProgressClaims state);
              ClaimsState.loading := ClaimsState.loading state;
              ClaimsState.error := ClaimsState.error state |}
  | LOAD_IN_PROGRESS payload =>
      mret {| ClaimsState.claims := ClaimsState.claims state;
              ClaimsState.inProgressClaims := payload;
              ClaimsState.loading := ClaimsState.loading state;
              ClaimsState.error := ClaimsState.error state |}
  end.

(** [dispatch]: the action is applied to the provider's state.  React runs
    the reducer on the next render, in dispatch order; here it runs at once,
    which gives the same readings of the clock as long as a handler reads the
    clock before its dispatch only.  [handleBulkAction], which reads the clock
    between its dispatches, runs its reducers after the handler. *)
Definition dispatch (action : ClaimsAction) : JS unit :=
  state ← get_state;
  state' ← claimsReducer state action;
  set_state state'.

(** [dispatch({ type: 'LOAD_CLAIMS', payload })] and
    [dispatch({ type: 'LOAD_IN_PROGRESS', payload })] with a payload that
    nothing has checked. *)
Definition dispatch_LOAD_CLAIMS (payload : Value (list Claim.t)) : Load unit :=
  match payload with
  | of_type claims => typed (dispatch (LOAD_CLAIMS claims));; put_claims None
  | of_another_shape j => put_claims (Some j)
  end.

Definition dispatch_LOAD_IN_PROGRESS (payload : Value (list InProgressClaim.t))
  : Load unit :=
  match payload with
  | of_type inProgress =>
      typed (dispatch (LOAD_IN_PROGRESS inProgress));; put_inProgressClaims None
  | of_another_shape j => put_inProgressClaims (Some j)
  end.

(** [inProgress.map(claim => ({ ...claim, approvedAssessments: new Set(...) }))] *)
Definition map_fromStorage (inProgress : Value (list StoredInProgress.t))
  : Load (Value (list InProgressClaim.t)) :=
  match inProgress with
  | of_type inProgress => mret (of_type (map fromStorage inProgress))
  | of_another_shape j =>
      if inProgress_map_throws j then Load_throw TypeError
      else mret (of_another_shape j)
  end.

Definition loadFromStorage : Load unit :=
  Load_try_catch
    (savedClaims ← typed (localStorage_getItem KEY_CLAIMS);
     savedInProgress ← typed (localStorage_getItem KEY_IN_PROGRESS);
     if_truthy savedClaims (λ text,
       claims ← JSON_parse_as (JSON_parse_claims P) text;
       dispatch_LOAD_CLAIMS claims);;
     if_truthy savedInProgress (λ text,
       inProgress ← JSON_parse_as (JSON_parse_inProgress P) text;
       parsedInProgress ← map_fromStorage inProgress;
       dispatch_LOAD_IN_PROGRESS parsedInProgress))
    (λ error, typed (console_error "Error loading from localStorage:")).

Definition saveToStorage : JS unit :=
  try_catch
    (state ← get_state;
     localStorage_setItem P KEY_CLAIMS
       (JSON_stringify_claims P (ClaimsState.claims state));;
     localStorage_setItem P KEY_IN_PROGRESS
       (JSON_stringify_inProgress P (map toStorage (ClaimsState.inProgressClaims state))))
    (λ error, console_error "Error saving to localStorage:").

Definition addClaim (claimData : ClaimData.t) : JS unit :=
  stamp ← Date_now P;
  suffix ← Math_random_suffix P;
  createdAt ← new_Date_toISOString P;
  updatedAt ← new_Date_toISOString P;
  let newClaim :=
    newClaim_of claimData (claim_id stamp suffix) createdAt updatedAt in
  console_log "ClaimsContext - Generated claim ID:";;
  console_log "ClaimsContext - Adding claim:";;
  dispatch (ADD_CLAIM newClaim).

Definition updateClaim (id : string) (updates : PartialClaim.t) : JS unit :=
  dispatch (UPDATE_CLAIM id updates).

Definition getClaim (id : string) : JS (option Claim.t) :=
  state ← get_state;
  console_log "ClaimsContext - Looking for claim with ID:";;
  console_log "ClaimsContext - Available claims:";;
  let foundClaim :=
    List.find (λ claim, bool_decide (Claim.id claim = id)) (ClaimsState.claims state) in
  console_log "ClaimsContext - Found claim:";;
  mret foundClaim.

Definition saveInProgressClaim (inProgressClaim : InProgressClaim.t) : JS unit :=
  dispatch (SAVE_IN_PROGRESS inProgressClaim).

Definition getInProgressClaim (id : string) : JS (option InProgressClaim.t) :=
  state ← get_state;
  mret (List.find (λ claim, bool_decide (InProgressClaim.id claim = id))
                  (ClaimsState.inProgressClaims state)).

Definition deleteInProgressClaim (id : string) : JS unit :=
  dispatch (DELETE_IN_PROGRESS id).

End ClaimsProvider.

(** ** The pages that submit claims *)

(** The [formData] state of [NewClaim.tsx] and [EditClaim.tsx]. *)
Module FormData.
Record t := mk {
  policyNumber : string;
  customerName : string;
  customerEmail : string;
  customerPhone : string;
  vehicleMake : string;
  vehicleModel : string;
  vehicleYear : Z;
  accidentDate : string;
  accidentDescription : string
}.
End FormData.

(** [!s] on a string *)
Definition falsy_string (s : string) : bool := String.eqb s EmptyString.

(** The [newErrors] object built by [validateForm], as its list of entries. *)
Definition newErrors (formData : FormData.t) : list (string * string) :=
  (if falsy_string (FormData.policyNumber formData)
   then [("policyNumber", "Policy number is required")] else []) ++
  (if falsy_string (FormData.customerName formData)
   then [("customerName", "Customer name is required")] else []) ++
  (if falsy_string (FormData.customerEmail formData)
   then [("customerEmail", "Email is required")] else []) ++
  (if falsy_string (FormData.customerPhone formData)
   then [("customerPhone", "Phone number is required")] else []) ++
  (if falsy_string (FormData.vehicleMake formData)
   then [("vehicleMake", "Vehicle make is required")] else []) ++
  (if falsy_string (FormData.vehicleModel formData)
   then [("vehicleModel", "Vehicle model is required")] else []) ++
  (if falsy_string (FormData.accidentDate formData)
   then [("accidentDate", "Accident date is required")] else []) ++
  (if falsy_string (FormData.accidentDescription formData)
   then [("accidentDescription", "Accident description is required")] else []).

(** [Object.keys(newErrors).length === 0] *)
Definition validateForm (formData : FormData.t) : bool :=
  bool_decide (length (newErrors formData) = 0%nat).

(** [damageAssessments.filter(assessment => approvedAssessments.has(assessment.id))] *)
Definition approved_of (damageAssessments : list DamageAssessment.t)
    (approvedAssessments : gset string) : list DamageAssessment.t :=
  filter (λ assessment, DamageAssessment.id assessment ∈ approvedAssessments)
         damageAssessments.

(** [.reduce((sum, assessment) => sum + assessment.estimatedCost, 0)] *)
Definition total_cost (assessments : list DamageAssessment.t) : Z :=
  fold_left (λ sum assessment, sum + DamageAssessment.estimatedCost assessment)
            assessments 0.

(** The state of [NewClaim.tsx] that [handleSubmit] reads. *)
Module NewClaimPage.
Record t := mk {
  formData : FormData.t;
  photos : list string;
  videos : list string;
  isAnalyzing : bool;
  analysisComplete : bool;
  damageAssessments : list DamageAssessment.t;
  approvedAssessments : gset string
}.

Definition sessionId : string := "new-claim-session".
End NewClaimPage.

(** The state of [EditClaim.tsx] that [handleSubmit] reads; [existingClaim]
    is the result of [getClaim(id)] at the last render. *)
Module EditClaimPage.
Record t := mk {
  existingClaim : option Claim.t;
  formData : FormData.t;
  photos : list string;
  videos : list string;
  analysisComplete : bool;
  damageAssessments : list DamageAssessment.t;
  approvedAssessments : gset string
}.
End EditClaimPage.

Section Pages.
Context (P : Platform).

(** [NewClaim.tsx], [handleSubmit].  The result is the route the page
    navigates to, if any; the page's own [useState] cells are not part of
    the world. *)
Definition NewClaim_handleSubmit (page : NewClaimPage.t) : JS (option string) :=
  if negb (validateForm (NewClaimPage.formData page)) then mret None
  else
    let approvedAssessmentsList :=
      approved_of (NewClaimPage.damageAssessments page)
                  (NewClaimPage.approvedAssessments page) in
    let totalEstimatedCost := total_cost approvedAssessmentsList in
    let formData := NewClaimPage.formData page in
    let newClaim :=
      {| ClaimData.policyNumber := FormData.policyNumber formData;
         ClaimData.customerName := FormData.customerName formData;
         ClaimData.customerEmail := FormData.customerEmail formData;
         ClaimData.customerPhone := FormData.customerPhone formData;
         ClaimData.vehicleMake := FormData.vehicleMake formData;
         ClaimData.vehicleModel := FormData.vehicleModel formData;
         ClaimData.vehicleYear := FormData.vehicleYear formData;
         ClaimData.accidentDate := FormData.accidentDate formData;
         ClaimData.accidentDescription := FormData.accidentDescription formData;
         ClaimData.photos := NewClaimPage.photos page;
         ClaimData.videos := NewClaimPage.videos page;
         ClaimData.status := pending;
         ClaimData.damageAssessments := approvedAssessmentsList;
         ClaimData.totalEstimatedCost := totalEstimatedCost;
         ClaimData.repairShopId := Some "shop_001";
         ClaimData.aiAnalysisComplete := NewClaimPage.analysisComplete page;
         ClaimData.processingTime :=
           if NewClaimPage.isAnalyzing page then None else Some 3 |} in
    addClaim P newClaim;;
    (* clearSavedProgress() *)
    deleteInProgressClaim P NewClaimPage.sessionId;;
    console_log "NewClaim - Submitted claim data:";;
    console_log "NewClaim - Navigate to dashboard";;
    mret (Some "/").

(** [EditClaim.tsx], [handleSubmit]. *)
Definition EditClaim_handleSubmit (page : EditClaimPage.t) : JS (option string) :=
  match negb (validateForm (EditClaimPage.formData page)), EditClaimPage.existingClaim page with
  | true, _ | false, None => mret None
  | false, Some existingClaim =>
      try_catch
        (let totalCost :=
           total_cost (approved_of (EditClaimPage.damageAssessments page)
                                   (EditClaimPage.approvedAssessments page)) in
         let formData := EditClaimPage.formData page in
         updatedAt ← new_Date_toISOString P;
         let updatedClaim :=
           {| PartialClaim.id := None;
              PartialClaim.policyNumber := Some (FormData.policyNumber formData);
              PartialClaim.customerName := Some (FormData.customerName formData);
              PartialClaim.customerEmail := Some (FormData.customerEmail formData);
              PartialClaim.customerPhone := Some (FormData.customerPhone formData);
              PartialClaim.vehicleMake := Some (FormData.vehicleMake formData);
              PartialClaim.vehicleModel := Some (FormData.vehicleModel formData);
              PartialClaim.vehicleYear := Some (FormData.vehicleYear formData);
              PartialClaim.accidentDate := Some (FormData.accidentDate formData);
              PartialClaim.accidentDescription := Some (FormData.accidentDescription formData);
              PartialClaim.photos := Some (EditClaimPage.photos page);
              PartialClaim.videos := Some (EditClaimPage.videos page);
              PartialClaim.status := None;
              PartialClaim.damageAssessments := Some (EditClaimPage.damageAssessments page);
              PartialClaim.totalEstimatedCost := Some totalCost;
              PartialClaim.repairShopId := None;
              PartialClaim.createdAt := None;
              PartialClaim.updatedAt := Some updatedAt;
              PartialClaim.aiAnalysisComplete := Some (EditClaimPage.analysisComplete page);
              PartialClaim.processingTime := None |} in
         updateClaim P (Claim.id existingClaim) updatedClaim;;
         mret (Some ("/claim/" +:+ Claim.id existingClaim)))
        (λ error, console_error "Error updating claim:";; mret None)
  end.

(** [ClaimDetails.tsx], [handleStatusUpdate], after its one-second wait;
    [claim] is the claim the page rendered. *)
Definition handleStatusUpdate (claim : Claim.t) (newStatus : Status) : JS unit :=
  updateClaim P (Claim.id claim)
    {| PartialClaim.id := None;
       PartialClaim.policyNumber := None;
       PartialClaim.customerName := None;
       PartialClaim.customerEmail := None;
       PartialClaim.customerPhone := None;
       PartialClaim.vehicleMake := None;
       PartialClaim.vehicleModel := None;
       PartialClaim.vehicleYear := None;
       PartialClaim.accidentDate := None;
       PartialClaim.accidentDescription := None;
       PartialClaim.photos := None;
       PartialClaim.videos := None;
       PartialClaim.status := Some newStatus;
       PartialClaim.damageAssessments := None;
       PartialClaim.totalEstimatedCost := None;
       PartialClaim.repairShopId := None;
       PartialClaim.createdAt := None;
       PartialClaim.updatedAt := None;
       PartialClaim.aiAnalysisComplete := None;
       PartialClaim.processingTime :=
         Some (Some (match Claim.processingTime claim with
                     | Some n => if Z.eqb n 0 then 3 else n
                     | None => 3
                     end)) |}.

End Pages.

(** The status buttons [ClaimDetails.tsx] renders under "Claim Actions":
    the statuses a click on them passes to [handleStatusUpdate]. *)
Definition claimActions (status : Status) : list Status :=
  match status with
  | pending => [processing; approved; rejected]
  | processing => [approved; rejected]
  | approved | rejected => []
  end.

(** ** The six operations of the store as steps *)

Inductive StoreOp :=
  | OpAddClaim (claimData : ClaimData.t)
  | OpUpdateClaim (id : string) (updates : PartialClaim.t)
  | OpGetClaim (id : string)
  | OpSaveInProgressClaim (inProgressClaim : InProgressClaim.t)
  | OpGetInProgressClaim (id : string)
  | OpDeleteInProgressClaim (id : string).

Definition run_op (P : Platform) (op : StoreOp) : JS unit :=
  match op with
  | OpAddClaim claimData => addClaim P claimData
  | OpUpdateClaim id updates => updateClaim P id updates
  | OpGetClaim id => getClaim id;; mret tt
  | OpSaveInProgressClaim inProgressClaim => saveInProgressClaim P inProgressClaim
  | OpGetInProgressClaim id => getInProgressClaim id;; mret tt
  | OpDeleteInProgressClaim id => deleteInProgressClaim P id
  end.

Fixpoint run_ops (P : Platform) (ops : list StoreOp) : JS unit :=
  match ops with
  | [] => mret tt
  | op :: rest => run_op P op;; run_ops P rest
  end.

(** The world a page starts in: initial provider state over what
    [localStorage] holds. *)
Definition fresh_process (storage : gmap string string) : World.t :=
  World.mk initialState storage [] 0 0.

(** Which operations name a [status] in what they write to existing claims. *)
Definition writes_status (op : StoreOp) : bool :=
  match op with
  | OpUpdateClaim _ updates => bool_decide (is_Some (PartialClaim.status updates))
  | _ => false
  end.

Definition terminal (status : Status) : bool :=
  match status with
  | approved | rejected => true
  | pending | processing => false
  end.

(** ** A browser to run the model in

    A printer and a parser for the JSON texts the two tables are stored as,
    a clock that ticks at every reading, and a [localStorage] without
    quota.  Numbers are printed as a whole mantissa, followed by [e-k] when
    the value has [k] decimals. *)

Module Demo.

Definition dquote : ascii := "034"%char.
Definition backslash : ascii := "092"%char.

Fixpoint quote_body (s : string) : string :=
  match s with
  | EmptyString => String dquote EmptyString
  | String c rest =>
      if Ascii.eqb c dquote then String backslash (String dquote (quote_body rest))
      else if Ascii.eqb c backslash then String backslash (String backslash (quote_body rest))
      else String c (quote_body rest)
  end.

Definition quote (s : string) : string := String dquote (quote_body s).

Fixpoint join (sep : string) (parts : list string) : string :=
  match parts with
  | [] => EmptyString
  | [part] => part
  | part :: rest => part +:+ sep +:+ join sep rest
  end.

Fixpoint print (j : json) : string :=
  match j with
  | JNull => "null"
  | JBool true => "true"
  | JBool false => "false"
  | JNum mantissa O => Number_toString mantissa
  | JNum mantissa decimals =>
      Number_toString mantissa +:+ "e-" +:+ Number_toString (Z.of_nat decimals)
  | JStr s => quote s
  | JArr items => "[" +:+ join "," (map print items) +:+ "]"
  | JObj members =>
      "{" +:+ join "," (map (λ member, let '(key, value) := member in
                                       quote key +:+ ":" +:+ print value) members) +:+ "}"
  end.

(** *** Parsing *)

(** After the opening quote: the string read and the rest of the text. *)
Fixpoint parse_string_body (s : string) : option (string * string) :=
  match s with
  | EmptyString => None
  | String c rest =>
      if Ascii.eqb c dquote then Some (EmptyString, rest)
      else if Ascii.eqb c backslash then
        match rest with
        | String d rest' =>
            if Ascii.eqb d dquote || Ascii.eqb d backslash then
              match parse_string_body rest' with
              | Some (body, after) => Some (String d body, after)
              | None => None
              end
            else None
        | EmptyString => None
        end
      else
        match parse_string_body rest with
        | Some (body, after) => Some (String c body, after)
        | None => None
        end
  end.

Definition digit_of (c : ascii) : option N :=
  let n := N_of_ascii c in
  if (48 <=? n)%N && (n <=? 57)%N then Some (n - 48)%N else None.

(** The digits at the head of [s], as a number, and how many there were. *)
Fixpoint parse_digits (s : string) (acc : N) (seen : nat) : N * nat * string :=
  match s with
  | EmptyString => (acc, seen, s)
  | String c rest =>
      match digit_of c with
      | Some d => parse_digits rest (10 * acc + d)%N (S seen)
      | None => (acc, seen, s)
      end
  end.

Definition parse_number (s : string) : option (json * string) :=
  let '(negative, s) :=
    match s with
    | String "-"%char rest => (true, rest)
    | _ => (false, s)
    end in
  let '(n, seen, s) := parse_digits s 0%N 0%nat in
  if bool_decide (seen = 0%nat) then None
  else
    let mantissa := if negative : bool then - Z.of_N n else Z.of_N n in
    match s with
    | String "e"%char (String "-"%char rest) =>
        let '(k, seen', rest') := parse_digits rest 0%N 0%nat in
        if bool_decide (seen' = 0%nat) then None
        else Some (JNum mantissa (N.to_nat k), rest')
    | _ => Some (JNum mantissa 0, s)
    end.

Fixpoint strip_prefix (prefix s : string) : option string :=
  match prefix, s with
  | EmptyString, _ => Some s
  | String p prefix', String c rest =>
      if Ascii.eqb p c then strip_prefix prefix' rest else None
  | String _ _, EmptyString => None
  end.

(** One value at the head of the text.  [fuel] bounds the nesting and the
    number of items read; the length of the text is always enough. *)
Fixpoint parse_value (fuel : nat) (s : string) : option (json * string) :=
  match fuel with
  | O => None
  | S fuel =>
      let parse_items :=
        fix parse_items (count : nat) (s : string) : option (list json * string) :=
          match count with
          | O => None
          | S count =>
              match parse_value fuel s with
              | Some (item, String ","%char rest) =>
                  match parse_items count rest with
                  | Some (items, after) => Some (item :: items, after)
                  | None => None
                  end
              | Some (item, String "]"%char rest) => Some ([item], rest)
              | _ => None
              end
          end in
      let parse_members :=
        fix parse_members (count : nat) (s : string)
          : option (list (string * json) * string) :=
          match count with
          | O => None
          | S count =>
              match strip_prefix (String dquote EmptyString) s with
              | Some rest =>
                  match parse_string_body rest with
                  | Some (key, String ":"%char rest) =>
                      match parse_value fuel rest with
                      | Some (value, String ","%char rest) =>
                          match parse_members count rest with
                          | Some (members, after) => Some ((key, value) :: members, after)
                          | None => None
                          end
                      | Some (value, String "}"%char rest) => Some ([(key, value)], rest)
                      | _ => None
                      end
                  | _ => None
                  end
              | None => None
              end
          end in
      match s with
      | String "["%char (String "]"%char rest) => Some (JArr [], rest)
      | String "["%char rest =>
          match parse_items fuel rest with
          | Some (items, after) => Some (JArr items, after)
          | None => None
          end
      | String "{"%char (String "}"%char rest) => Some (JObj [], rest)
      | String "{"%char rest =>
          match parse_members fuel rest with
          | Some (members, after) => Some (JObj members, after)
          | None => None
          end
      | _ =>
          match strip_prefix (String dquote EmptyString) s with
          | Some rest =>
              match parse_string_body rest with
              | Some (body, after) => Some (JStr body, after)
              | None => None
              end
          | None =>
              match strip_prefix "null" s, strip_prefix "true" s, strip_prefix "false" s with
              | Some rest, _, _ => Some (JNull, rest)
              | _, Some rest, _ => Some (JBool true, rest)
              | _, _, Some rest => Some (JBool false, rest)
              | _, _, _ => parse_number s
              end
          end
      end
  end.

Definition parse (text : string) : option json :=
  match parse_value (S (String.length text)) text with
  | Some (j, EmptyString) => Some j
  | _ => None
  end.

(** *** The tables as JSON values *)

Definition field (key : string) (members : list (string * json)) : option json :=
  snd <$> List.find (λ member, String.eqb (fst member) key) members.

Definition as_string (j : json) : option string :=
  match j with JStr s => Some s | _ => None end.

Definition as_Z (j : json) : option Z :=
  match j with JNum mantissa O => Some mantissa | _ => None end.

Definition as_bool (j : json) : option bool :=
  match j with JBool b => Some b | _ => None end.

Definition as_array {A} (item : json → option A) (j : json) : option (list A) :=
  match j with JArr items => mapM item items | _ => None end.

Definition as_object (j : json) : option (list (string * json)) :=
  match j with JObj members => Some members | _ => None end.

(** A key that must be there, and one that may be missing. *)
Definition required {A} (key : string) (read : json → option A)
    (members : list (string * json)) : option A :=
  field key members ≫= read.

Definition optional {A} (key : string) (read : json → option A)
    (members : list (string * json)) : option (option A) :=
  match field key members with
  | Some j => Some <$> read j
  | None => Some None
  end.

(** [JSON.stringify] leaves out the keys that hold [undefined]. *)
Definition member {A} (key : string) (write : A → json) (value : option A)
  : list (string * json) :=
  match value with
  | Some a => [(key, write a)]
  | None => []
  end.

Definition JInt (z : Z) : json := JNum z 0.
Definition JStrings (l : list string) : json := JArr (map JStr l).

Definition decimals_of (denominator : positive) : option nat :=
  if Pos.eqb denominator 1 then Some 0%nat
  else if Pos.eqb denominator 10 then Some 1%nat
  else if Pos.eqb denominator 100 then Some 2%nat
  else if Pos.eqb denominator 1000 then Some 3%nat
  else None.

Definition Q_to_json (q : Q) : json :=
  match decimals_of (Qden q) with
  | Some k => JNum (Qnum q) k
  | None => JNull
  end.

Definition Q_of_json (j : json) : option Q :=
  match j with
  | JNum mantissa k => Some (Qmake mantissa (Z.to_pos (10 ^ Z.of_nat k)))
  | _ => None
  end.

Definition DamageType_to_json (t : DamageType) : json :=
  JStr match t with
       | scratch => "scratch" | dent => "dent" | structural => "structural"
       | glass => "glass" | paint => "paint"
       end.

Definition DamageType_of_json (j : json) : option DamageType :=
  s ← as_string j;
  if String.eqb s "scratch" then Some scratch
  else if String.eqb s "dent" then Some dent
  else if String.eqb s "structural" then Some structural
  else if String.eqb s "glass" then Some glass
  else if String.eqb s "paint" then Some paint
  else None.

Definition Severity_to_json (s : Severity) : json :=
  JStr match s with
       | minor => "minor" | moderate => "moderate" | severe => "severe"
       end.

Definition Severity_of_json (j : json) : option Severity :=
  s ← as_string j;
  if String.eqb s "minor" then Some minor
  else if String.eqb s "moderate" then Some moderate
  else if String.eqb s "severe" then Some severe
  else None.

Definition Status_to_json (s : Status) : json :=
  JStr match s with
       | pending => "pending" | processing => "processing"
       | approved => "approved" | rejected => "rejected"
       end.

Definition Status_of_json (j : json) : option Status :=
  s ← as_string j;
  if String.eqb s "pending" then Some pending
  else if String.eqb s "processing" then Some processing
  else if String.eqb s "approved" then Some approved
  else if String.eqb s "rejected" then Some rejected
  else None.

Definition DamageAssessment_to_json (a : DamageAssessment.t) : json :=
  JObj [("id", JStr (DamageAssessment.id a));
        ("type", DamageType_to_json (DamageAssessment.type a));
        ("severity", Severity_to_json (DamageAssessment.severity a));
        ("location", JStr (DamageAssessment.location a));
        ("estimatedCost", JInt (DamageAssessment.estimatedCost a));
        ("confidence", Q_to_json (DamageAssessment.confidence a))].

Definition DamageAssessment_of_json (j : json) : option DamageAssessment.t :=
  o ← as_object j;
  id ← required "id" as_string o;
  type ← required "type" DamageType_of_json o;
  severity ← required "severity" Severity_of_json o;
  location ← required "location" as_string o;
  estimatedCost ← required "estimatedCost" as_Z o;
  confidence ← required "confidence" Q_of_json o;
  Some (DamageAssessment.mk id type severity location estimatedCost confidence).

Definition JAssessments (l : list DamageAssessment.t) : json :=
  JArr (map DamageAssessment_to_json l).

Definition Claim_to_json (c : Claim.t) : json :=
  JObj ([("id", JStr (Claim.id c));
         ("policyNumber", JStr (Claim.policyNumber c));
         ("customerName", JStr (Claim.customerName c));
         ("customerEmail", JStr (Claim.customerEmail c));
         ("customerPhone", JStr (Claim.customerPhone c));
         ("vehicleMake", JStr (Claim.vehicleMake c));
         ("vehicleModel", JStr (Claim.vehicleModel c));
         ("vehicleYear", JInt (Claim.vehicleYear c));
         ("accidentDate", JStr (Claim.accidentDate c));
         ("accidentDescription", JStr (Claim.accidentDescription c));
         ("photos", JStrings (Claim.photos c));
         ("videos", JStrings (Claim.videos c));
         ("status", Status_to_json (Claim.status c));
         ("damageAssessments", JAssessments (Claim.damageAssessments c));
         ("totalEstimatedCost", JInt (Claim.totalEstimatedCost c))] ++
        member "repairShopId" JStr (Claim.repairShopId c) ++
        [("createdAt", JInt (Claim.createdAt c));
         ("updatedAt", JInt (Claim.updatedAt c));
         ("aiAnalysisComplete", JBool (Claim.aiAnalysisComplete c))] ++
        member "processingTime" JInt (Claim.processingTime c)).

Definition Claim_of_json (j : json) : option Claim.t :=
  o ← as_object j;
  id ← required "id" as_string o;
  policyNumber ← required "policyNumber" as_string o;
  customerName ← required "customerName" as_string o;
  customerEmail ← required "customerEmail" as_string o;
  customerPhone ← required "customerPhone" as_string o;
  vehicleMake ← required "vehicleMake" as_string o;
  vehicleModel ← required "vehicleModel" as_string o;
  vehicleYear ← required "vehicleYear" as_Z o;
  accidentDate ← required "accidentDate" as_string o;
  accidentDescription ← required "accidentDescription" as_string o;
  photos ← required "photos" (as_array as_string) o;
  videos ← required "videos" (as_array as_string) o;
  status ← required "status" Status_of_json o;
  damageAssessments ← required "damageAssessments" (as_array DamageAssessment_of_json) o;
  totalEstimatedCost ← required "totalEstimatedCost" as_Z o;
  repairShopId ← optional "repairShopId" as_string o;
  createdAt ← required "createdAt" as_Z o;
  updatedAt ← required "updatedAt" as_Z o;
  aiAnalysisComplete ← required "aiAnalysisComplete" as_bool o;
  processingTime ← optional "processingTime" as_Z o;
  Some (Claim.mk id policyNumber customerName customerEmail customerPhone vehicleMake
                 vehicleModel vehicleYear accidentDate accidentDescription photos videos
                 status damageAssessments totalEstimatedCost repairShopId createdAt
                 updatedAt aiAnalysisComplete processingTime).

Definition PartialClaim_to_json (c : PartialClaim.t) : json :=
  JObj (member "id" JStr (PartialClaim.id c) ++
        member "policyNumber" JStr (PartialClaim.policyNumber c) ++
        member "customerName" JStr (PartialClaim.customerName c) ++
        member "customerEmail" JStr (PartialClaim.customerEmail c) ++
        member "customerPhone" JStr (PartialClaim.customerPhone c) ++
        member "vehicleMake" JStr (PartialClaim.vehicleMake c) ++
        member "vehicleModel" JStr (PartialClaim.vehicleModel c) ++
        member "vehicleYear" JInt (PartialClaim.vehicleYear c) ++
        member "accidentDate" JStr (PartialClaim.accidentDate c) ++
        member "accidentDescription" JStr (PartialClaim.accidentDescription c) ++
        member "photos" JStrings (PartialClaim.photos c) ++
        member "videos" JStrings (PartialClaim.videos c) ++
        member "status" Status_to_json (PartialClaim.status c) ++
        member "damageAssessments" JAssessments (PartialClaim.damageAssessments c) ++
        member "totalEstimatedCost" JInt (PartialClaim.totalEstimatedCost c) ++
        member "repairShopId" JStr (mjoin (PartialClaim.repairShopId c)) ++
        member "createdAt" JInt (PartialClaim.createdAt c) ++
        member "updatedAt" JInt (PartialClaim.updatedAt c) ++
        member "aiAnalysisComplete" JBool (PartialClaim.aiAnalysisComplete c) ++
        member "processingTime" JInt (mjoin (PartialClaim.processingTime c))).

Definition PartialClaim_of_json (j : json) : option PartialClaim.t :=
  o ← as_object j;
  id ← optional "id" as_string o;
  policyNumber ← optional "policyNumber" as_string o;
  customerName ← optional "customerName" as_string o;
  customerEmail ← optional "customerEmail" as_string o;
  customerPhone ← optional "customerPhone" as_string o;
  vehicleMake ← optional "vehicleMake" as_string o;
  vehicleModel ← optional "vehicleModel" as_string o;
  vehicleYear ← optional "vehicleYear" as_Z o;
  accidentDate ← optional "accidentDate" as_string o;
  accidentDescription ← optional "accidentDescription" as_string o;
  photos ← optional "photos" (as_array as_string) o;
  videos ← optional "videos" (as_array as_string) o;
  status ← optional "status" Status_of_json o;
  damageAssessments ← optional "damageAssessments" (as_array DamageAssessment_of_json) o;
  totalEstimatedCost ← optional "totalEstimatedCost" as_Z o;
  repairShopId ← optional "repairShopId" as_string o;
  createdAt ← optional "createdAt" as_Z o;
  updatedAt ← optional "updatedAt" as_Z o;
  aiAnalysisComplete ← optional "aiAnalysisComplete" as_bool o;
  processingTime ← optional "processingTime" as_Z o;
  Some (PartialClaim.mk id policyNumber customerName customerEmail customerPhone
                        vehicleMake vehicleModel vehicleYear accidentDate
                        accidentDescription photos videos status damageAssessments
                        totalEstimatedCost (Some <$> repairShopId) createdAt updatedAt
                        aiAnalysisComplete (Some <$> processingTime)).

Definition StoredInProgress_to_json (d : StoredInProgress.t) : json :=
  JObj ([("id", JStr (StoredInProgress.id d));
         ("formData", PartialClaim_to_json (StoredInProgress.formData d));
         ("photos", JStrings (StoredInProgress.photos d));
         ("videos", JStrings (StoredInProgress.videos d));
         ("damageAssessments", JAssessments (StoredInProgress.damageAssessments d));
         ("analysisComplete", JBool (StoredInProgress.analysisComplete d))] ++
        member "approvedAssessments" JStrings (StoredInProgress.approvedAssessments d) ++
        [("lastSaved", JInt (StoredInProgress.lastSaved d))]).

Definition StoredInProgress_of_json (j : json) : option StoredInProgress.t :=
  o ← as_object j;
  id ← required "id" as_string o;
  formData ← required "formData" PartialClaim_of_json o;
  photos ← required "photos" (as_array as_string) o;
  videos ← required "videos" (as_array as_string) o;
  damageAssessments ← required "damageAssessments" (as_array DamageAssessment_of_json) o;
  analysisComplete ← required "analysisComplete" as_bool o;
  approvedAssessments ← optional "approvedAssessments" (as_array as_string) o;
  lastSaved ← required "lastSaved" as_Z o;
  Some (StoredInProgress.mk id formData photos videos damageAssessments analysisComplete
                            approvedAssessments lastSaved).

(** A parsed value, seen from a type: the table it reads as, or the value
    itself when it does not read as one. *)
Definition view {A} (read : json → option A) (j : json) : Value A :=
  match read j with
  | Some a => of_type a
  | None => of_another_shape j
  end.

(** The browser: a clock that advances one millisecond at each reading. *)
Definition browser : Platform :=
  {| clock := λ n, 1700000000000 + Z.of_nat n;
     random_suffix := λ n, "k3v9" +:+ Number_toString (Z.of_nat n);
     JSON_stringify_claims := λ claims, print (JArr (map Claim_to_json claims));
     JSON_parse_claims := λ text, view (as_array Claim_of_json) <$> parse text;
     JSON_stringify_inProgress :=
       λ inProgress, print (JArr (map StoredInProgress_to_json inProgress));
     JSON_parse_inProgress :=
       λ text, view (as_array StoredInProgress_of_json) <$> parse text;
     localStorage_accepts := λ _ _ _, true |}.

(** The same browser within one millisecond: every reading of the clock
    gives the same instant, and [Math.random] draws the same digits. *)
Definition within_a_millisecond : Platform :=
  {| clock := λ _, 1700000000000;
     random_suffix := λ _, "k3v9";
     JSON_stringify_claims := JSON_stringify_claims browser;
     JSON_parse_claims := JSON_parse_claims browser;
     JSON_stringify_inProgress := JSON_stringify_inProgress browser;
     JSON_parse_inProgress := JSON_parse_inProgress browser;
     localStorage_accepts := λ _ _ _, true |}.

End Demo.

(** ** Sample data *)

Module Sample.

Definition assessment (id : string) (estimatedCost : Z) : DamageAssessment.t :=
  {| DamageAssessment.id := id;
     DamageAssessment.type := dent;
     DamageAssessment.severity := moderate;
     DamageAssessment.location := "Front bumper";
     DamageAssessment.estimatedCost := estimatedCost;
     DamageAssessment.confidence := 92 # 100 |}.

(** Three assessments with costs 100, 200 and 300. *)
Definition three_assessments : list DamageAssessment.t :=
  [assessment "a" 100; assessment "b" 200; assessment "c" 300].

(** Only the first and the third are approved. *)
Definition first_and_third : gset string := {["a"; "c"]}.

Definition formData : FormData.t :=
  {| FormData.policyNumber := "POL-1";
     FormData.customerName := "A";
     FormData.customerEmail := "a@example.com";
     FormData.customerPhone := "(555) 123-4567";
     FormData.vehicleMake := "Toyota";
     FormData.vehicleModel := "Camry";
     FormData.vehicleYear := 2022;
     FormData.accidentDate := "2024-01-15";
     FormData.accidentDescription := "Rear-end collision at traffic light." |}.

Definition claimData (status : Status) : ClaimData.t :=
  {| ClaimData.policyNumber := "POL-1";
     ClaimData.customerName := "A";
     ClaimData.customerEmail := "a@example.com";
     ClaimData.customerPhone := "(555) 123-4567";
     ClaimData.vehicleMake := "Toyota";
     ClaimData.vehicleModel := "Camry";
     ClaimData.vehicleYear := 2022;
     ClaimData.accidentDate := "2024-01-15";
     ClaimData.accidentDescription := "Rear-end collision at traffic light.";
     ClaimData.photos := ["data:image/png;base64,iVBORw0KGgo="];
     ClaimData.videos := [];
     ClaimData.status := status;
     ClaimData.damageAssessments := three_assessments;
     ClaimData.totalEstimatedCost := 600;
     ClaimData.repairShopId := Some "shop_001";
     ClaimData.aiAnalysisComplete := true;
     ClaimData.processingTime := Some 3 |}.

(** A claim as [addClaim] would have stored it. *)
Definition claim (id : string) (status : Status) : Claim.t :=
  newClaim_of (claimData status) id 1700000000000 1700000000000.

(** The draft [{id: "s1", approvedAssessments: {"a", "b"}}]. *)
Definition draft : InProgressClaim.t :=
  {| InProgressClaim.id := "s1";
     InProgressClaim.formData := PartialClaim.empty;
     InProgressClaim.photos := [];
     InProgressClaim.videos := [];
     InProgressClaim.damageAssessments := three_assessments;
     InProgressClaim.analysisComplete := true;
     InProgressClaim.approvedAssessments := {["a"; "b"]};
     InProgressClaim.lastSaved := 1700000000000 |}.

(** A second save under the same id. *)
Definition draft' : InProgressClaim.t :=
  {| InProgressClaim.id := "s1";
     InProgressClaim.formData := PartialClaim.empty;
     InProgressClaim.photos := ["data:image/png;base64,iVBORw0KGgo="];
     InProgressClaim.videos := [];
     InProgressClaim.damageAssessments := [];
     InProgressClaim.analysisComplete := false;
     InProgressClaim.approvedAssessments := ∅;
     InProgressClaim.lastSaved := 1700000030000 |}.

(** The patch [{status}]. *)
Definition patch_status (status : Status) : PartialClaim.t :=
  PartialClaim.mk None None None None None None None None None None
                  None None (Some status) None None None None None None None.

(** The patch [{createdAt}]. *)
Definition patch_createdAt (createdAt : Z) : PartialClaim.t :=
  PartialClaim.mk None None None None None None None None None None
                  None None None None None None (Some createdAt) None None None.

(** The patch [{updatedAt}]. *)
Definition patch_updatedAt (updatedAt : Z) : PartialClaim.t :=
  PartialClaim.mk None None None None None None None None None None
                  None None None None None None None (Some updatedAt) None None.

(** A running page: one claim, one draft. *)
Definition world : World.t :=
  {| World.state :=
       {| ClaimsState.claims := [claim "claim_1700000000000_k3v9" pending];
          ClaimsState.inProgressClaims := [draft];
          ClaimsState.loading := false;
          ClaimsState.error := None |};
     World.localStorage := ∅;
     World.console := [];
     World.clock_reads := 0;
     World.random_draws := 0 |}.

(** The page of a new claim at submission: three assessments, the first and
    the third approved. *)
Definition newClaimPage : NewClaimPage.t :=
  {| NewClaimPage.formData := formData;
     NewClaimPage.photos := [];
     NewClaimPage.videos := [];
     NewClaimPage.isAnalyzing := false;
     NewClaimPage.analysisComplete := true;
     NewClaimPage.damageAssessments := three_assessments;
     NewClaimPage.approvedAssessments := first_and_third |}.

(** The edit page of the claim of [world], with the second of its three
    assessments unticked. *)
Definition editClaimPage : EditClaimPage.t :=
  {| EditClaimPage.existingClaim := Some (claim "claim_1700000000000_k3v9" pending);
     EditClaimPage.formData := formData;
     EditClaimPage.photos := [];
     EditClaimPage.videos := [];
     EditClaimPage.analysisComplete := true;
     EditClaimPage.damageAssessments := three_assessments;
     EditClaimPage.approvedAssessments := first_and_third |}.

(** A [localStorage] whose claims are corrupt and whose drafts are absent. *)
Definition corrupt_storage : gmap string string :=
  {[ KEY_CLAIMS := "[{not json" ]}.

End Sample.

(** ** What [UPDATE_CLAIM] computes

    The table [state.claims.map(...)] yields when the clock has been read
    [n] times before, and the number of readings it makes. *)

Fixpoint updated_claims (P : Platform) (id : string) (updates : PartialClaim.t)
    (n : nat) (claims : list Claim.t) : list Claim.t :=
  match claims with
  | [] => []
  | claim :: rest =>
      if bool_decide (Claim.id claim = id)
      then with_updatedAt (spread claim updates) (clock P n)
             :: updated_claims P id updates (S n) rest
      else claim :: updated_claims P id updates n rest
  end.

Fixpoint matches (id : string) (claims : list Claim.t) : nat :=
  match claims with
  | [] => 0
  | claim :: rest =>
      if bool_decide (Claim.id claim = id) then S (matches id rest) else matches id rest
  end.

(** The clock never goes back. *)
Definition monotone (P : Platform) : Prop :=
  ∀ n m : nat, (n ≤ m)%nat → clock P n ≤ clock P m.

(** The sum of the estimated costs. *)
Definition sum_costs (assessments : list DamageAssessment.t) : Z :=
  foldr (λ assessment sum, DamageAssessment.estimatedCost assessment + sum) 0 assessments.

(** Whether a character occurs in a string. *)
Fixpoint occurs (c : ascii) (s : string) : bool :=
  match s with
  | EmptyString => false
  | String d rest => Ascii.eqb c d || occurs c rest
  end.

(** Operations whose patch, if any, has no [createdAt] key. *)
Definition keeps_createdAt (op : StoreOp) : Prop :=
  match op with
  | OpUpdateClaim _ updates => PartialClaim.createdAt updates = None
  | _ => True
  end.

(** What every step keeps: each claim was created no later than it was last
    updated, and no later than the clock will read next. *)
Definition timestamps_ok (P : Platform) (w : World.t) : Prop :=
  Forall (λ claim,
            Claim.createdAt claim ≤ Claim.updatedAt claim ∧
            Claim.createdAt claim ≤ clock P (World.clock_reads w))
         (ClaimsState.claims (World.state w)).

(** ** What a load finds under a key

    Nothing, when the key is absent or holds the empty string, which
    [if (saved)] skips; a table; a value of another shape that the code takes
    as it is; or a text or a value on which the code throws. *)
Inductive Stored (A : Type) :=
  | no_text
  | a_table (a : A)
  | another_shape (j : json)
  | corrupt (e : Exn).
Arguments no_text {A}.
Arguments a_table {A} a.
Arguments another_shape {A} j.
Arguments corrupt {A} e.

Definition stored_claims (P : Platform) (storage : gmap string string)
  : Stored (list Claim.t) :=
  match storage !! KEY_CLAIMS with
  | None => no_text
  | Some text =>
      if String.eqb text EmptyString then no_text
      else match JSON_parse_claims P text with
           | None => corrupt SyntaxError
           | Some (of_type claims) => a_table claims
           | Some (of_another_shape j) => another_shape j
           end
  end.

Definition stored_inProgress (P : Platform) (storage : gmap string string)
  : Stored (list InProgressClaim.t) :=
  match storage !! KEY_IN_PROGRESS with
  | None => no_text
  | Some text =>
      if String.eqb text EmptyString then no_text
      else match JSON_parse_inProgress P text with
           | None => corrupt SyntaxError
           | Some (of_type inProgress) => a_table (map fromStorage inProgress)
           | Some (of_another_shape j) =>
               if inProgress_map_throws j then corrupt TypeError else another_shape j
           end
  end.

(** The world with one table replaced, and with one more line of the
    console. *)
Definition with_claims (claims : list Claim.t) (w : World.t) : World.t :=
  World.mk (ClaimsState.mk claims
              (ClaimsState.inProgressClaims (World.state w))
              (ClaimsState.loading (World.state w))
              (ClaimsState.error (World.state w)))
           (World.localStorage w) (World.console w)
           (World.clock_reads w) (World.random_draws w).

Definition with_inProgressClaims (inProgressClaims : list InProgressClaim.t)
    (w : World.t) : World.t :=
  World.mk (ClaimsState.mk (ClaimsState.claims (World.state w))
              inProgressClaims
              (ClaimsState.loading (World.state w))
              (ClaimsState.error (World.state w)))
           (World.localStorage w) (World.console w)
           (World.clock_reads w) (World.random_draws w).

Definition with_console_error (msg : string) (w : World.t) : World.t :=
  World.mk (World.state w) (World.localStorage w)
           (World.console w ++ [console_error_entry msg])%list
           (World.clock_reads w) (World.random_draws w).

(** The world of a load after the claims have been handled, when that did
    not throw, and after the drafts have. *)
Definition claims_loaded (stored : Stored (list Claim.t)) (u : Untyped.t) : Untyped.t :=
  match stored with
  | a_table claims =>
      Untyped.mk (with_claims claims (Untyped.world u)) None (Untyped.inProgressClaims u)
  | another_shape j => Untyped.mk (Untyped.world u) (Some j) (Untyped.inProgressClaims u)
  | no_text | corrupt _ => u
  end.

Definition inProgress_loaded (stored : Stored (list InProgressClaim.t)) (u : Untyped.t)
  : Untyped.t :=
  match stored with
  | a_table inProgress =>
      Untyped.mk (with_inProgressClaims inProgress (Untyped.world u)) (Untyped.claims u) None
  | another_shape j => Untyped.mk (Untyped.world u) (Untyped.claims u) (Some j)
  | no_text | corrupt _ => u
  end.

Definition failed {A} (stored : Stored A) : bool :=
  match stored with
  | corrupt _ => true
  | no_text | a_table _ | another_shape _ => false
  end.

Definition load_error : string := "Error loading from localStorage:".

(** The world that [loadFromStorage] leaves. *)
Definition loaded (P : Platform) (u : Untyped.t) : Untyped.t :=
  let storage := World.localStorage (Untyped.world u) in
  let logged u' :=
    Untyped.mk (with_console_error load_error (Untyped.world u'))
               (Untyped.claims u') (Untyped.inProgressClaims u') in
  if failed (stored_claims P storage) then logged u
  else
    let u1 := claims_loaded (stored_claims P storage) u in
    if failed (stored_inProgress P storage) then logged u1
    else inProgress_loaded (stored_inProgress P storage) u1.

(** ** More of [NewClaim.tsx] *)

(** [const newSet = new Set(prev)], then [delete] when the set has the id
    and [add] otherwise: the body of [toggleAssessmentApproval], and of
    [handleAssessmentToggle] in [EditClaim.tsx]. *)
Definition toggle (prev : gset string) (id : string) : gset string :=
  if bool_decide (id ∈ prev) then prev ∖ {[id]} else prev ∪ {[id]}.

(** [prev.filter((_, i) => i !== index)], from position [i] on. *)
Fixpoint filter_other_index {A} (index i : nat) (prev : list A) : list A :=
  match prev with
  | [] => []
  | x :: rest =>
      if bool_decide (i ≠ index)
      then x :: filter_other_index index (S i) rest
      else filter_other_index index (S i) rest
  end.

(** The object [formData] where a [Partial<Claim>] is expected. *)
Definition formData_as_partial (formData : FormData.t) : PartialClaim.t :=
  {| PartialClaim.id := None;
     PartialClaim.policyNumber := Some (FormData.policyNumber formData);
     PartialClaim.customerName := Some (FormData.customerName formData);
     PartialClaim.customerEmail := Some (FormData.customerEmail formData);
     PartialClaim.customerPhone := Some (FormData.customerPhone formData);
     PartialClaim.vehicleMake := Some (FormData.vehicleMake formData);
     PartialClaim.vehicleModel := Some (FormData.vehicleModel formData);
     PartialClaim.vehicleYear := Some (FormData.vehicleYear formData);
     PartialClaim.accidentDate := Some (FormData.accidentDate formData);
     PartialClaim.accidentDescription := Some (FormData.accidentDescription formData);
     PartialClaim.photos := None;
     PartialClaim.videos := None;
     PartialClaim.status := None;
     PartialClaim.damageAssessments := None;
     PartialClaim.totalEstimatedCost := None;
     PartialClaim.repairShopId := None;
     PartialClaim.createdAt := None;
     PartialClaim.updatedAt := None;
     PartialClaim.aiAnalysisComplete := None;
     PartialClaim.processingTime := None |}.

(** [{ ...prev, ...savedData.formData }], read at the nine keys of the form. *)
Definition spread_formData (prev : FormData.t) (saved : PartialClaim.t) : FormData.t :=
  {| FormData.policyNumber :=
       default (FormData.policyNumber prev) (PartialClaim.policyNumber saved);
     FormData.customerName :=
       default (FormData.customerName prev) (PartialClaim.customerName saved);
     FormData.customerEmail :=
       default (FormData.customerEmail prev) (PartialClaim.customerEmail saved);
     FormData.customerPhone :=
       default (FormData.customerPhone prev) (PartialClaim.customerPhone saved);
     FormData.vehicleMake :=
       default (FormData.vehicleMake prev) (PartialClaim.vehicleMake saved);
     FormData.vehicleModel :=
       default (FormData.vehicleModel prev) (PartialClaim.vehicleModel saved);
     FormData.vehicleYear :=
       default (FormData.vehicleYear prev) (PartialClaim.vehicleYear saved);
     FormData.accidentDate :=
       default (FormData.accidentDate prev) (PartialClaim.accidentDate saved);
     FormData.accidentDescription :=
       default (FormData.accidentDescription prev) (PartialClaim.accidentDescription saved) |}.

(** [Object.keys(partial)], in the order of the interface. *)
Definition key_if {A} (value : option A) (key : string) : list string :=
  match value with Some _ => [key] | None => [] end.

Definition Object_keys (partial : PartialClaim.t) : list string :=
  key_if (PartialClaim.id partial) "id" ++
  key_if (PartialClaim.policyNumber partial) "policyNumber" ++
  key_if (PartialClaim.customerName partial) "customerName" ++
  key_if (PartialClaim.customerEmail partial) "customerEmail" ++
  key_if (PartialClaim.customerPhone partial) "customerPhone" ++
  key_if (PartialClaim.vehicleMake partial) "vehicleMake" ++
  key_if (PartialClaim.vehicleModel partial) "vehicleModel" ++
  key_if (PartialClaim.vehicleYear partial) "vehicleYear" ++
  key_if (PartialClaim.accidentDate partial) "accidentDate" ++
  key_if (PartialClaim.accidentDescription partial) "accidentDescription" ++
  key_if (PartialClaim.photos partial) "photos" ++
  key_if (PartialClaim.videos partial) "videos" ++
  key_if (PartialClaim.status partial) "status" ++
  key_if (PartialClaim.damageAssessments partial) "damageAssessments" ++
  key_if (PartialClaim.totalEstimatedCost partial) "totalEstimatedCost" ++
  key_if (PartialClaim.repairShopId partial) "repairShopId" ++
  key_if (PartialClaim.createdAt partial) "createdAt" ++
  key_if (PartialClaim.updatedAt partial) "updatedAt" ++
  key_if (PartialClaim.aiAnalysisComplete partial) "aiAnalysisComplete" ++
  key_if (PartialClaim.processingTime partial) "processingTime".

(** The [useState] cells of [NewClaim.tsx] that its functions read or
    write: those of [NewClaimPage.t], the step, and the three cells of the
    saved progress.  [lastSaved] is [None] for the empty string.  The cells
    of the import dialog and of the validation messages are not kept. *)
Module NewClaimState.
Record t := mk {
  page : NewClaimPage.t;
  currentStep : Z;
  lastSaved : option Z;
  hasUnsavedChanges : bool;
  hasSavedProgress : bool
}.
End NewClaimState.

(** [getApprovedTotalCost], the total the review step shows. *)
Definition getApprovedTotalCost (page : NewClaimPage.t) : Z :=
  total_cost (approved_of (NewClaimPage.damageAssessments page)
                          (NewClaimPage.approvedAssessments page)).

Definition toggleAssessmentApproval (s : NewClaimState.t) (assessmentId : string)
  : NewClaimState.t :=
  let page := NewClaimState.page s in
  {| NewClaimState.page :=
       {| NewClaimPage.formData := NewClaimPage.formData page;
          NewClaimPage.photos := NewClaimPage.photos page;
          NewClaimPage.videos := NewClaimPage.videos page;
          NewClaimPage.isAnalyzing := NewClaimPage.isAnalyzing page;
          NewClaimPage.analysisComplete := NewClaimPage.analysisComplete page;
          NewClaimPage.damageAssessments := NewClaimPage.damageAssessments page;
          NewClaimPage.approvedAssessments :=
            toggle (NewClaimPage.approvedAssessments page) assessmentId |};
     NewClaimState.currentStep := NewClaimState.currentStep s;
     NewClaimState.lastSaved := NewClaimState.lastSaved s;
     NewClaimState.hasUnsavedChanges := true;
     NewClaimState.hasSavedProgress := NewClaimState.hasSavedProgress s |}.

Definition removePhoto (s : NewClaimState.t) (index : nat) : NewClaimState.t :=
  let page := NewClaimState.page s in
  {| NewClaimState.page :=
       {| NewClaimPage.formData := NewClaimPage.formData page;
          NewClaimPage.photos := filter_other_index index 0 (NewClaimPage.photos page);
          NewClaimPage.videos := NewClaimPage.videos page;
          NewClaimPage.isAnalyzing := NewClaimPage.isAnalyzing page;
          NewClaimPage.analysisComplete := NewClaimPage.analysisComplete page;
          NewClaimPage.damageAssessments := NewClaimPage.damageAssessments page;
          NewClaimPage.approvedAssessments := NewClaimPage.approvedAssessments page |};
     NewClaimState.currentStep := NewClaimState.currentStep s;
     NewClaimState.lastSaved := NewClaimState.lastSaved s;
     NewClaimState.hasUnsavedChanges := true;
     NewClaimState.hasSavedProgress := NewClaimState.hasSavedProgress s |}.

Definition removeVideo (s : NewClaimState.t) (index : nat) : NewClaimState.t :=
  let page := NewClaimState.page s in
  {| NewClaimState.page :=
       {| NewClaimPage.formData := NewClaimPage.formData page;
          NewClaimPage.photos := NewClaimPage.photos page;
          NewClaimPage.videos := filter_other_index index 0 (NewClaimPage.videos page);
          NewClaimPage.isAnalyzing := NewClaimPage.isAnalyzing page;
          NewClaimPage.analysisComplete := NewClaimPage.analysisComplete page;
          NewClaimPage.damageAssessments := NewClaimPage.damageAssessments page;
          NewClaimPage.approvedAssessments := NewClaimPage.approvedAssessments page |};
     NewClaimState.currentStep := NewClaimState.currentStep s;
     NewClaimState.lastSaved := NewClaimState.lastSaved s;
     NewClaimState.hasUnsavedChanges := true;
     NewClaimState.hasSavedProgress := NewClaimState.hasSavedProgress s |}.

(** The draft [inProgressData] that [saveProgress], the auto-save and the
    [beforeunload] handler build from the page. *)
Definition inProgressData (page : NewClaimPage.t) (lastSaved : Z) : InProgressClaim.t :=
  {| InProgressClaim.id := NewClaimPage.sessionId;
     InProgressClaim.formData := formData_as_partial (NewClaimPage.formData page);
     InProgressClaim.photos := NewClaimPage.photos page;
     InProgressClaim.videos := NewClaimPage.videos page;
     InProgressClaim.damageAssessments := NewClaimPage.damageAssessments page;
     InProgressClaim.analysisComplete := NewClaimPage.analysisComplete page;
     InProgressClaim.approvedAssessments := NewClaimPage.approvedAssessments page;
     InProgressClaim.lastSaved := lastSaved |}.

(** The page after [savedData] has been put in its cells: the body of the
    [if (savedData)] of [loadSavedProgress] up to the step. *)
Definition restored (s : NewClaimState.t) (savedData : InProgressClaim.t)
  : NewClaimState.t :=
  let page := NewClaimState.page s in
  {| NewClaimState.page :=
       {| NewClaimPage.formData :=
            spread_formData (NewClaimPage.formData page)
                            (InProgressClaim.formData savedData);
          NewClaimPage.photos := InProgressClaim.photos savedData;
          NewClaimPage.videos := InProgressClaim.videos savedData;
          NewClaimPage.isAnalyzing := NewClaimPage.isAnalyzing page;
          NewClaimPage.analysisComplete := InProgressClaim.analysisComplete savedData;
          NewClaimPage.damageAssessments := InProgressClaim.damageAssessments savedData;
          NewClaimPage.approvedAssessments :=
            InProgressClaim.approvedAssessments savedData |};
     NewClaimState.currentStep := NewClaimState.currentStep s;
     NewClaimState.lastSaved := Some (InProgressClaim.lastSaved savedData);
     NewClaimState.hasUnsavedChanges := false;
     NewClaimState.hasSavedProgress := true |}.

Section NewClaimProgress.
Context (P : Platform).

Definition saveProgress (s : NewClaimState.t) : JS NewClaimState.t :=
  lastSaved ← new_Date_toISOString P;
  saveInProgressClaim P (inProgressData (NewClaimState.page s) lastSaved);;
  shown ← new_Date_toISOString P;
  mret {| NewClaimState.page := NewClaimState.page s;
          NewClaimState.currentStep := NewClaimState.currentStep s;
          NewClaimState.lastSaved := Some shown;
          NewClaimState.hasUnsavedChanges := false;
          NewClaimState.hasSavedProgress := true |}.

Definition clearSavedProgress (s : NewClaimState.t) : JS NewClaimState.t :=
  deleteInProgressClaim P NewClaimPage.sessionId;;
  mret {| NewClaimState.page := NewClaimState.page s;
          NewClaimState.currentStep := NewClaimState.currentStep s;
          NewClaimState.lastSaved := None;
          NewClaimState.hasUnsavedChanges := false;
          NewClaimState.hasSavedProgress := false |}.

Definition loadSavedProgress (s : NewClaimState.t) : JS NewClaimState.t :=
  savedData ← getInProgressClaim NewClaimPage.sessionId;
  match savedData with
  | Some savedData =>
      let s' := restored s savedData in
      if bool_decide (0 < length (Object_keys (InProgressClaim.formData savedData)))%nat
      then mret {| NewClaimState.page := NewClaimState.page s';
                   NewClaimState.currentStep := 1;
                   NewClaimState.lastSaved := NewClaimState.lastSaved s';
                   NewClaimState.hasUnsavedChanges := NewClaimState.hasUnsavedChanges s';
                   NewClaimState.hasSavedProgress := NewClaimState.hasSavedProgress s' |}
      else mret s'
  | None => mret s
  end.

(** The effect that runs when the page mounts. *)
Definition restore_on_mount (s : NewClaimState.t) : JS NewClaimState.t :=
  savedData ← getInProgressClaim NewClaimPage.sessionId;
  match savedData with
  | Some savedData => mret (restored s savedData)
  | None =>
      mret {| NewClaimState.page := NewClaimState.page s;
              NewClaimState.currentStep := NewClaimState.currentStep s;
              NewClaimState.lastSaved := NewClaimState.lastSaved s;
              NewClaimState.hasUnsavedChanges := NewClaimState.hasUnsavedChanges s;
              NewClaimState.hasSavedProgress := false |}
  end.

End NewClaimProgress.


(** *** [handleMediaUpload]

    The handler shares [newPhotos], [newVideos] and [processedFiles] among
    the [onload] callbacks of the files of one selection.  A file whose read
    has succeeded is given by its MIME type and the data URL read. *)
Module Upload.
Record file := mk_file { type : string; result : string }.

Record t := mk {
  newPhotos : list string;
  newVideos : list string;
  processedFiles : nat
}.

Definition start : t := mk [] [] 0.

(** One [reader.onload]: the variables of the closure afterwards and, when
    this was the last file of the selection, the batch to commit. *)
Definition onload (totalFiles : nat) (f : file) (u : t)
  : t * option (list string * list string) :=
  if String.eqb (result f) EmptyString then (u, None)
  else
    let newPhotos :=
      if String.prefix "image/" (type f) then (newPhotos u ++ [result f])%list
      else newPhotos u in
    let newVideos :=
      if String.prefix "image/" (type f) then newVideos u
      else if String.prefix "video/" (type f) then (newVideos u ++ [result f])%list
      else newVideos u in
    let processedFiles := S (processedFiles u) in
    (mk newPhotos newVideos processedFiles,
     if bool_decide (processedFiles = totalFiles)
     then Some (newPhotos, newVideos) else None).
End Upload.

(** What the page of a new claim does with a batch:
    [setPhotos(prev => [...prev, ...newPhotos])] when there are photos, the
    same for the videos, and [setHasUnsavedChanges(true)]. *)
Definition NewClaim_commit (s : NewClaimState.t) (batch : list string * list string)
  : NewClaimState.t :=
  let page := NewClaimState.page s in
  {| NewClaimState.page :=
       {| NewClaimPage.formData := NewClaimPage.formData page;
          NewClaimPage.photos :=
            if bool_decide (0 < length batch.1)%nat
            then NewClaimPage.photos page ++ batch.1 else NewClaimPage.photos page;
          NewClaimPage.videos :=
            if bool_decide (0 < length batch.2)%nat
            then NewClaimPage.videos page ++ batch.2 else NewClaimPage.videos page;
          NewClaimPage.isAnalyzing := NewClaimPage.isAnalyzing page;
          NewClaimPage.analysisComplete := NewClaimPage.analysisComplete page;
          NewClaimPage.damageAssessments := NewClaimPage.damageAssessments page;
          NewClaimPage.approvedAssessments := NewClaimPage.approvedAssessments page |};
     NewClaimState.currentStep := NewClaimState.currentStep s;
     NewClaimState.lastSaved := NewClaimState.lastSaved s;
     NewClaimState.hasUnsavedChanges := true;
     NewClaimState.hasSavedProgress := NewClaimState.hasSavedProgress s |}.

(** [handleMediaUpload] on a selection of [totalFiles] files, followed by
    the [onload] events of the files in [loaded], in the order in which
    their reads complete. *)
Fixpoint NewClaim_onloads (totalFiles : nat) (loaded : list Upload.file)
    (u : Upload.t) (s : NewClaimState.t) : Upload.t * NewClaimState.t :=
  match loaded with
  | [] => (u, s)
  | f :: rest =>
      let '(u', batch) := Upload.onload totalFiles f u in
      NewClaim_onloads totalFiles rest u'
        match batch with Some batch => NewClaim_commit s batch | None => s end
  end.

Definition handleMediaUpload (totalFiles : nat) (loaded : list Upload.file)
    (s : NewClaimState.t) : NewClaimState.t :=
  (NewClaim_onloads totalFiles loaded Upload.start s).2.

(** Among the files whose read has completed, those with a data URL, and
    the photos and the videos among these. *)
Definition with_result (loaded : list Upload.file) : list Upload.file :=
  filter (λ f, Upload.result f ≠ EmptyString) loaded.

Definition photos_of (files : list Upload.file) : list string :=
  map Upload.result (filter (λ f, String.prefix "image/" (Upload.type f) = true) files).

Definition videos_of (files : list Upload.file) : list string :=
  map Upload.result
      (filter (λ f, String.prefix "image/" (Upload.type f) = false ∧
                    String.prefix "video/" (Upload.type f) = true) files).

(** The variables of the closure after the [onload] of a file that has a
    data URL. *)
Definition pushed (f : Upload.file) (u : Upload.t) : Upload.t :=
  Upload.mk
    (if String.prefix "image/" (Upload.type f)
     then Upload.newPhotos u ++ [Upload.result f] else Upload.newPhotos u)
    (if String.prefix "image/" (Upload.type f) then Upload.newVideos u
     else if String.prefix "video/" (Upload.type f)
          then Upload.newVideos u ++ [Upload.result f] else Upload.newVideos u)
    (S (Upload.processedFiles u)).

(** [===] on statuses *)
Global Instance Status_eq_dec : EqDecision Status.
Proof. solve_decision. Defined.

(** ** [EditClaim.tsx]: the effect that fills the page

    The effect runs when [existingClaim] is known.  The form, the media, the
    assessments and the analysis flag are taken from the claim; the
    assessments are all approved when there are some, and the approvals keep
    what the cell held when there are none. *)
Definition EditClaim_init (page : EditClaimPage.t) : EditClaimPage.t :=
  match EditClaimPage.existingClaim page with
  | Some existingClaim =>
      {| EditClaimPage.existingClaim := Some existingClaim;
         EditClaimPage.formData :=
           {| FormData.policyNumber := Claim.policyNumber existingClaim;
              FormData.customerName := Claim.customerName existingClaim;
              FormData.customerEmail := Claim.customerEmail existingClaim;
              FormData.customerPhone := Claim.customerPhone existingClaim;
              FormData.vehicleMake := Claim.vehicleMake existingClaim;
              FormData.vehicleModel := Claim.vehicleModel existingClaim;
              FormData.vehicleYear := Claim.vehicleYear existingClaim;
              FormData.accidentDate := Claim.accidentDate existingClaim;
              FormData.accidentDescription := Claim.accidentDescription existingClaim |};
         EditClaimPage.photos := Claim.photos existingClaim;
         EditClaimPage.videos := Claim.videos existingClaim;
         EditClaimPage.analysisComplete := Claim.aiAnalysisComplete existingClaim;
         EditClaimPage.damageAssessments := Claim.damageAssessments existingClaim;
         EditClaimPage.approvedAssessments :=
           if bool_decide (0 < length (Claim.damageAssessments existingClaim))%nat
           then list_to_set (map DamageAssessment.id (Claim.damageAssessments existingClaim))
           else EditClaimPage.approvedAssessments page |}
  | None => page
  end.

(** The form of a claim, as [EditClaim.tsx] and [handleImportTicket] read it. *)
Definition formData_of (claim : Claim.t) : FormData.t :=
  {| FormData.policyNumber := Claim.policyNumber claim;
     FormData.customerName := Claim.customerName claim;
     FormData.customerEmail := Claim.customerEmail claim;
     FormData.customerPhone := Claim.customerPhone claim;
     FormData.vehicleMake := Claim.vehicleMake claim;
     FormData.vehicleModel := Claim.vehicleModel claim;
     FormData.vehicleYear := Claim.vehicleYear claim;
     FormData.accidentDate := Claim.accidentDate claim;
     FormData.accidentDescription := Claim.accidentDescription claim |}.

(** ** [repairShops.ts] *)

Module RepairShop.
Record t := mk {
  id : string;
  name : string;
  address : string;
  city : string;
  state : string;
  zipCode : string;
  phone : string;
  email : string;
  website : string;
  rating : Q;
  reviewCount : Z;
  specialties : list string;
  certifications : list string;
  distance : Q;
  estimatedWaitTime : string;
  isOpen : bool;
  hours : list (string * string)
}.
End RepairShop.

Definition repairShops : list RepairShop.t :=
  [ {| RepairShop.id := "shop_001";
       RepairShop.name := "Premium Auto Body & Paint";
       RepairShop.address := "123 Main Street";
       RepairShop.city := "Downtown";
       RepairShop.state := "CA";
       RepairShop.zipCode := "90210";
       RepairShop.phone := "(555) 123-4567";
       RepairShop.email := "info@premiumautobody.com";
       RepairShop.website := "www.premiumautobody.com";
       RepairShop.rating := 48 # 10;
       RepairShop.reviewCount := 127;
       RepairShop.specialties := ["Collision Repair"; "Paint & Body"; "Frame Straightening"];
       RepairShop.certifications := ["I-CAR Gold Class"; "ASE Certified"];
       RepairShop.distance := 23 # 10;
       RepairShop.estimatedWaitTime := "3-5 days";
       RepairShop.isOpen := true;
       RepairShop.hours :=
         [("Monday", "8:00 AM - 6:00 PM"); ("Tuesday", "8:00 AM - 6:00 PM");
          ("Wednesday", "8:00 AM - 6:00 PM"); ("Thursday", "8:00 AM - 6:00 PM");
          ("Friday", "8:00 AM - 6:00 PM"); ("Saturday", "9:00 AM - 4:00 PM");
          ("Sunday", "Closed")] |};
    {| RepairShop.id := "shop_002";
       RepairShop.name := "Express Collision Center";
       RepairShop.address := "456 Oak Avenue";
       RepairShop.city := "Midtown";
       RepairShop.state := "CA";
       RepairShop.zipCode := "90211";
       RepairShop.phone := "(555) 987-6543";
       RepairShop.email := "service@expresscollision.com";
       RepairShop.website := "www.expresscollision.com";
       RepairShop.rating := 45 # 10;
       RepairShop.reviewCount := 89;
       RepairShop.specialties := ["Quick Repairs"; "Minor Dents"; "Scratch Removal"];
       RepairShop.certifications := ["I-CAR Silver Class"];
       RepairShop.distance := 41 # 10;
       RepairShop.estimatedWaitTime := "1-2 days";
       RepairShop.isOpen := true;
       RepairShop.hours :=
         [("Monday", "7:00 AM - 7:00 PM"); ("Tuesday", "7:00 AM - 7:00 PM");
          ("Wednesday", "7:00 AM - 7:00 PM"); ("Thursday", "7:00 AM - 7:00 PM");
          ("Friday", "7:00 AM - 7:00 PM"); ("Saturday", "8:00 AM - 5:00 PM");
          ("Sunday", "Closed")] |};
    {| RepairShop.id := "shop_003";
       RepairShop.name := "Classic Car Restoration";
       RepairShop.address := "789 Vintage Lane";
       RepairShop.city := "Historic District";
       RepairShop.state := "CA";
       RepairShop.zipCode := "90212";
       RepairShop.phone := "(555) 456-7890";
       RepairShop.email := "restore@classiccars.com";
       RepairShop.website := "www.classiccars.com";
       RepairShop.rating := 49 # 10;
       RepairShop.reviewCount := 203;
       RepairShop.specialties := ["Classic Restoration"; "Custom Paint"; "Metal Fabrication"];
       RepairShop.certifications := ["I-CAR Gold Class"; "ASE Master Certified"];
       RepairShop.distance := 67 # 10;
       RepairShop.estimatedWaitTime := "2-4 weeks";
       RepairShop.isOpen := false;
       RepairShop.hours :=
         [("Monday", "9:00 AM - 5:00 PM"); ("Tuesday", "9:00 AM - 5:00 PM");
          ("Wednesday", "9:00 AM - 5:00 PM"); ("Thursday", "9:00 AM - 5:00 PM");
          ("Friday", "9:00 AM - 5:00 PM"); ("Saturday", "10:00 AM - 3:00 PM");
          ("Sunday", "Closed")] |};
    {| RepairShop.id := "shop_004";
       RepairShop.name := "Modern Auto Solutions";
       RepairShop.address := "321 Tech Drive";
       RepairShop.city := "Innovation District";
       RepairShop.state := "CA";
       RepairShop.zipCode := "90213";
       RepairShop.phone := "(555) 789-0123";
       RepairShop.email := "contact@modernauto.com";
       RepairShop.website := "www.modernauto.com";
       RepairShop.rating := 46 # 10;
       RepairShop.reviewCount := 156;
       RepairShop.specialties := ["Hybrid/Electric"; "Advanced Diagnostics"; "Computer Systems"];
       RepairShop.certifications := ["I-CAR Gold Class"; "ASE Hybrid/Electric"];
       RepairShop.distance := 38 # 10;
       RepairShop.estimatedWaitTime := "2-3 days";
       RepairShop.isOpen := true;
       RepairShop.hours :=
         [("Monday", "8:00 AM - 6:00 PM"); ("Tuesday", "8:00 AM - 6:00 PM");
          ("Wednesday", "8:00 AM - 6:00 PM"); ("Thursday", "8:00 AM - 6:00 PM");
          ("Friday", "8:00 AM - 6:00 PM"); ("Saturday", "9:00 AM - 4:00 PM");
          ("Sunday", "Closed")] |};
    {| RepairShop.id := "shop_005";
       RepairShop.name := "Quick Fix Auto Body";
       RepairShop.address := "654 Speed Way";
       RepairShop.city := "Fast Lane";
       RepairShop.state := "CA";
       RepairShop.zipCode := "90214";
       RepairShop.phone := "(555) 321-6540";
       RepairShop.email := "quick@quickfixauto.com";
       RepairShop.website := "www.quickfixauto.com";
       RepairShop.rating := 42 # 10;
       RepairShop.reviewCount := 67;
       RepairShop.specialties := ["Same Day Repairs"; "Minor Collisions"; "Paint Touch-ups"];
       RepairShop.certifications := ["I-CAR Silver Class"];
       RepairShop.distance := 19 # 10;
       RepairShop.estimatedWaitTime := "Same day";
       RepairShop.isOpen := true;
       RepairShop.hours :=
         [("Monday", "6:00 AM - 8:00 PM"); ("Tuesday", "6:00 AM - 8:00 PM");
          ("Wednesday", "6:00 AM - 8:00 PM"); ("Thursday", "6:00 AM - 8:00 PM");
          ("Friday", "6:00 AM - 8:00 PM"); ("Saturday", "7:00 AM - 6:00 PM");
          ("Sunday", "8:00 AM - 4:00 PM")] |} ].

(** [repairShops.find(shop => shop.id === id)]; [None] is [undefined]. *)
Definition getRepairShopById (id : string) : option RepairShop.t :=
  find (λ shop, bool_decide (RepairShop.id shop = id)) repairShops.

(** [a || b] on values that are objects or [undefined]. *)
Definition or_else {A} (a b : option A) : option A :=
  match a with
  | Some _ => a
  | None => b
  end.

(** ** Numbers with a fraction

    A finite JS [number] is a rational; [Math.floor], [Math.ceil] and [% 1]
    are exact on it.  [NaN] and the infinities are left out. *)

(** [Math.trunc], which [%] rounds the quotient with. *)
Definition Qtruncate (x : Q) : Z :=
  if Qle_bool 0 x then Qfloor x else Qceiling x.

(** [x % 1] *)
Definition Qrem1 (x : Q) : Q := (x - inject_Z (Qtruncate x))%Q.

(** ** [ClaimDetails.tsx] *)

Module ClaimDetails.

(** [getCurrentRepairShop], for the claim the page shows. *)
Definition getCurrentRepairShop (claim : Claim.t) : option RepairShop.t :=
  match Claim.repairShopId claim with
  | Some repairShopId =>
      if falsy_string repairShopId then repairShops !! 0%nat
      else or_else (getRepairShopById repairShopId) (repairShops !! 0%nat)
  | None => repairShops !! 0%nat
  end.

(** [getRatingStars]: five stars, of which the [i]th is yellow when
    [i < Math.floor(rating)]. *)
Definition getRatingStars (rating : Q) : list bool :=
  map (λ i, bool_decide (Z.of_nat i < Qfloor rating)) (seq 0 5).

Section Handlers.
Context (P : Platform).

(** [handleRepairShopChange] *)
Definition handleRepairShopChange (claim : Claim.t) (shopId : string) : JS unit :=
  try_catch
    (updateClaim P (Claim.id claim)
       {| PartialClaim.id := None;
          PartialClaim.policyNumber := None;
          PartialClaim.customerName := None;
          PartialClaim.customerEmail := None;
          PartialClaim.customerPhone := None;
          PartialClaim.vehicleMake := None;
          PartialClaim.vehicleModel := None;
          PartialClaim.vehicleYear := None;
          PartialClaim.accidentDate := None;
          PartialClaim.accidentDescription := None;
          PartialClaim.photos := None;
          PartialClaim.videos := None;
          PartialClaim.status := None;
          PartialClaim.damageAssessments := None;
          PartialClaim.totalEstimatedCost := None;
          PartialClaim.repairShopId := Some (Some shopId);
          PartialClaim.createdAt := None;
          PartialClaim.updatedAt := None;
          PartialClaim.aiAnalysisComplete := None;
          PartialClaim.processingTime := None |})
    (λ error, console_error "Error updating repair shop:").

End Handlers.

End ClaimDetails.

(** ** The [RepairShops] component *)

Module RepairShops.

Inductive Star := star_full | star_half | star_empty.

(** [getRatingStars]: the full stars, a star of key [half] when the rating
    has a fraction, the empty stars. *)
Definition getRatingStars (rating : Q) : list Star :=
  let fullStars := Qfloor rating in
  let hasHalfStar := negb (Qeq_bool (Qrem1 rating) 0) in
  let emptyStars := 5 - Qceiling rating in
  (replicate (Z.to_nat fullStars) star_full
   ++ (if hasHalfStar then [star_half] else [])
   ++ replicate (Z.to_nat emptyStars) star_empty)%list.

(** The stars drawn in yellow: the full ones and the half one. *)
Definition yellow (star : Star) : bool :=
  match star with
  | star_full | star_half => true
  | star_empty => false
  end.

(** [featuredShop] *)
Definition featuredShop (featuredShopId : string) : option RepairShop.t :=
  or_else (find (λ shop, bool_decide (RepairShop.id shop = featuredShopId)) repairShops)
          (repairShops !! 0%nat).

End RepairShops.

(** ** The [ClaimsApproval] component

    [selectedClaims] is a [Set<string>] that [forEach] walks: it is kept
    here as the list of its members in the order in which they were added. *)

Module JSSet.

Definition t : Type := list string.

Definition has (x : string) (s : t) : bool := bool_decide (x ∈ s).

Definition add (x : string) (s : t) : t := if has x s then s else (s ++ [x])%list.

Definition delete (x : string) (s : t) : t := filter (λ y, y ≠ x) s.

(** [new Set(items)] *)
Definition of_list (items : list string) : t := foldl (λ s x, add x s) [] items.

Definition size (s : t) : nat := length s.

End JSSet.

(** [items.forEach(body)] *)
Fixpoint forEach {A} (body : A → JS unit) (items : list A) : JS unit :=
  match items with
  | [] => mret tt
  | item :: rest => body item;; forEach body rest
  end.

Module ClaimsApproval.

Inductive BulkAction := approve | reject.

Definition handleSelectClaim (selectedClaims : JSSet.t) (claimId : string) : JSSet.t :=
  if JSSet.has claimId selectedClaims
  then JSSet.delete claimId selectedClaims
  else JSSet.add claimId selectedClaims.

Definition handleSelectAll (selectedClaims : JSSet.t) (filteredClaims : list Claim.t)
    : JSSet.t :=
  if bool_decide (JSSet.size selectedClaims = length filteredClaims)
  then []
  else JSSet.of_list (map Claim.id filteredClaims).

Definition bulk_status (action : BulkAction) : Status :=
  match action with
  | approve => approved
  | reject => rejected
  end.

(** The patch [{ status: ..., updatedAt: ... }] of [handleBulkAction]. *)
Definition bulk_patch (action : BulkAction) (updatedAt : Z) : PartialClaim.t :=
  {| PartialClaim.id := None;
     PartialClaim.policyNumber := None;
     PartialClaim.customerName := None;
     PartialClaim.customerEmail := None;
     PartialClaim.customerPhone := None;
     PartialClaim.vehicleMake := None;
     PartialClaim.vehicleModel := None;
     PartialClaim.vehicleYear := None;
     PartialClaim.accidentDate := None;
     PartialClaim.accidentDescription := None;
     PartialClaim.photos := None;
     PartialClaim.videos := None;
     PartialClaim.status := Some (bulk_status action);
     PartialClaim.damageAssessments := None;
     PartialClaim.totalEstimatedCost := None;
     PartialClaim.repairShopId := None;
     PartialClaim.createdAt := None;
     PartialClaim.updatedAt := Some updatedAt;
     PartialClaim.aiAnalysisComplete := None;
     PartialClaim.processingTime := None |}.

Section Handlers.
Context (P : Platform).

(** [handleBulkAction]; the result is the new value of [selectedClaims].
    [forEach] builds one patch for each selected id, reading the clock for
    its [updatedAt], and dispatches it.  React runs the reducers of these
    dispatches afterwards, on the next render and in their order: each of
    them reads the clock then, after every reading of the handler. *)
Definition handleBulkAction (selectedClaims : JSSet.t) (action : BulkAction)
    : JS JSSet.t :=
  dispatched ← mapM (λ claimId,
                       updatedAt ← new_Date_toISOString P;
                       mret (claimId, bulk_patch action updatedAt))
                    selectedClaims;
  forEach (λ update, updateClaim P update.1 update.2) dispatched;;
  mret [].

End Handlers.

(** The statistics above the table, from [filteredClaims]. *)
Definition pendingClaims (filteredClaims : list Claim.t) : list Claim.t :=
  filter (λ claim, Claim.status claim = pending) filteredClaims.

Definition processingClaims (filteredClaims : list Claim.t) : list Claim.t :=
  filter (λ claim, Claim.status claim = processing) filteredClaims.

End ClaimsApproval.

(** ** The dashboard *)

Module Dashboard.

Definition totalClaims (state : ClaimsState.t) : nat :=
  length (ClaimsState.claims state).

Definition pendingClaims (state : ClaimsState.t) : nat :=
  length (filter (λ claim, Claim.status claim = pending) (ClaimsState.claims state)).

Definition processingClaims (state : ClaimsState.t) : nat :=
  length (filter (λ claim, Claim.status claim = processing) (ClaimsState.claims state)).

Definition approvedClaims (state : ClaimsState.t) : nat :=
  length (filter (λ claim, Claim.status claim = approved) (ClaimsState.claims state)).

(** [state.claims.reduce((sum, claim) => sum + claim.totalEstimatedCost, 0)] *)
Definition totalValue (state : ClaimsState.t) : Z :=
  fold_left (λ sum claim, sum + Claim.totalEstimatedCost claim) (ClaimsState.claims state) 0.

(** [state.claims.slice(0, 5)] *)
Definition recentClaims (state : ClaimsState.t) : list Claim.t :=
  take 5 (ClaimsState.claims state).

End Dashboard.

(** The claims of a table that are rejected, which the dashboard has no
    counter for. *)
Definition rejected_claims (claims : list Claim.t) : list Claim.t :=
  filter (λ claim, Claim.status claim = rejected) claims.

(** [{ ...claim, status, processingTime }] *)
Definition with_status (claim : Claim.t) (status : Status) (processingTime : option Z)
    : Claim.t :=
  {| Claim.id := Claim.id claim;
     Claim.policyNumber := Claim.policyNumber claim;
     Claim.customerName := Claim.customerName claim;
     Claim.customerEmail := Claim.customerEmail claim;
     Claim.customerPhone := Claim.customerPhone claim;
     Claim.vehicleMake := Claim.vehicleMake claim;
     Claim.vehicleModel := Claim.vehicleModel claim;
     Claim.vehicleYear := Claim.vehicleYear claim;
     Claim.accidentDate := Claim.accidentDate claim;
     Claim.accidentDescription := Claim.accidentDescription claim;
     Claim.photos := Claim.photos claim;
     Claim.videos := Claim.videos claim;
     Claim.status := status;
     Claim.damageAssessments := Claim.damageAssessments claim;
     Claim.totalEstimatedCost := Claim.totalEstimatedCost claim;
     Claim.repairShopId := Claim.repairShopId claim;
     Claim.createdAt := Claim.createdAt claim;
     Claim.updatedAt := Claim.updatedAt claim;
     Claim.aiAnalysisComplete := Claim.aiAnalysisComplete claim;
     Claim.processingTime := processingTime |}.

(** [{ ...claim, totalEstimatedCost }] *)
Definition with_totalEstimatedCost (claim : Claim.t) (totalEstimatedCost : Z) : Claim.t :=
  {| Claim.id := Claim.id claim;
     Claim.policyNumber := Claim.policyNumber claim;
     Claim.customerName := Claim.customerName claim;
     Claim.customerEmail := Claim.customerEmail claim;
     Claim.customerPhone := Claim.customerPhone claim;
     Claim.vehicleMake := Claim.vehicleMake claim;
     Claim.vehicleModel := Claim.vehicleModel claim;
     Claim.vehicleYear := Claim.vehicleYear claim;
     Claim.accidentDate := Claim.accidentDate claim;
     Claim.accidentDescription := Claim.accidentDescription claim;
     Claim.photos := Claim.photos claim;
     Claim.videos := Claim.videos claim;
     Claim.status := Claim.status claim;
     Claim.damageAssessments := Claim.damageAssessments claim;
     Claim.totalEstimatedCost := totalEstimatedCost;
     Claim.repairShopId := Claim.repairShopId claim;
     Claim.createdAt := Claim.createdAt claim;
     Claim.updatedAt := Claim.updatedAt claim;
     Claim.aiAnalysisComplete := Claim.aiAnalysisComplete claim;
     Claim.processingTime := Claim.processingTime claim |}.

(** [{ ...claim, repairShopId }] *)
Definition with_repairShopId (claim : Claim.t) (repairShopId : string) : Claim.t :=
  {| Claim.id := Claim.id claim;
     Claim.policyNumber := Claim.policyNumber claim;
     Claim.customerName := Claim.customerName claim;
     Claim.customerEmail := Claim.customerEmail claim;
     Claim.customerPhone := Claim.customerPhone claim;
     Claim.vehicleMake := Claim.vehicleMake claim;
     Claim.vehicleModel := Claim.vehicleModel claim;
     Claim.vehicleYear := Claim.vehicleYear claim;
     Claim.accidentDate := Claim.accidentDate claim;
     Claim.accidentDescription := Claim.accidentDescription claim;
     Claim.photos := Claim.photos claim;
     Claim.videos := Claim.videos claim;
     Claim.status := Claim.status claim;
     Claim.damageAssessments := Claim.damageAssessments claim;
     Claim.totalEstimatedCost := Claim.totalEstimatedCost claim;
     Claim.repairShopId := Some repairShopId;
     Claim.createdAt := Claim.createdAt claim;
     Claim.updatedAt := Claim.updatedAt claim;
     Claim.aiAnalysisComplete := Claim.aiAnalysisComplete claim;
     Claim.processingTime := Claim.processingTime claim |}.

(** [claim.processingTime || 3] *)
Definition processingTime_or_3 (claim : Claim.t) : Z :=
  match Claim.processingTime claim with
  | Some n => if Z.eqb n 0 then 3 else n
  | None => 3
  end.

(** ** [simulateAIAnalysis] *)

(** The template literal [`damage_${stamp}_${suffix}_${n}`]. *)
Definition damage_id (stamp : Z) (suffix n : string) : string :=
  "damage_" +:+ Number_toString stamp +:+ "_" +:+ suffix +:+ "_" +:+ n.

Section Analysis.
Context (P : Platform).

(** [simulateAIAnalysis] of [NewClaim.tsx], from the end of its wait: the
    three mock assessments replace those of the page and are all approved. *)
Definition simulateAIAnalysis (s : NewClaimState.t) : JS NewClaimState.t :=
  stamp1 ← Date_now P;
  suffix1 ← Math_random_suffix P;
  stamp2 ← Date_now P;
  suffix2 ← Math_random_suffix P;
  stamp3 ← Date_now P;
  suffix3 ← Math_random_suffix P;
  let mockAssessments :=
    [ {| DamageAssessment.id := damage_id stamp1 suffix1 "1";
         DamageAssessment.type := dent;
         DamageAssessment.severity := moderate;
         DamageAssessment.location := "Front bumper";
         DamageAssessment.estimatedCost := 850;
         DamageAssessment.confidence := 92 # 100 |};
      {| DamageAssessment.id := damage_id stamp2 suffix2 "2";
         DamageAssessment.type := scratch;
         DamageAssessment.severity := minor;
         DamageAssessment.location := "Driver side door";
         DamageAssessment.estimatedCost := 320;
         DamageAssessment.confidence := 88 # 100 |};
      {| DamageAssessment.id := damage_id stamp3 suffix3 "3";
         DamageAssessment.type := paint;
         DamageAssessment.severity := minor;
         DamageAssessment.location := "Hood";
         DamageAssessment.estimatedCost := 450;
         DamageAssessment.confidence := 85 # 100 |} ] in
  let page := NewClaimState.page s in
  mret {| NewClaimState.page :=
            {| NewClaimPage.formData := NewClaimPage.formData page;
               NewClaimPage.photos := NewClaimPage.photos page;
               NewClaimPage.videos := NewClaimPage.videos page;
               NewClaimPage.isAnalyzing := false;
               NewClaimPage.analysisComplete := true;
               NewClaimPage.damageAssessments := mockAssessments;
               NewClaimPage.approvedAssessments :=
                 list_to_set (map DamageAssessment.id mockAssessments) |};
          NewClaimState.currentStep := NewClaimState.currentStep s;
          NewClaimState.lastSaved := NewClaimState.lastSaved s;
          NewClaimState.hasUnsavedChanges := NewClaimState.hasUnsavedChanges s;
          NewClaimState.hasSavedProgress := NewClaimState.hasSavedProgress s |}.

End Analysis.

(** The last character of a string. *)
Fixpoint last_char (s : string) : option ascii :=
  match s with
  | EmptyString => None
  | String c EmptyString => Some c
  | String _ rest => last_char rest
  end.

(** ** More conditions on the clock and on the operations *)

(** The clock advances between any two readings. *)
Definition strictly_increasing (P : Platform) : Prop :=
  ∀ n m : nat, (n < m)%nat → clock P n < clock P m.

(** Operations whose patch, if any, has no [id] key. *)
Definition keeps_id (op : StoreOp) : Prop :=
  match op with
  | OpUpdateClaim _ updates => PartialClaim.id updates = None
  | _ => True
  end.

(** A list of instants that never increases: most recent first. *)
Definition most_recent_first (instants : list Z) : Prop :=
  ∀ (i j : nat) (earlier later : Z),
    (i ≤ j)%nat → instants !! i = Some later → instants !! j = Some earlier →
    earlier ≤ later.

(** Every id of the table was built from a reading of the clock already
    made, and no two claims share an id. *)
Definition ids_ok (P : Platform) (w : World.t) : Prop :=
  NoDup (map Claim.id (ClaimsState.claims (World.state w))) ∧
  Forall (λ id, ∃ k suffix, (k < World.clock_reads w)%nat ∧ id = claim_id (clock P k) suffix)
         (map Claim.id (ClaimsState.claims (World.state w))).

(** The claims are listed most recent first, and none was created after
    the next reading of the clock. *)
Definition order_ok (P : Platform) (w : World.t) : Prop :=
  most_recent_first (map Claim.createdAt (ClaimsState.claims (World.state w))) ∧
  Forall (λ created, created ≤ clock P (World.clock_reads w))
         (map Claim.createdAt (ClaimsState.claims (World.state w))).

(** A browser whose [localStorage] holds at most [quota] characters, keys
    and values together. *)
Module Quota.

Definition used (storage : gmap string string) : nat :=
  map_fold (λ key value total, (String.length key + String.length value + total)%nat)
           0%nat storage.

Definition browser (quota : nat) : Platform :=
  {| clock := clock Demo.browser;
     random_suffix := random_suffix Demo.browser;
     JSON_stringify_claims := JSON_stringify_claims Demo.browser;
     JSON_parse_claims := JSON_parse_claims Demo.browser;
     JSON_stringify_inProgress := JSON_stringify_inProgress Demo.browser;
     JSON_parse_inProgress := JSON_parse_inProgress Demo.browser;
     localStorage_accepts := λ storage key value,
       bool_decide (used (<[key := value]> storage) ≤ quota)%nat |}.

End Quota.

(** ** More sample data *)

Module Case.

(** What [save()] writes for the tables of [Sample.world]. *)
Definition claims_text : string :=
  JSON_stringify_claims Demo.browser (ClaimsState.claims (World.state Sample.world)).

Definition drafts_text : string :=
  JSON_stringify_inProgress Demo.browser
    (map toStorage (ClaimsState.inProgressClaims (World.state Sample.world))).

(** Corrupt claims beside well-formed drafts, and the converse. *)
Definition corrupt_claims : gmap string string :=
  {[ KEY_CLAIMS := "[{not json"; KEY_IN_PROGRESS := drafts_text ]}.

Definition corrupt_drafts : gmap string string :=
  {[ KEY_CLAIMS := claims_text; KEY_IN_PROGRESS := "[{not json" ]}.

(** An empty text under the key of the claims, and texts that are JSON of
    another shape than a table. *)
Definition empty_claims : gmap string string :=
  {[ KEY_CLAIMS := EmptyString; KEY_IN_PROGRESS := drafts_text ]}.

Definition object_for_claims : gmap string string :=
  {[ KEY_CLAIMS := "{}"; KEY_IN_PROGRESS := drafts_text ]}.

Definition object_for_drafts : gmap string string :=
  {[ KEY_CLAIMS := claims_text; KEY_IN_PROGRESS := "{}" ]}.

(** A form with the policy number left empty. *)
Definition form_without_policy : FormData.t :=
  {| FormData.policyNumber := EmptyString;
     FormData.customerName := "A";
     FormData.customerEmail := "a@example.com";
     FormData.customerPhone := "(555) 123-4567";
     FormData.vehicleMake := "Toyota";
     FormData.vehicleModel := "Camry";
     FormData.vehicleYear := 2022;
     FormData.accidentDate := "2024-01-15";
     FormData.accidentDescription := "Rear-end collision at traffic light." |}.

(** A selection of three files, all read: a photo, a video and a document. *)
Definition selection : list Upload.file :=
  [Upload.mk_file "video/mp4" "data:video/mp4;base64,AAAA";
   Upload.mk_file "image/png" "data:image/png;base64,iVBORw0KGgo=";
   Upload.mk_file "application/pdf" "data:application/pdf;base64,JVBERi0="].

(** The page of a new claim at its second step, with one photo. *)
Definition uploading : NewClaimState.t :=
  {| NewClaimState.page :=
       {| NewClaimPage.formData := Sample.formData;
          NewClaimPage.photos := ["data:image/png;base64,AAAA"];
          NewClaimPage.videos := [];
          NewClaimPage.isAnalyzing := false;
          NewClaimPage.analysisComplete := false;
          NewClaimPage.damageAssessments := [];
          NewClaimPage.approvedAssessments := ∅ |};
     NewClaimState.currentStep := 2;
     NewClaimState.lastSaved := None;
     NewClaimState.hasUnsavedChanges := false;
     NewClaimState.hasSavedProgress := false |}.

(** A page that holds other tables than the ones in its [localStorage]. *)
Definition stale_page : World.t :=
  {| World.state :=
       {| ClaimsState.claims := [];
          ClaimsState.inProgressClaims := [Sample.draft'];
          ClaimsState.loading := true;
          ClaimsState.error := Some "offline" |};
     World.localStorage :=
       {[ KEY_CLAIMS := claims_text; KEY_IN_PROGRESS := drafts_text ]};
     World.console := [];
     World.clock_reads := 7;
     World.random_draws := 2 |}.

End Case.

(** * Properties *)

(** ** Running the reducer *)

Lemma world_eta (w : World.t) :
  World.mk (World.state w) (World.localStorage w) (World.console w)
           (World.clock_reads w) (World.random_draws w) = w.
Proof. by destruct w. Qed.

Lemma state_eta (st : ClaimsState.t) :
  ClaimsState.mk (ClaimsState.claims st) (ClaimsState.inProgressClaims st)
                 (ClaimsState.loading st) (ClaimsState.error st) = st.
Proof. by destruct st. Qed.

Lemma bind_run {A B} (m : JS A) (f : A → JS B) w :
  (m ≫= f) w =
  match m w with
  | (Normal a, w') => f a w'
  | (Throw e, w') => (Throw e, w')
  end.
Proof. reflexivity. Qed.

Lemma update_claim_run P id updates claim w :
  update_claim P id updates claim w =
  if bool_decide (Claim.id claim = id)
  then (Normal (with_updatedAt (spread claim updates) (clock P (World.clock_reads w))),
        World.mk (World.state w) (World.localStorage w) (World.console w)
                 (S (World.clock_reads w)) (World.random_draws w))
  else (Normal claim, w).
Proof. unfold update_claim. by destruct (bool_decide _). Qed.

Lemma mapM_update_claim P id updates claims w :
  mapM (update_claim P id updates) claims w =
  (Normal (updated_claims P id updates (World.clock_reads w) claims),
   World.mk (World.state w) (World.localStorage w) (World.console w)
            (matches id claims + World.clock_reads w) (World.random_draws w)).
Proof.
  revert w. induction claims as [|claim rest IH]; intros w.
  - simpl. by rewrite world_eta.
  - change (mapM (update_claim P id updates) (claim :: rest))
      with (y ← update_claim P id updates claim;
            k ← mapM (update_claim P id updates) rest; mret (y :: k)).
    rewrite bind_run, update_claim_run. cbn [updated_claims matches].
    destruct (bool_decide (Claim.id claim = id)).
    + rewrite bind_run, IH. cbn. do 3 f_equal. lia.
    + rewrite bind_run, IH. reflexivity.
Qed.

Lemma updateClaim_run P id updates w :
  updateClaim P id updates w =
  (Normal tt,
   World.mk
     (ClaimsState.mk
        (updated_claims P id updates (World.clock_reads w)
                        (ClaimsState.claims (World.state w)))
        (ClaimsState.inProgressClaims (World.state w))
        (ClaimsState.loading (World.state w))
        (ClaimsState.error (World.state w)))
     (World.localStorage w) (World.console w)
     (matches id (ClaimsState.claims (World.state w)) + World.clock_reads w)
     (World.random_draws w)).
Proof.
  unfold updateClaim, dispatch, claimsReducer.
  rewrite bind_run. cbn [get_state]. rewrite !bind_run, mapM_update_claim.
  reflexivity.
Qed.

Lemma updated_claims_absent P id updates n claims :
  Forall (λ claim, Claim.id claim ≠ id) claims →
  updated_claims P id updates n claims = claims ∧ matches id claims = 0%nat.
Proof.
  induction 1 as [|claim rest Hne _ [IH1 IH2]]; [done|].
  cbn. rewrite bool_decide_eq_false_2 by done. by rewrite IH1, IH2.
Qed.

Lemma updated_claims_length P id updates n claims :
  length (updated_claims P id updates n claims) = length claims.
Proof.
  revert n. induction claims as [|claim rest IH]; intros n; [done|].
  cbn. destruct (bool_decide _); cbn; by rewrite IH.
Qed.

Lemma updated_claims_lookup P id updates n claims i claim :
  claims !! i = Some claim →
  updated_claims P id updates n claims !! i =
  Some (if bool_decide (Claim.id claim = id)
        then with_updatedAt (spread claim updates)
                            (clock P (matches id (take i claims) + n))
        else claim).
Proof.
  revert n i. induction claims as [|c rest IH]; intros n i; [done|].
  destruct i as [|i]; simpl.
  - intros [= ->]. by destruct (bool_decide _).
  - intros Hi. destruct (bool_decide (Claim.id c = id)); simpl.
    + rewrite (IH (S n) i Hi). destruct (bool_decide _); [|done].
      do 3 f_equal. lia.
    + by rewrite (IH n i Hi).
Qed.

Lemma matches_take_lt id claims i claim :
  claims !! i = Some claim → Claim.id claim = id →
  (matches id (take i claims) < matches id claims)%nat.
Proof.
  revert i. induction claims as [|c rest IH]; intros i; [done|].
  destruct i as [|i]; simpl.
  - intros [= ->] Hid. rewrite bool_decide_eq_true_2 by done. lia.
  - intros Hi Hid. specialize (IH i Hi Hid). destruct (bool_decide _); lia.
Qed.
Lemma addClaim_run P claimData w :
  addClaim P claimData w =
  (Normal tt,
   World.mk
     (ClaimsState.mk
        (newClaim_of claimData
           (claim_id (clock P (World.clock_reads w))
                     (random_suffix P (World.random_draws w)))
           (clock P (S (World.clock_reads w)))
           (clock P (S (S (World.clock_reads w))))
         :: ClaimsState.claims (World.state w))
        (ClaimsState.inProgressClaims (World.state w))
        (ClaimsState.loading (World.state w))
        (ClaimsState.error (World.state w)))
     (World.localStorage w)
     (World.console w ++ [console_log_entry "ClaimsContext - Generated claim ID:";
                          console_log_entry "ClaimsContext - Adding claim:"])
     (S (S (S (World.clock_reads w))))
     (S (World.random_draws w))).
Proof. unfold addClaim, dispatch, mbind, JS_bind. cbn. by rewrite <- app_assoc. Qed.

Lemma saveInProgressClaim_run P draft w :
  saveInProgressClaim P draft w =
  (Normal tt,
   World.mk
     (ClaimsState.mk
        (ClaimsState.claims (World.state w))
        (filter (λ claim, InProgressClaim.id claim ≠ InProgressClaim.id draft)
                (ClaimsState.inProgressClaims (World.state w)) ++ [draft])
        (ClaimsState.loading (World.state w))
        (ClaimsState.error (World.state w)))
     (World.localStorage w) (World.console w)
     (World.clock_reads w) (World.random_draws w)).
Proof. reflexivity. Qed.

Lemma deleteInProgressClaim_run P id w :
  deleteInProgressClaim P id w =
  (Normal tt,
   World.mk
     (ClaimsState.mk
        (ClaimsState.claims (World.state w))
        (filter (λ claim, InProgressClaim.id claim ≠ id)
                (ClaimsState.inProgressClaims (World.state w)))
        (ClaimsState.loading (World.state w))
        (ClaimsState.error (World.state w)))
     (World.localStorage w) (World.console w)
     (World.clock_reads w) (World.random_draws w)).
Proof. reflexivity. Qed.

Lemma getClaim_state id w : World.state (getClaim id w).2 = World.state w.
Proof. reflexivity. Qed.

Lemma getInProgressClaim_run id w :
  getInProgressClaim id w =
  (Normal (List.find (λ claim, bool_decide (InProgressClaim.id claim = id))
                     (ClaimsState.inProgressClaims (World.state w))), w).
Proof. reflexivity. Qed.
(** ** Identifiers *)

Lemma occurs_uint d : occurs "_" (NilEmpty.string_of_uint d) = false.
Proof. induction d; cbn; auto. Qed.

Lemma occurs_Number_toString z : occurs "_" (Number_toString z) = false.
Proof.
  unfold Number_toString. destruct (Z.to_int z) as [d|d]; cbn.
  - destruct d; try apply (occurs_uint (_ _)); reflexivity.
  - destruct d; try apply (occurs_uint (_ _)); reflexivity.
Qed.

Lemma Number_toString_inj z z' : Number_toString z = Number_toString z' → z = z'.
Proof.
  unfold Number_toString. intros H. apply DecimalZ.to_int_inj.
  assert (Hnn : ∀ x, Z.to_int x ≠ Decimal.Pos Decimal.Nil ∧ Z.to_int x ≠ Decimal.Neg Decimal.Nil).
  { intros [|p|p]; cbn; split; try discriminate;
      intros [= Hp]; by apply (DecimalPos.Unsigned.to_uint_nonnil p). }
  assert (Some (Z.to_int z) = Some (Z.to_int z')) as [= ->]; [|done].
  rewrite <- (NilZero.isi (Z.to_int z)), <- (NilZero.isi (Z.to_int z')), H;
    try apply Hnn. done.
Qed.

Lemma append_underscore_inj s s' r r' :
  occurs "_" s = false → occurs "_" s' = false →
  s +:+ String "_" r = s' +:+ String "_" r' → s = s' ∧ r = r'.
Proof.
  revert s'. induction s as [|c s IH]; intros [|c' s'].
  - intros _ _ [= ->]. done.
  - intros _ Hc' [= <- _]. discriminate.
  - intros Hc _ [= -> _]. discriminate.
  - intros [_ Hs]%orb_false_elim [_ Hs']%orb_false_elim [= -> Heq].
    destruct (IH s' Hs Hs' Heq) as [-> ->]. done.
Qed.

Lemma claim_id_inj stamp suffix stamp' suffix' :
  claim_id stamp suffix = claim_id stamp' suffix' → stamp = stamp' ∧ suffix = suffix'.
Proof.
  unfold claim_id. intros [= H].
  change (Number_toString stamp +:+ String "_" suffix =
          Number_toString stamp' +:+ String "_" suffix') in H.
  apply append_underscore_inj in H as [H ->]; try apply occurs_Number_toString.
  by apply Number_toString_inj in H as ->.
Qed.
(** ** Adding a claim *)

(** C3, as amended.  For every field set passed to [addClaim], the call
    completes normally and prepends one claim: the table grows by one, the
    new claim sits at index 0 and the claims that were there follow it,
    unmodified.  The new claim has the non-empty id
    [claim_<clock reading>_<random suffix>], which differs from every id
    built from another (clock reading, suffix) pair; its status is the status
    the caller passed; [createdAt] and [updatedAt] are the next two readings
    of the clock, hence [createdAt <= updatedAt] when the clock never goes
    back, with equality when it does not advance between the two. *)
Theorem addClaim_postcondition P w claimData :
  let stamp := clock P (World.clock_reads w) in
  let suffix := random_suffix P (World.random_draws w) in
  let claims := ClaimsState.claims (World.state w) in
  let claims' := ClaimsState.claims (World.state (addClaim P claimData w).2) in
  (addClaim P claimData w).1 = Normal tt ∧
  ∃ claim,
    claims' = claim :: claims ∧
    claims' !! 0%nat = Some claim ∧
    length claims' = S (length claims) ∧
    (∀ i, claims' !! S i = claims !! i) ∧
    Claim.id claim = claim_id stamp suffix ∧
    Claim.id claim ≠ EmptyString ∧
    (∀ stamp' suffix',
       claim_id stamp' suffix' = Claim.id claim → stamp' = stamp ∧ suffix' = suffix) ∧
    Claim.status claim = ClaimData.status claimData ∧
    Claim.createdAt claim = clock P (S (World.clock_reads w)) ∧
    Claim.updatedAt claim = clock P (S (S (World.clock_reads w))) ∧
    (monotone P → Claim.createdAt claim ≤ Claim.updatedAt claim) ∧
    (clock P (S (World.clock_reads w)) = clock P (S (S (World.clock_reads w))) →
     Claim.createdAt claim = Claim.updatedAt claim).
Proof.
  rewrite addClaim_run. cbn. split; [done|].
  eexists. split; [reflexivity|]. cbn.
  split_and!; try done.
  - intros stamp' suffix' H. by apply claim_id_inj in H.
  - intros Hmono. apply Hmono. lia.
Qed.

Lemma addClaim_postcondition_witness :
  (monotone Demo.browser ∧
   ∃ claim,
     ClaimsState.claims (World.state (addClaim Demo.browser (Sample.claimData pending)
                                               Sample.world).2) !! 0%nat = Some claim ∧
     Claim.createdAt claim ≤ Claim.updatedAt claim) ∧
  (clock Demo.within_a_millisecond 1 = clock Demo.within_a_millisecond 2 ∧
   ∃ claim,
     ClaimsState.claims (World.state (addClaim Demo.within_a_millisecond
                                               (Sample.claimData pending)
                                               Sample.world).2) !! 0%nat = Some claim ∧
     Claim.createdAt claim = Claim.updatedAt claim).
Proof.
  assert (Hmono : monotone Demo.browser) by (intros n m Hnm; cbn; lia).
  split.
  - split; [exact Hmono|].
    destruct (addClaim_postcondition Demo.browser Sample.world (Sample.claimData pending))
      as (_ & claim & _ & H0 & _ & _ & _ & _ & _ & _ & _ & _ & Hle & _).
    exists claim. split; [exact H0 | exact (Hle Hmono)].
  - split; [reflexivity|].
    destruct (addClaim_postcondition Demo.within_a_millisecond Sample.world
                                     (Sample.claimData pending))
      as (_ & claim & _ & H0 & _ & _ & _ & _ & _ & _ & _ & _ & _ & Heq).
    exists claim. split; [exact H0 | exact (Heq eq_refl)].
Defined.

(** C3, as stated, fails: [addClaim] stores the status it is given, here
    [approved]; with a clock that ticks between the two [new Date()] the two
    timestamps differ; and two calls within one millisecond that draw the
    same digits get the same id. *)
Lemma addClaim_counterexample :
  match ClaimsState.claims
          (World.state (addClaim Demo.browser (Sample.claimData approved)
                                 (fresh_process ∅)).2) with
  | [claim] =>
      Claim.status claim ≠ pending ∧ Claim.createdAt claim ≠ Claim.updatedAt claim
  | _ => False
  end ∧
  match ClaimsState.claims
          (World.state (run_ops Demo.within_a_millisecond
                                [OpAddClaim (Sample.claimData pending);
                                 OpAddClaim (Sample.claimData pending)]
                                (fresh_process ∅)).2) with
  | [second; first] => Claim.id second = Claim.id first
  | _ => False
  end.
Proof. vm_compute. split; [split; discriminate | reflexivity]. Qed.

(** ** Updating a claim that is not there *)

(** C8.  When no claim of the table has the id, [updateClaim(id, patch)]
    completes normally, returns nothing, and leaves the world as it was: the
    claims table, the drafts, the console and the clock alike. *)
Theorem updateClaim_missing_id_noop P w id updates :
  Forall (λ claim, Claim.id claim ≠ id) (ClaimsState.claims (World.state w)) →
  updateClaim P id updates w = (Normal tt, w).
Proof.
  intros Habsent. rewrite updateClaim_run.
  destruct (updated_claims_absent P id updates (World.clock_reads w) _ Habsent)
    as [-> ->].
  cbn. by rewrite state_eta, world_eta.
Qed.

Lemma updateClaim_missing_id_noop_witness :
  Forall (λ claim, Claim.id claim ≠ "missing-id")
         (ClaimsState.claims (World.state Sample.world)) ∧
  updateClaim Demo.browser "missing-id" PartialClaim.empty Sample.world
  = (Normal tt, Sample.world).
Proof.
  assert (H : Forall (λ claim, Claim.id claim ≠ "missing-id")
                     (ClaimsState.claims (World.state Sample.world))).
  { apply Forall_cons. split; [discriminate | apply Forall_nil_2]. }
  split; [exact H|].
  exact (updateClaim_missing_id_noop Demo.browser Sample.world "missing-id"
                                     PartialClaim.empty H).
Defined.

(** The scenario of the specification: on an empty table the table remains
    empty. *)
Example updateClaim_missing_id_empty_table P updates :
  updateClaim P "missing-id" updates (fresh_process ∅) = (Normal tt, fresh_process ∅).
Proof. reflexivity. Qed.

(** ** Each operation keeps to its table *)

(** C10.  [addClaim] and [updateClaim] leave the drafts as they were,
    [saveInProgressClaim] and [deleteInProgressClaim] leave the claims as
    they were, the two reads leave the whole state as it was, and none of
    the six touches [loading] or [error]. *)
Theorem store_operations_frame P op w :
  let state := World.state w in
  let state' := World.state (run_op P op w).2 in
  ClaimsState.loading state' = ClaimsState.loading state ∧
  ClaimsState.error state' = ClaimsState.error state ∧
  match op with
  | OpAddClaim _ | OpUpdateClaim _ _ =>
      ClaimsState.inProgressClaims state' = ClaimsState.inProgressClaims state
  | OpSaveInProgressClaim _ | OpDeleteInProgressClaim _ =>
      ClaimsState.claims state' = ClaimsState.claims state
  | OpGetClaim _ | OpGetInProgressClaim _ => state' = state
  end.
Proof.
  destruct op as [claimData|id updates|id|draft|id|id]; cbn [run_op].
  - by rewrite addClaim_run.
  - by rewrite updateClaim_run.
  - done.
  - by rewrite saveInProgressClaim_run.
  - done.
  - by rewrite deleteInProgressClaim_run.
Qed.
(** ** Saving a draft *)

Lemma filter_same_id_upsert (draft : InProgressClaim.t) drafts :
  filter (λ d, InProgressClaim.id d = InProgressClaim.id draft)
         (filter (λ d, InProgressClaim.id d ≠ InProgressClaim.id draft) drafts ++ [draft])%list
  = [draft].
Proof.
  rewrite filter_app, filter_cons_True, filter_nil by done.
  rewrite <- (app_nil_l [draft]) at 2. f_equal.
  induction drafts as [|d drafts IH]; [done|].
  destruct (decide (InProgressClaim.id d = InProgressClaim.id draft)) as [Heq|Hne].
  - by rewrite (filter_cons_False _ d) by auto.
  - by rewrite (filter_cons_True _ d), filter_cons_False by done.
Qed.

Lemma filter_other_id_upsert (draft : InProgressClaim.t) drafts :
  filter (λ d, InProgressClaim.id d ≠ InProgressClaim.id draft)
         (filter (λ d, InProgressClaim.id d ≠ InProgressClaim.id draft) drafts ++ [draft])%list
  = filter (λ d, InProgressClaim.id d ≠ InProgressClaim.id draft) drafts.
Proof.
  rewrite filter_app, filter_cons_False, filter_nil, app_nil_r by auto.
  induction drafts as [|d drafts IH]; [done|].
  destruct (decide (InProgressClaim.id d = InProgressClaim.id draft)) as [Heq|Hne].
  - by rewrite (filter_cons_False _ d) by auto.
  - rewrite (filter_cons_True _ d) by done.
    rewrite filter_cons_True by done. by rewrite IH.
Qed.

Lemma find_upsert (draft : InProgressClaim.t) drafts :
  List.find (λ d, bool_decide (InProgressClaim.id d = InProgressClaim.id draft))
            (filter (λ d, InProgressClaim.id d ≠ InProgressClaim.id draft) drafts ++ [draft])%list
  = Some draft.
Proof.
  induction drafts as [|d drafts IH].
  - cbn. by rewrite bool_decide_eq_true_2.
  - destruct (decide (InProgressClaim.id d = InProgressClaim.id draft)) as [Heq|Hne].
    + by rewrite (filter_cons_False _ d) by auto.
    + rewrite (filter_cons_True _ d) by done. cbn.
      by rewrite bool_decide_eq_false_2.
Qed.

(** C5.  After [saveInProgressClaim(D)] exactly one draft of the table has
    the id of [D], and it is [D] itself, whatever was stored under that id
    before; [getInProgressClaim] returns it; the drafts with other ids are as
    they were.  In particular, saving an earlier draft and then [D] under the
    same id leaves [D] alone under that id. *)
Theorem saveInProgressClaim_upsert P w draft :
  let same_id := λ d, InProgressClaim.id d = InProgressClaim.id draft in
  let other_id := λ d, InProgressClaim.id d ≠ InProgressClaim.id draft in
  let w' := (saveInProgressClaim P draft w).2 in
  let drafts := ClaimsState.inProgressClaims (World.state w) in
  let drafts' := ClaimsState.inProgressClaims (World.state w') in
  (saveInProgressClaim P draft w).1 = Normal tt ∧
  filter same_id drafts' = [draft] ∧
  filter other_id drafts' = filter other_id drafts ∧
  (getInProgressClaim (InProgressClaim.id draft) w').1 = Normal (Some draft) ∧
  ∀ earlier,
    InProgressClaim.id earlier = InProgressClaim.id draft →
    filter same_id
      (ClaimsState.inProgressClaims
         (World.state (saveInProgressClaim P draft
                         (saveInProgressClaim P earlier w).2).2))
    = [draft].
Proof.
  intros same_id other_id. rewrite saveInProgressClaim_run.
  cbn [fst snd World.state ClaimsState.inProgressClaims].
  split_and!; [done| | | |].
  - apply filter_same_id_upsert.
  - apply filter_other_id_upsert.
  - rewrite getInProgressClaim_run.
    cbn [fst snd World.state ClaimsState.inProgressClaims]. by rewrite find_upsert.
  - intros earlier _. rewrite !saveInProgressClaim_run.
    cbn [fst snd World.state ClaimsState.inProgressClaims].
    apply filter_same_id_upsert.
Qed.

Lemma saveInProgressClaim_upsert_witness :
  InProgressClaim.id Sample.draft = InProgressClaim.id Sample.draft' ∧
  filter (λ d, InProgressClaim.id d = InProgressClaim.id Sample.draft')
    (ClaimsState.inProgressClaims
       (World.state (saveInProgressClaim Demo.browser Sample.draft'
                       (saveInProgressClaim Demo.browser Sample.draft
                                            (fresh_process ∅)).2).2))
  = [Sample.draft'].
Proof.
  split; [reflexivity|].
  destruct (saveInProgressClaim_upsert Demo.browser (fresh_process ∅) Sample.draft')
    as (_ & _ & _ & _ & Htwice).
  exact (Htwice Sample.draft eq_refl).
Defined.
(** ** Updating a claim *)

(** C4, as amended.  For every claim [C] of the table and every patch,
    [updateClaim(C.id, patch)] completes normally and puts in the place of
    [C] the claim [C] with the keys of the patch shallow-overwritten and
    [updatedAt] set to a reading of the clock taken during the update,
    whatever [updatedAt] the patch supplies; the table keeps its length and
    the claims with another id are untouched.  The new [updatedAt] is at
    least the prior one when the clock never goes back and the prior one was
    not ahead of the clock. *)
Theorem updateClaim_postcondition P w i claim updates :
  ClaimsState.claims (World.state w) !! i = Some claim →
  let w' := (updateClaim P (Claim.id claim) updates w).2 in
  let claims := ClaimsState.claims (World.state w) in
  let claims' := ClaimsState.claims (World.state w') in
  (updateClaim P (Claim.id claim) updates w).1 = Normal tt ∧
  length claims' = length claims ∧
  (∃ k claim',
     (World.clock_reads w ≤ k < World.clock_reads w')%nat ∧
     claims' !! i = Some claim' ∧
     claim' = with_updatedAt (spread claim updates) (clock P k) ∧
     Claim.updatedAt claim' = clock P k ∧
     (monotone P →
      Claim.updatedAt claim ≤ clock P (World.clock_reads w) →
      Claim.updatedAt claim ≤ Claim.updatedAt claim')) ∧
  (∀ j other,
     claims !! j = Some other → Claim.id other ≠ Claim.id claim →
     claims' !! j = Some other).
Proof.
  intros Hi. rewrite updateClaim_run.
  cbn [fst snd World.state World.clock_reads ClaimsState.claims].
  split_and!; [done | apply updated_claims_length | |].
  - set (k := (matches (Claim.id claim) (take i (ClaimsState.claims (World.state w)))
               + World.clock_reads w)%nat).
    exists k, (with_updatedAt (spread claim updates) (clock P k)).
    split_and!.
    + lia.
    + pose proof (matches_take_lt _ _ _ _ Hi eq_refl). lia.
    + rewrite (updated_claims_lookup _ _ _ _ _ _ _ Hi).
      by rewrite bool_decide_eq_true_2.
    + reflexivity.
    + reflexivity.
    + intros Hmono Hprior. cbn. etrans; [exact Hprior|]. apply Hmono. lia.
  - intros j other Hj Hne.
    rewrite (updated_claims_lookup _ _ _ _ _ _ _ Hj).
    by rewrite bool_decide_eq_false_2.
Qed.

Lemma updateClaim_postcondition_witness :
  ClaimsState.claims (World.state Sample.world) !! 0%nat
  = Some (Sample.claim "claim_1700000000000_k3v9" pending) ∧
  monotone Demo.browser ∧
  ∃ claim',
    ClaimsState.claims
      (World.state (updateClaim Demo.browser "claim_1700000000000_k3v9"
                                (Sample.patch_updatedAt 5) Sample.world).2) !! 0%nat
    = Some claim' ∧
    1700000000000 ≤ Claim.updatedAt claim'.
Proof.
  assert (Hmono : monotone Demo.browser) by (intros n m Hnm; cbn; lia).
  split; [reflexivity|]. split; [exact Hmono|].
  destruct (updateClaim_postcondition Demo.browser Sample.world 0
              (Sample.claim "claim_1700000000000_k3v9" pending)
              (Sample.patch_updatedAt 5) eq_refl)
    as (_ & _ & (k & claim' & _ & Hlookup & _ & _ & Hle) & _).
  exists claim'. split; [exact Hlookup|].
  apply (Hle Hmono). cbn. lia.
Defined.

(** C4, as stated, fails: a claim added and updated within one millisecond
    keeps its [updatedAt]; the new value is not strictly greater. *)
Lemma updateClaim_counterexample :
  let P := Demo.within_a_millisecond in
  let w := (addClaim P (Sample.claimData pending) (fresh_process ∅)).2 in
  match ClaimsState.claims (World.state w) with
  | [before] =>
      match ClaimsState.claims
              (World.state (updateClaim P (Claim.id before)
                                        (Sample.patch_status processing) w).2) with
      | [after] =>
          Claim.status after = processing ∧
          ¬ (Claim.updatedAt before < Claim.updatedAt after)
      | _ => False
      end
  | _ => False
  end.
Proof. vm_compute. split; [reflexivity | discriminate]. Qed.
(** ** Sequences of operations *)

Lemma run_op_normal P op w : (run_op P op w).1 = Normal tt.
Proof.
  destruct op; cbn [run_op].
  - by rewrite addClaim_run.
  - by rewrite updateClaim_run.
  - done.
  - done.
  - done.
  - done.
Qed.

Lemma run_ops_cons P op ops w :
  run_ops P (op :: ops) w = run_ops P ops (run_op P op w).2.
Proof.
  cbn [run_ops]. rewrite bind_run.
  pose proof (run_op_normal P op w) as H.
  destruct (run_op P op w) as [[[]|e] w']; [done | discriminate H].
Qed.

(** ** The order of the two timestamps *)

Lemma updated_claims_timestamps P id updates n m claims :
  monotone P → PartialClaim.createdAt updates = None → (n ≤ m)%nat →
  Forall (λ claim, Claim.createdAt claim ≤ Claim.updatedAt claim ∧
                   Claim.createdAt claim ≤ clock P n) claims →
  Forall (λ claim, Claim.createdAt claim ≤ Claim.updatedAt claim ∧
                   Claim.createdAt claim ≤ clock P (matches id claims + m))
         (updated_claims P id updates n claims).
Proof.
  intros Hmono Hkeep Hnm Hall. revert n m Hnm Hall.
  induction claims as [|claim rest IH]; intros n m Hnm Hall; [constructor|].
  apply Forall_cons in Hall as [[Hcu Hcn] Hrest]. cbn.
  assert (Hstep : ∀ k, (n ≤ k)%nat → Claim.createdAt claim ≤ clock P k).
  { intros k Hk. etrans; [exact Hcn|]. by apply Hmono. }
  destruct (bool_decide (Claim.id claim = id)).
  - apply Forall_cons. split.
    + cbn. rewrite Hkeep. cbn. split; apply Hstep; lia.
    + replace (S (matches id rest) + m)%nat with (matches id rest + S m)%nat by lia.
      apply IH; [lia|].
      eapply Forall_impl; [exact Hrest|]. intros c [? ?]. split; [done|].
      etrans; [eassumption|]. apply Hmono. lia.
  - apply Forall_cons. split.
    + split; [done|]. apply Hstep. lia.
    + by apply IH.
Qed.

Lemma timestamps_ok_step P op w :
  monotone P → keeps_createdAt op → timestamps_ok P w →
  timestamps_ok P (run_op P op w).2.
Proof.
  intros Hmono Hkeep Hok. unfold timestamps_ok in *.
  destruct op as [claimData|id updates|id|draft|id|id]; cbn [run_op].
  - rewrite addClaim_run. cbn. apply Forall_cons. split.
    + split; apply Hmono; lia.
    + eapply Forall_impl; [exact Hok|]. intros c [? ?]. split; [done|].
      etrans; [eassumption|]. apply Hmono. lia.
  - rewrite updateClaim_run. cbn.
    by apply updated_claims_timestamps.
  - exact Hok.
  - exact Hok.
  - exact Hok.
  - exact Hok.
Qed.

(** C6, as amended.  When the clock never goes back, every claim of every
    state reached from the initial one by the operations of the store, with
    patches that carry no [createdAt] key, has [updatedAt >= createdAt]. *)
Theorem timestamps_ordered P storage ops :
  monotone P → Forall keeps_createdAt ops →
  Forall (λ claim, Claim.createdAt claim ≤ Claim.updatedAt claim)
         (ClaimsState.claims (World.state (run_ops P ops (fresh_process storage)).2)).
Proof.
  intros Hmono Hkeep.
  assert (Hinv : ∀ w, timestamps_ok P w → timestamps_ok P (run_ops P ops w).2).
  { induction Hkeep as [|op ops Hop _ IH]; intros w Hw; [exact Hw|].
    rewrite run_ops_cons. apply IH. by apply timestamps_ok_step. }
  eapply Forall_impl; [apply Hinv; constructor|].
  intros claim [H _]. exact H.
Qed.

Lemma timestamps_ordered_witness :
  monotone Demo.browser ∧
  Forall keeps_createdAt
         [OpAddClaim (Sample.claimData pending);
          OpUpdateClaim "claim_1700000000000_k3v90" (Sample.patch_status processing);
          OpUpdateClaim "claim_1700000000000_k3v90" (Sample.patch_updatedAt 5)] ∧
  Forall (λ claim, Claim.createdAt claim ≤ Claim.updatedAt claim)
         (ClaimsState.claims
            (World.state
               (run_ops Demo.browser
                  [OpAddClaim (Sample.claimData pending);
                   OpUpdateClaim "claim_1700000000000_k3v90"
                                 (Sample.patch_status processing);
                   OpUpdateClaim "claim_1700000000000_k3v90" (Sample.patch_updatedAt 5)]
                  (fresh_process ∅)).2)).
Proof.
  assert (Hmono : monotone Demo.browser) by (intros n m Hnm; cbn; lia).
  assert (Hkeep : Forall keeps_createdAt
            [OpAddClaim (Sample.claimData pending);
             OpUpdateClaim "claim_1700000000000_k3v90" (Sample.patch_status processing);
             OpUpdateClaim "claim_1700000000000_k3v90" (Sample.patch_updatedAt 5)]).
  { repeat (apply Forall_cons; split; [reflexivity|]). apply Forall_nil_2. }
  split; [exact Hmono|]. split; [exact Hkeep|].
  exact (timestamps_ordered Demo.browser ∅ _ Hmono Hkeep).
Defined.

(** C6, as stated, fails: a patch may carry [createdAt], and the update puts
    it in the claim; here the claim ends created after its last update. *)
Lemma timestamps_counterexample :
  match ClaimsState.claims
          (World.state
             (run_ops Demo.browser
                [OpAddClaim (Sample.claimData pending);
                 OpUpdateClaim "claim_1700000000000_k3v90"
                               (Sample.patch_createdAt 4102444800000)]
                (fresh_process ∅)).2) with
  | [claim] =>
      Claim.createdAt claim = 4102444800000 ∧
      ¬ (Claim.updatedAt claim >= Claim.createdAt claim)
  | _ => False
  end.
Proof. vm_compute. split; [reflexivity | intros H; by apply H]. Qed.
(** ** Statuses *)

Lemma updated_claims_status P id updates n claims :
  PartialClaim.status updates = None →
  map Claim.status (updated_claims P id updates n claims) = map Claim.status claims.
Proof.
  intros Hnone. revert n. induction claims as [|claim rest IH]; intros n; [done|].
  cbn. destruct (bool_decide _); cbn; rewrite IH; [|done].
  by rewrite Hnone.
Qed.

(** C7, as amended.  An operation of the store that does not name a
    [status] in a patch leaves the status of every claim of the table as it
    was: the reads, the two draft operations and [updateClaim] with a patch
    without [status] keep the list of statuses, and [addClaim] only puts the
    status of the new claim in front of it.  [ClaimDetails.tsx] renders no
    status button for a claim that is [approved] or [rejected]. *)
Theorem status_kept_unless_written P op w :
  writes_status op = false →
  map Claim.status (ClaimsState.claims (World.state (run_op P op w).2)) =
    match op with
    | OpAddClaim claimData =>
        ClaimData.status claimData :: map Claim.status (ClaimsState.claims (World.state w))
    | _ => map Claim.status (ClaimsState.claims (World.state w))
    end ∧
  ∀ status, terminal status = true → claimActions status = [].
Proof.
  intros Hop. split.
  - destruct op as [claimData|id updates|id|draft|id|id]; cbn [run_op].
    + by rewrite addClaim_run.
    + rewrite updateClaim_run. cbn. apply updated_claims_status.
      cbn in Hop. apply bool_decide_eq_false in Hop.
      destruct (PartialClaim.status updates); [|done]. destruct Hop. by eexists.
    + done.
    + done.
    + done.
    + done.
  - by intros [].
Qed.

Lemma status_kept_unless_written_witness :
  writes_status (OpUpdateClaim "claim_1700000000000_k3v9" (Sample.patch_updatedAt 5))
  = false ∧
  map Claim.status
      (ClaimsState.claims
         (World.state
            (run_op Demo.browser
               (OpUpdateClaim "claim_1700000000000_k3v9" (Sample.patch_updatedAt 5))
               Sample.world).2))
  = map Claim.status (ClaimsState.claims (World.state Sample.world)).
Proof.
  split; [reflexivity|].
  exact (proj1 (status_kept_unless_written Demo.browser
                  (OpUpdateClaim "claim_1700000000000_k3v9" (Sample.patch_updatedAt 5))
                  Sample.world eq_refl)).
Defined.

(** What a click on a status button of [ClaimDetails.tsx] does to the claim
    the page shows: it gets the status of the button. *)
Lemma handleStatusUpdate_status P w i claim newStatus :
  ClaimsState.claims (World.state w) !! i = Some claim →
  Claim.status <$>
    (ClaimsState.claims (World.state (handleStatusUpdate P claim newStatus w).2) !! i)
  = Some newStatus.
Proof.
  intros Hi. unfold handleStatusUpdate. rewrite updateClaim_run.
  cbn [fst snd World.state ClaimsState.claims].
  rewrite (updated_claims_lookup _ _ _ _ _ _ _ Hi).
  by rewrite bool_decide_eq_true_2.
Qed.

(** C7, as stated, fails: [updateClaim] with a [status] in its patch moves
    an approved claim to [rejected]. *)
Lemma terminal_status_counterexample :
  let ops :=
    [OpAddClaim (Sample.claimData pending);
     OpUpdateClaim "claim_1700000000000_k3v90" (Sample.patch_status approved)] in
  let w := (run_ops Demo.browser ops (fresh_process ∅)).2 in
  let w' := (run_op Demo.browser
               (OpUpdateClaim "claim_1700000000000_k3v90" (Sample.patch_status rejected))
               w).2 in
  map Claim.status (ClaimsState.claims (World.state w)) = [approved] ∧
  map Claim.status (ClaimsState.claims (World.state w')) = [rejected].
Proof. vm_compute. split; reflexivity. Qed.
(** ** Loading *)

Lemma Load_bind_run {A B} (m : Load A) (f : A → Load B) u :
  (m ≫= f) u = match m u with
               | (Normal a, u') => f a u'
               | (Throw e, u') => (Throw e, u')
               end.
Proof. reflexivity. Qed.

Lemma if_truthy_run (body : string → Load unit) saved u :
  if_truthy saved body u =
  match saved with
  | None => (Normal tt, u)
  | Some text => if String.eqb text EmptyString then (Normal tt, u) else body text u
  end.
Proof.
  destruct saved as [text|]; [|reflexivity].
  unfold if_truthy, truthy. by destruct (String.eqb text EmptyString).
Qed.

(** What [loadFromStorage] does, in full: it completes normally and leaves
    the world that [loaded] describes. *)
Lemma loadFromStorage_run P u : loadFromStorage P u = (Normal tt, loaded P u).
Proof.
  destruct u as [w uc ud].
  unfold loadFromStorage, Load_try_catch, loaded, stored_claims, stored_inProgress.
  rewrite Load_bind_run.
  cbn [typed localStorage_getItem Untyped.world Untyped.claims Untyped.inProgressClaims].
  rewrite Load_bind_run.
  cbn [typed localStorage_getItem Untyped.world Untyped.claims Untyped.inProgressClaims].
  rewrite Load_bind_run, if_truthy_run.
  assert (Hdrafts : ∀ u1 : Untyped.t,
            World.localStorage (Untyped.world u1) = World.localStorage w →
            match
              if_truthy (World.localStorage w !! KEY_IN_PROGRESS)
                (λ text,
                   JSON_parse_as (JSON_parse_inProgress P) text
                   ≫= λ inProgress,
                        map_fromStorage inProgress
                        ≫= λ parsedInProgress, dispatch_LOAD_IN_PROGRESS P parsedInProgress)
                u1
            with
            | (Normal a, u') => (Normal a, u')
            | (Throw e, u') => typed (console_error load_error) u'
            end
            = (Normal tt,
               let stored :=
                 match World.localStorage w !! KEY_IN_PROGRESS with
                 | Some text =>
                     if String.eqb text EmptyString then no_text
                     else match JSON_parse_inProgress P text with
                          | Some (of_type inProgress) => a_table (map fromStorage inProgress)
                          | Some (of_another_shape j) =>
                              if inProgress_map_throws j then corrupt TypeError
                              else another_shape j
                          | None => corrupt SyntaxError
                          end
                 | None => no_text
                 end in
               if failed stored
               then Untyped.mk (with_console_error load_error (Untyped.world u1))
                               (Untyped.claims u1) (Untyped.inProgressClaims u1)
               else inProgress_loaded stored u1)).
  { intros [w1 uc1 ud1] _. rewrite if_truthy_run.
    destruct (World.localStorage w !! KEY_IN_PROGRESS) as [text'|]; [|reflexivity].
    destruct (String.eqb text' EmptyString); [reflexivity|].
    unfold JSON_parse_as. rewrite Load_bind_run.
    destruct (JSON_parse_inProgress P text') as [[inProgress|j]|];
      [reflexivity| |reflexivity].
    cbn [mret Load_ret]. rewrite Load_bind_run. unfold map_fromStorage.
    by destruct (inProgress_map_throws j). }
  destruct (World.localStorage w !! KEY_CLAIMS) as [text|].
  - destruct (String.eqb text EmptyString).
    + apply Hdrafts. done.
    + unfold JSON_parse_as at 1. rewrite Load_bind_run.
      destruct (JSON_parse_claims P text) as [[claims|j]|]; [| |reflexivity].
      * apply (Hdrafts (Untyped.mk (with_claims claims w) None ud)). done.
      * apply (Hdrafts (Untyped.mk w (Some j) ud)). done.
  - apply Hdrafts. done.
Qed.

Lemma failed_stored_claims P storage :
  failed (stored_claims P storage) = true ↔
  ∃ text, storage !! KEY_CLAIMS = Some text ∧ text ≠ EmptyString ∧
          JSON_parse_claims P text = None.
Proof.
  unfold stored_claims. destruct (storage !! KEY_CLAIMS) as [text|].
  - destruct (String.eqb_spec text EmptyString) as [->|Hne].
    + split; [done|]. intros (text & [= <-] & Hne & _). done.
    + destruct (JSON_parse_claims P text) as [[claims|j]|] eqn:Hparse; cbn [failed].
      * split; [done|]. intros (? & [= <-] & _ & Hnone). congruence.
      * split; [done|]. intros (? & [= <-] & _ & Hnone). congruence.
      * split; [|done]. intros _. by exists text.
  - split; [done|]. intros (? & ? & _). done.
Qed.

Lemma failed_stored_inProgress P storage :
  failed (stored_inProgress P storage) = true ↔
  ∃ text, storage !! KEY_IN_PROGRESS = Some text ∧ text ≠ EmptyString ∧
          (JSON_parse_inProgress P text = None ∨
           ∃ j, JSON_parse_inProgress P text = Some (of_another_shape j) ∧
                inProgress_map_throws j = true).
Proof.
  unfold stored_inProgress. destruct (storage !! KEY_IN_PROGRESS) as [text|].
  - destruct (String.eqb_spec text EmptyString) as [->|Hne].
    + split; [done|]. intros (text & [= <-] & Hne & _). done.
    + destruct (JSON_parse_inProgress P text) as [[inProgress|j]|] eqn:Hparse.
      * split; [done|]. intros (? & [= <-] & _ & [Hnone|(j & Hj & _)]); congruence.
      * destruct (inProgress_map_throws j) eqn:Hthrows.
        -- split; [|done]. intros _. exists text. split_and!; [done|done|].
           right. by exists j.
        -- split; [done|]. intros (? & [= <-] & _ & [Hnone|(j' & Hj & Hthrows')]);
             [congruence|]. rewrite Hparse in Hj. injection Hj as <-. congruence.
      * split; [|done]. intros _. exists text. split_and!; [done|done|]. by left.
  - split; [done|]. intros (? & ? & _). done.
Qed.

(** C9.  Whatever [localStorage] holds, [load()] completes normally, in
    every state, and leaves [localStorage] as it is.  In a fresh process:

    - a table whose key is absent (or holds the empty string, which the code
      does not parse) is empty after the load, and that is no error: nothing
      is logged on its account, and with both keys absent nothing changes at
      all;
    - a table whose text parses to a table is that table after the load,
      provided the load was not given up before it was reached;
    - a text that does not parse, or a value of the drafts on which
      [inProgress.map] throws, is a failure: it is caught and logged, once,
      the table is empty after the load, and what was loaded before it
      stays; the claims come first, so that after a failure on the claims
      both tables are empty;
    - the console holds one error exactly when there was a failure, and
      nothing otherwise;
    - a value of another shape on which nothing throws is handed to the
      reducer as it is and logs nothing. *)
Theorem loadFromStorage_error_handling P storage :
  let error := console_error_entry "Error loading from localStorage:" in
  let claims_at := stored_claims P storage in
  let drafts_at := stored_inProgress P storage in
  let run := loadFromStorage P (Untyped.of_world (fresh_process storage)) in
  let w' := Untyped.world run.2 in
  let claims' := ClaimsState.claims (World.state w') in
  let drafts' := ClaimsState.inProgressClaims (World.state w') in
  (∀ u, (loadFromStorage P u).1 = Normal tt ∧
        World.localStorage (Untyped.world (loadFromStorage P u).2)
        = World.localStorage (Untyped.world u)) ∧
  (storage !! KEY_CLAIMS = None ∨ storage !! KEY_CLAIMS = Some EmptyString ↔
   claims_at = no_text) ∧
  (storage !! KEY_IN_PROGRESS = None ∨ storage !! KEY_IN_PROGRESS = Some EmptyString ↔
   drafts_at = no_text) ∧
  (failed claims_at = true ↔
   ∃ text, storage !! KEY_CLAIMS = Some text ∧ text ≠ EmptyString ∧
           JSON_parse_claims P text = None) ∧
  (failed drafts_at = true ↔
   ∃ text, storage !! KEY_IN_PROGRESS = Some text ∧ text ≠ EmptyString ∧
           (JSON_parse_inProgress P text = None ∨
            ∃ j, JSON_parse_inProgress P text = Some (of_another_shape j) ∧
                 inProgress_map_throws j = true)) ∧
  (claims_at = no_text → drafts_at = no_text →
   run.2 = Untyped.of_world (fresh_process storage)) ∧
  World.console w' = (if failed claims_at || failed drafts_at then [error] else []) ∧
  claims' = match claims_at with
            | a_table claims => claims
            | no_text | another_shape _ | corrupt _ => []
            end ∧
  drafts' = (if failed claims_at then []
             else match drafts_at with
                  | a_table inProgress => inProgress
                  | no_text | another_shape _ | corrupt _ => []
                  end) ∧
  Untyped.claims run.2 = match claims_at with
                         | another_shape j => Some j
                         | no_text | a_table _ | corrupt _ => None
                         end ∧
  Untyped.inProgressClaims run.2
  = (if failed claims_at then None
     else match drafts_at with
          | another_shape j => Some j
          | no_text | a_table _ | corrupt _ => None
          end) ∧
  ClaimsState.loading (World.state w') = false ∧
  ClaimsState.error (World.state w') = None ∧
  World.clock_reads w' = 0%nat.
Proof.
  intros error claims_at drafts_at run w' claims' drafts'.
  subst claims' drafts' w' run. rewrite loadFromStorage_run.
  cbn [snd]. unfold loaded.
  cbn [Untyped.of_world Untyped.world fresh_process World.localStorage].
  fold claims_at drafts_at.
  split_and!.
  - intros u. rewrite loadFromStorage_run. split; [done|].
    cbn [snd]. unfold loaded.
    destruct (stored_claims P (World.localStorage (Untyped.world u)))
      as [|claims|j|e]; cbn [failed claims_loaded]; [| | |done];
      destruct (stored_inProgress P (World.localStorage (Untyped.world u)))
        as [|inProgress|j'|e']; done.
  - subst claims_at. unfold stored_claims.
    destruct (storage !! KEY_CLAIMS) as [text|].
    + destruct (String.eqb_spec text EmptyString) as [->|Hne].
      * split; [done|]. intros _. by right.
      * split; [by intros [?|[= ->]]|].
        by destruct (JSON_parse_claims P text) as [[claims|j]|].
    + split; [done|]. intros _. by left.
  - subst drafts_at. unfold stored_inProgress.
    destruct (storage !! KEY_IN_PROGRESS) as [text|].
    + destruct (String.eqb_spec text EmptyString) as [->|Hne].
      * split; [done|]. intros _. by right.
      * split; [by intros [?|[= ->]]|].
        destruct (JSON_parse_inProgress P text) as [[inProgress|j]|]; [done| |done].
        by destruct (inProgress_map_throws j).
    + split; [done|]. intros _. by left.
  - apply failed_stored_claims.
  - apply failed_stored_inProgress.
  - intros -> ->. reflexivity.
  - destruct claims_at as [|claims|j|e]; cbn [failed claims_loaded orb]; [| | |done];
      destruct drafts_at as [|inProgress|j'|e']; done.
  - destruct claims_at as [|claims|j|e]; cbn [failed claims_loaded]; [| | |done];
      destruct drafts_at as [|inProgress|j'|e']; done.
  - destruct claims_at as [|claims|j|e]; cbn [failed claims_loaded]; [| | |done];
      destruct drafts_at as [|inProgress|j'|e']; done.
  - destruct claims_at as [|claims|j|e]; cbn [failed claims_loaded]; [| | |done];
      destruct drafts_at as [|inProgress|j'|e']; done.
  - destruct claims_at as [|claims|j|e]; cbn [failed claims_loaded]; [| | |done];
      destruct drafts_at as [|inProgress|j'|e']; done.
  - destruct claims_at as [|claims|j|e]; cbn [failed claims_loaded]; [| | |done];
      destruct drafts_at as [|inProgress|j'|e']; done.
  - destruct claims_at as [|claims|j|e]; cbn [failed claims_loaded]; [| | |done];
      destruct drafts_at as [|inProgress|j'|e']; done.
  - destruct claims_at as [|claims|j|e]; cbn [failed claims_loaded]; [| | |done];
      destruct drafts_at as [|inProgress|j'|e']; done.
Qed.

Lemma loadFromStorage_error_handling_witness :
  let run := loadFromStorage Demo.browser
               (Untyped.of_world (fresh_process Sample.corrupt_storage)) in
  stored_claims Demo.browser Sample.corrupt_storage = corrupt SyntaxError ∧
  stored_inProgress Demo.browser Sample.corrupt_storage = no_text ∧
  run.1 = Normal tt ∧
  World.state (Untyped.world run.2) = initialState ∧
  World.console (Untyped.world run.2)
  = [console_error_entry "Error loading from localStorage:"].
Proof.
  intros run.
  assert (Hclaims : stored_claims Demo.browser Sample.corrupt_storage = corrupt SyntaxError)
    by (vm_compute; reflexivity).
  assert (Hdrafts : stored_inProgress Demo.browser Sample.corrupt_storage = no_text)
    by (vm_compute; reflexivity).
  destruct (loadFromStorage_error_handling Demo.browser Sample.corrupt_storage)
    as (Hnormal & _ & _ & _ & _ & _ & Hconsole & Hc & Hd & _ & _ & Hloading & Herror & _).
  fold run in Hconsole, Hc, Hd, Hloading, Herror.
  rewrite Hclaims in Hconsole, Hc, Hd. cbn [failed orb] in Hconsole, Hd.
  split; [exact Hclaims|]. split; [exact Hdrafts|].
  split; [exact (proj1 (Hnormal _))|].
  split; [|exact Hconsole].
  destruct (World.state (Untyped.world run.2)) as [c d l e].
  cbn in Hc, Hd, Hloading, Herror. by subst.
Defined.

(** ** Saving, then loading *)







(** The scenario of the specification: the draft [s1] saved with the set
    [{a, b}] comes back, in a fresh process, with exactly [a] and [b]. *)
Example draft_s1_reloaded :
  let saved := (saveToStorage Demo.browser Sample.world).2 in
  let reloaded :=
    (loadFromStorage Demo.browser
       (Untyped.of_world (fresh_process (World.localStorage saved)))).2 in
  map (λ draft, (InProgressClaim.id draft,
                 elements (InProgressClaim.approvedAssessments draft)))
      (ClaimsState.inProgressClaims (World.state (Untyped.world reloaded)))
  = [("s1", ["a"; "b"])].
Proof. vm_compute. reflexivity. Qed.

(** Texts that are JSON of another shape.  The claims text [{}] is taken
    as it is and no error is logged, and the drafts behind it are loaded;
    the drafts text [{}] has no [map] to call, which is caught and logged,
    and the claims before it stay loaded. *)
Example other_shapes_loaded :
  let P := Demo.browser in
  let claims_text := JSON_stringify_claims P (ClaimsState.claims (World.state Sample.world)) in
  let drafts_text := JSON_stringify_inProgress P (map toStorage [Sample.draft]) in
  let load storage := (loadFromStorage P (Untyped.of_world (fresh_process storage))).2 in
  let object_then_drafts := load {[ KEY_CLAIMS := "{}"; KEY_IN_PROGRESS := drafts_text ]} in
  let claims_then_object := load {[ KEY_CLAIMS := claims_text; KEY_IN_PROGRESS := "{}" ]} in
  (Untyped.claims object_then_drafts = Some (JObj []) ∧
   ClaimsState.inProgressClaims (World.state (Untyped.world object_then_drafts))
   = [Sample.draft] ∧
   World.console (Untyped.world object_then_drafts) = []) ∧
  (ClaimsState.claims (World.state (Untyped.world claims_then_object))
   = ClaimsState.claims (World.state Sample.world) ∧
   ClaimsState.inProgressClaims (World.state (Untyped.world claims_then_object)) = [] ∧
   Untyped.inProgressClaims claims_then_object = None ∧
   World.console (Untyped.world claims_then_object)
   = [console_error_entry "Error loading from localStorage:"]).
Proof. vm_compute. split_and!; reflexivity. Qed.
(** ** Submitting *)

Lemma total_cost_sum assessments : total_cost assessments = sum_costs assessments.
Proof.
  unfold total_cost.
  assert (H : ∀ acc, fold_left (λ sum a, sum + DamageAssessment.estimatedCost a)
                               assessments acc = acc + sum_costs assessments).
  { induction assessments as [|a rest IH]; intros acc; simpl; [lia|].
    rewrite IH. unfold sum_costs. simpl. lia. }
  rewrite H. lia.
Qed.

(** On the page of a new claim the invariant holds: the claim that is
    created is pending, carries the approved assessments and only them, and
    its total is the sum of their costs. *)
Lemma NewClaim_handleSubmit_sum P w page :
  validateForm (NewClaimPage.formData page) = true →
  let approved_list :=
    approved_of (NewClaimPage.damageAssessments page)
                (NewClaimPage.approvedAssessments page) in
  ∃ claim,
    ClaimsState.claims (World.state (NewClaim_handleSubmit P page w).2)
    = claim :: ClaimsState.claims (World.state w) ∧
    Claim.status claim = pending ∧
    Claim.damageAssessments claim = approved_list ∧
    Claim.totalEstimatedCost claim = sum_costs approved_list ∧
    ∀ assessment,
      assessment ∈ Claim.damageAssessments claim ↔
      assessment ∈ NewClaimPage.damageAssessments page ∧
      DamageAssessment.id assessment ∈ NewClaimPage.approvedAssessments page.
Proof.
  intros Hvalid approved_list. unfold NewClaim_handleSubmit. rewrite Hvalid.
  cbn [negb]. rewrite bind_run, addClaim_run.
  eexists. split; [reflexivity|]. cbn.
  split_and!; [done | done | apply total_cost_sum |].
  intros assessment. unfold approved_list, approved_of. by rewrite list_elem_of_filter, (comm and).
Qed.

(** On the edit page the total is still the sum over the approved
    assessments, but the patch carries every assessment of the page. *)
Lemma EditClaim_handleSubmit_patch P w page existing i claim :
  validateForm (EditClaimPage.formData page) = true →
  EditClaimPage.existingClaim page = Some existing →
  ClaimsState.claims (World.state w) !! i = Some claim →
  Claim.id claim = Claim.id existing →
  ∃ claim',
    ClaimsState.claims (World.state (EditClaim_handleSubmit P page w).2) !! i
    = Some claim' ∧
    Claim.totalEstimatedCost claim'
    = sum_costs (approved_of (EditClaimPage.damageAssessments page)
                             (EditClaimPage.approvedAssessments page)) ∧
    Claim.damageAssessments claim' = EditClaimPage.damageAssessments page.
Proof.
  intros Hvalid Hexisting Hi Hid. unfold EditClaim_handleSubmit.
  rewrite Hvalid, Hexisting. cbn [negb]. unfold try_catch.
  rewrite bind_run. cbn [new_Date_toISOString read_clock].
  rewrite bind_run, updateClaim_run.
  cbn [fst snd mret JS_ret mbind JS_bind World.state World.clock_reads
       ClaimsState.claims].
  rewrite (updated_claims_lookup _ _ _ _ _ _ _ Hi).
  rewrite bool_decide_eq_true_2 by done.
  eexists. split; [reflexivity|]. cbn. split; [apply total_cost_sum | done].
Qed.

(** C2.  The code at the failing input: on the edit page of a claim with
    three assessments of costs 100, 200 and 300, of which the first and the
    third are approved, [handleSubmit] stores the total 400 and keeps all
    three assessments in the persisted claim, the unapproved one included. *)
Theorem EditClaim_handleSubmit_keeps_unapproved :
  match ClaimsState.claims
          (World.state (EditClaim_handleSubmit Demo.browser Sample.editClaimPage
                                               Sample.world).2) with
  | [claim] =>
      Claim.totalEstimatedCost claim = 400 ∧
      map DamageAssessment.id (Claim.damageAssessments claim) = ["a"; "b"; "c"] ∧
      map DamageAssessment.estimatedCost (Claim.damageAssessments claim)
      = [100; 200; 300] ∧
      "b" ∉ EditClaimPage.approvedAssessments Sample.editClaimPage
  | _ => False
  end.
Proof.
  vm_compute. split_and!; try reflexivity. discriminate.
Qed.

(** The same page state submitted as a new claim: the total is 400 and the
    unapproved assessment is gone. *)
Example NewClaim_handleSubmit_scenario :
  match ClaimsState.claims
          (World.state (NewClaim_handleSubmit Demo.browser Sample.newClaimPage
                                              (fresh_process ∅)).2) with
  | [claim] =>
      Claim.totalEstimatedCost claim = 400 ∧
      map DamageAssessment.id (Claim.damageAssessments claim) = ["a"; "c"]
  | _ => False
  end.
Proof. vm_compute. split; reflexivity. Qed.

Local Open Scope list_scope.

(** * More properties of the store *)

(** ** Reading a claim *)

Lemma getClaim_run id w :
  (getClaim id w).1 =
  Normal (List.find (λ claim, bool_decide (Claim.id claim = id))
                    (ClaimsState.claims (World.state w))).
Proof. reflexivity. Qed.

Lemma find_first_match id (claims : list Claim.t) :
  match List.find (λ claim, bool_decide (Claim.id claim = id)) claims with
  | Some claim =>
      ∃ i, claims !! i = Some claim ∧ Claim.id claim = id ∧
           ∀ j other, (j < i)%nat → claims !! j = Some other → Claim.id other ≠ id
  | None => Forall (λ claim, Claim.id claim ≠ id) claims
  end.
Proof.
  induction claims as [|c rest IH]; [constructor|]. cbn.
  case_bool_decide as Hc.
  - exists 0%nat. split_and!; [done|done|]. intros j other Hj. lia.
  - destruct (List.find _ rest) as [claim|].
    + destruct IH as (i & Hi & Hid & Hbefore). exists (S i). split_and!; [done|done|].
      intros [|j] other Hj; cbn; [by intros [= <-]|].
      intros Hother. apply (Hbefore j); [lia|done].
    + by constructor.
Qed.

(** X1.  [getClaim(id)] changes nothing in the state and returns the first
    claim of the table that has the id; it returns nothing exactly when no
    claim has it. *)
Theorem getClaim_first_match id w :
  World.state (getClaim id w).2 = World.state w ∧
  match (getClaim id w).1 with
  | Normal (Some claim) =>
      ∃ i, ClaimsState.claims (World.state w) !! i = Some claim ∧
           Claim.id claim = id ∧
           ∀ j other, (j < i)%nat →
                      ClaimsState.claims (World.state w) !! j = Some other →
                      Claim.id other ≠ id
  | Normal None => Forall (λ claim, Claim.id claim ≠ id) (ClaimsState.claims (World.state w))
  | Throw _ => False
  end.
Proof. split; [done|]. rewrite getClaim_run. apply find_first_match. Qed.

(** X2.  The claim that [addClaim] has just stored is the one [getClaim]
    returns for its id, even when an older claim carries the same id. *)
Theorem getClaim_after_addClaim P w claimData :
  let id := claim_id (clock P (World.clock_reads w))
                     (random_suffix P (World.random_draws w)) in
  let w' := (addClaim P claimData w).2 in
  ∃ claim,
    (getClaim id w').1 = Normal (Some claim) ∧
    ClaimsState.claims (World.state w') !! 0%nat = Some claim ∧
    Claim.policyNumber claim = ClaimData.policyNumber claimData ∧
    Claim.damageAssessments claim = ClaimData.damageAssessments claimData ∧
    Claim.totalEstimatedCost claim = ClaimData.totalEstimatedCost claimData.
Proof.
  intros id w'. subst w'. rewrite addClaim_run. cbn [snd].
  eexists. rewrite getClaim_run. cbn [World.state ClaimsState.claims List.find newClaim_of Claim.id].
  rewrite bool_decide_eq_true_2 by done. done.
Qed.

(** ** Deleting a draft *)

Lemma find_draft_none id (drafts : list InProgressClaim.t) :
  Forall (λ d, InProgressClaim.id d ≠ id) drafts →
  List.find (λ d, bool_decide (InProgressClaim.id d = id)) drafts = None.
Proof.
  induction 1 as [|d rest Hd _ IH]; [done|]. cbn.
  by rewrite bool_decide_eq_false_2.
Qed.

Lemma filter_other_id_all id (drafts : list InProgressClaim.t) :
  Forall (λ d, InProgressClaim.id d ≠ id) drafts →
  filter (λ d, InProgressClaim.id d ≠ id) drafts = drafts.
Proof.
  induction 1 as [|d rest Hd _ IH]; [done|].
  by rewrite filter_cons_True, IH.
Qed.

Lemma Forall_filter_other_id id (drafts : list InProgressClaim.t) :
  Forall (λ d, InProgressClaim.id d ≠ id) (filter (λ d, InProgressClaim.id d ≠ id) drafts).
Proof. apply Forall_forall. intros d Hd. by apply list_elem_of_filter in Hd as [? _]. Qed.

(** X3.  After [deleteInProgressClaim(id)] no draft of the table has the
    id and [getInProgressClaim(id)] finds nothing; the other drafts are all
    kept, in their order; the claims are untouched.  When no draft had the
    id the table is as it was, so deleting twice is deleting once. *)
Theorem deleteInProgressClaim_removes P w id :
  let drafts := ClaimsState.inProgressClaims (World.state w) in
  let w' := (deleteInProgressClaim P id w).2 in
  let drafts' := ClaimsState.inProgressClaims (World.state w') in
  (deleteInProgressClaim P id w).1 = Normal tt ∧
  Forall (λ d, InProgressClaim.id d ≠ id) drafts' ∧
  (getInProgressClaim id w').1 = Normal None ∧
  (∀ d, InProgressClaim.id d ≠ id → d ∈ drafts' ↔ d ∈ drafts) ∧
  drafts' `sublist_of` drafts ∧
  ClaimsState.claims (World.state w') = ClaimsState.claims (World.state w) ∧
  (Forall (λ d, InProgressClaim.id d ≠ id) drafts → drafts' = drafts) ∧
  ClaimsState.inProgressClaims (World.state (deleteInProgressClaim P id w').2) = drafts'.
Proof.
  intros drafts w' drafts'. subst w' drafts'.
  rewrite deleteInProgressClaim_run.
  cbn [fst snd World.state ClaimsState.inProgressClaims ClaimsState.claims].
  fold drafts. split_and!.
  - done.
  - apply Forall_filter_other_id.
  - rewrite getInProgressClaim_run.
    cbn [fst World.state ClaimsState.inProgressClaims].
    by rewrite find_draft_none by apply Forall_filter_other_id.
  - intros d Hd. rewrite list_elem_of_filter. tauto.
  - apply sublist_filter.
  - done.
  - apply filter_other_id_all.
  - rewrite deleteInProgressClaim_run.
    cbn [snd World.state ClaimsState.inProgressClaims].
    apply filter_other_id_all, Forall_filter_other_id.
Qed.

Lemma deleteInProgressClaim_removes_witness :
  Forall (λ d, InProgressClaim.id d ≠ "s2")
         (ClaimsState.inProgressClaims (World.state Sample.world)) ∧
  ClaimsState.inProgressClaims
    (World.state (deleteInProgressClaim Demo.browser "s2" Sample.world).2)
  = ClaimsState.inProgressClaims (World.state Sample.world).
Proof.
  assert (H : Forall (λ d, InProgressClaim.id d ≠ "s2")
                     (ClaimsState.inProgressClaims (World.state Sample.world))).
  { apply Forall_cons. split; [discriminate | apply Forall_nil_2]. }
  split; [exact H|].
  destruct (deleteInProgressClaim_removes Demo.browser Sample.world "s2")
    as (_ & _ & _ & _ & _ & _ & Hsame & _).
  exact (Hsame H).
Defined.

(** X4.  Saving a draft under an id no draft has, and deleting it again,
    gives back the table of drafts as it was. *)
Theorem save_then_delete_draft P w draft :
  Forall (λ d, InProgressClaim.id d ≠ InProgressClaim.id draft)
         (ClaimsState.inProgressClaims (World.state w)) →
  World.state
    (deleteInProgressClaim P (InProgressClaim.id draft)
                           (saveInProgressClaim P draft w).2).2
  = World.state w.
Proof.
  intros Habsent. rewrite saveInProgressClaim_run, deleteInProgressClaim_run.
  cbn [snd World.state ClaimsState.inProgressClaims ClaimsState.claims
       ClaimsState.loading ClaimsState.error].
  rewrite filter_app, filter_cons_False by (intros H; by apply H).
  rewrite filter_nil, app_nil_r.
  rewrite (filter_other_id_all _ (filter _ _)) by apply Forall_filter_other_id.
  rewrite filter_other_id_all by done. apply state_eta.
Qed.

Lemma save_then_delete_draft_witness :
  Forall (λ d, InProgressClaim.id d ≠ InProgressClaim.id Sample.draft)
         (ClaimsState.inProgressClaims (World.state (fresh_process ∅))) ∧
  World.state
    (deleteInProgressClaim Demo.browser "s1"
                           (saveInProgressClaim Demo.browser Sample.draft
                                                (fresh_process ∅)).2).2
  = initialState.
Proof.
  split; [apply Forall_nil_2|].
  exact (save_then_delete_draft Demo.browser (fresh_process ∅) Sample.draft
                                (Forall_nil_2 _)).
Defined.
(** ** Saving when [localStorage] is full *)

Lemma saveToStorage_cases P w :
  let error := console_error_entry "Error saving to localStorage:" in
  let claims_text := JSON_stringify_claims P (ClaimsState.claims (World.state w)) in
  let drafts_text :=
    JSON_stringify_inProgress P (map toStorage (ClaimsState.inProgressClaims (World.state w))) in
  let storage := World.localStorage w in
  saveToStorage P w =
  (Normal tt,
   if localStorage_accepts P storage KEY_CLAIMS claims_text
   then if localStorage_accepts P (<[KEY_CLAIMS := claims_text]> storage)
                                KEY_IN_PROGRESS drafts_text
        then World.mk (World.state w)
                      (<[KEY_IN_PROGRESS := drafts_text]>
                         (<[KEY_CLAIMS := claims_text]> storage))
                      (World.console w) (World.clock_reads w) (World.random_draws w)
        else World.mk (World.state w) (<[KEY_CLAIMS := claims_text]> storage)
                      (World.console w ++ [error])
                      (World.clock_reads w) (World.random_draws w)
   else World.mk (World.state w) storage (World.console w ++ [error])
                 (World.clock_reads w) (World.random_draws w)).
Proof.
  intros error claims_text drafts_text storage.
  unfold saveToStorage, try_catch. rewrite bind_run. cbn [get_state].
  rewrite bind_run. unfold localStorage_setItem at 1. fold claims_text storage.
  destruct (localStorage_accepts P storage KEY_CLAIMS claims_text); [|reflexivity].
  unfold localStorage_setItem. cbn [World.localStorage World.state].
  fold drafts_text storage.
  by destruct (localStorage_accepts P (<[KEY_CLAIMS:=claims_text]> storage)
                                    KEY_IN_PROGRESS drafts_text).
Qed.

(** X5.  [save()] never throws and never touches the provider's state.
    When [localStorage] refuses the claims, nothing is written and the
    failure is on the console.  When it takes the claims and refuses the
    drafts, the claims are written, the drafts key keeps what it held, and
    the failure is on the console. *)
Theorem saveToStorage_quota P w :
  let error := console_error_entry "Error saving to localStorage:" in
  let claims_text := JSON_stringify_claims P (ClaimsState.claims (World.state w)) in
  let drafts_text :=
    JSON_stringify_inProgress P (map toStorage (ClaimsState.inProgressClaims (World.state w))) in
  let storage := World.localStorage w in
  let w' := (saveToStorage P w).2 in
  (saveToStorage P w).1 = Normal tt ∧
  World.state w' = World.state w ∧
  (localStorage_accepts P storage KEY_CLAIMS claims_text = false →
   World.localStorage w' = storage ∧ World.console w' = (World.console w ++ [error])%list) ∧
  (localStorage_accepts P storage KEY_CLAIMS claims_text = true →
   localStorage_accepts P (<[KEY_CLAIMS := claims_text]> storage)
                        KEY_IN_PROGRESS drafts_text = false →
   World.localStorage w' = <[KEY_CLAIMS := claims_text]> storage ∧
   World.localStorage w' !! KEY_IN_PROGRESS = storage !! KEY_IN_PROGRESS ∧
   World.console w' = (World.console w ++ [error])%list).
Proof.
  intros error claims_text drafts_text storage w'. subst w'.
  rewrite saveToStorage_cases. cbn [fst snd]. fold error claims_text drafts_text storage.
  split; [done|]. split.
  - by repeat destruct (localStorage_accepts _ _ _ _).
  - split.
    + intros ->. done.
    + intros -> ->. cbn. split_and!; try done. by rewrite lookup_insert_ne.
Qed.

Lemma saveToStorage_quota_witness :
  let error := console_error_entry "Error saving to localStorage:" in
  let claims_text :=
    JSON_stringify_claims (Quota.browser 1000) (ClaimsState.claims (World.state Sample.world)) in
  (localStorage_accepts (Quota.browser 100) ∅ KEY_CLAIMS claims_text = false ∧
   World.localStorage (saveToStorage (Quota.browser 100) Sample.world).2 = ∅ ∧
   World.console (saveToStorage (Quota.browser 100) Sample.world).2 = [error]) ∧
  (localStorage_accepts (Quota.browser 1000) ∅ KEY_CLAIMS claims_text = true ∧
   World.localStorage (saveToStorage (Quota.browser 1000) Sample.world).2
   = <[KEY_CLAIMS := claims_text]> ∅ ∧
   World.console (saveToStorage (Quota.browser 1000) Sample.world).2 = [error]).
Proof.
  intros error claims_text.
  assert (Hrefused : localStorage_accepts (Quota.browser 100) ∅ KEY_CLAIMS claims_text
                     = false) by (vm_compute; reflexivity).
  assert (Htaken : localStorage_accepts (Quota.browser 1000) ∅ KEY_CLAIMS claims_text
                   = true) by (vm_compute; reflexivity).
  assert (Hdrafts :
            localStorage_accepts (Quota.browser 1000) (<[KEY_CLAIMS := claims_text]> ∅)
              KEY_IN_PROGRESS
              (JSON_stringify_inProgress (Quota.browser 1000)
                 (map toStorage (ClaimsState.inProgressClaims (World.state Sample.world))))
            = false) by (vm_compute; reflexivity).
  split.
  - destruct (saveToStorage_quota (Quota.browser 100) Sample.world)
      as (_ & _ & Hfirst & _).
    destruct (Hfirst Hrefused) as [Hstorage Hconsole].
    split; [exact Hrefused|]. split; [exact Hstorage | exact Hconsole].
  - destruct (saveToStorage_quota (Quota.browser 1000) Sample.world)
      as (_ & _ & _ & Hsecond).
    destruct (Hsecond Htaken Hdrafts) as (Hstorage & _ & Hconsole).
    split; [exact Htaken|]. split; [exact Hstorage | exact Hconsole].
Defined.

(** ** Loading, table by table *)

(** X6.  The two tables are loaded one after the other inside one [try],
    in any state.  When the text of the claims is not empty and does not
    parse, the load stops there: the state is as it was, the drafts included
    whatever their text is, and one error is logged.  When the text of the
    claims parses to a table and the text of the drafts is not empty and
    fails, because it does not parse or because [inProgress.map] throws on
    its value, the claims are the parsed table, the drafts are as they were
    and one error is logged.  An empty text of the claims is skipped like an
    absent key, even though it would not parse: the drafts behind it are
    loaded and nothing is logged. *)
Theorem loadFromStorage_one_try P u :
  let error := console_error_entry "Error loading from localStorage:" in
  let w := Untyped.world u in
  let storage := World.localStorage w in
  let u' := (loadFromStorage P u).2 in
  let w' := Untyped.world u' in
  (∀ text,
     storage !! KEY_CLAIMS = Some text → text ≠ EmptyString →
     JSON_parse_claims P text = None →
     World.state w' = World.state w ∧
     Untyped.claims u' = Untyped.claims u ∧
     Untyped.inProgressClaims u' = Untyped.inProgressClaims u ∧
     World.console w' = World.console w ++ [error]) ∧
  (∀ text claims text',
     storage !! KEY_CLAIMS = Some text → text ≠ EmptyString →
     JSON_parse_claims P text = Some (of_type claims) →
     storage !! KEY_IN_PROGRESS = Some text' → text' ≠ EmptyString →
     JSON_parse_inProgress P text' = None
     ∨ (∃ j, JSON_parse_inProgress P text' = Some (of_another_shape j) ∧
             inProgress_map_throws j = true) →
     ClaimsState.claims (World.state w') = claims ∧
     Untyped.claims u' = None ∧
     ClaimsState.inProgressClaims (World.state w')
     = ClaimsState.inProgressClaims (World.state w) ∧
     Untyped.inProgressClaims u' = Untyped.inProgressClaims u ∧
     World.console w' = World.console w ++ [error]) ∧
  (∀ text' inProgress,
     storage !! KEY_CLAIMS = Some EmptyString →
     storage !! KEY_IN_PROGRESS = Some text' → text' ≠ EmptyString →
     JSON_parse_inProgress P text' = Some (of_type inProgress) →
     ClaimsState.claims (World.state w') = ClaimsState.claims (World.state w) ∧
     Untyped.claims u' = Untyped.claims u ∧
     ClaimsState.inProgressClaims (World.state w') = map fromStorage inProgress ∧
     Untyped.inProgressClaims u' = None ∧
     World.console w' = World.console w).
Proof.
  intros error w storage u' w'. subst w' u'. rewrite loadFromStorage_run.
  cbn [snd]. unfold loaded. fold w storage.
  split_and!.
  - intros text Hstored Hne Hparse.
    assert (Hclaims : stored_claims P storage = corrupt SyntaxError).
    { unfold stored_claims. rewrite Hstored, Hparse.
      by destruct (String.eqb_spec text EmptyString). }
    rewrite Hclaims. done.
  - intros text claims text' Hstored Hne Hparse Hstored' Hne' Hfails.
    assert (Hclaims : stored_claims P storage = a_table claims).
    { unfold stored_claims. rewrite Hstored, Hparse.
      by destruct (String.eqb_spec text EmptyString). }
    assert (Hdrafts : ∃ e, stored_inProgress P storage = corrupt e).
    { unfold stored_inProgress. rewrite Hstored'.
      destruct (String.eqb_spec text' EmptyString); [done|].
      destruct Hfails as [->|(j & -> & ->)]; by eexists. }
    destruct Hdrafts as [e Hdrafts]. rewrite Hclaims, Hdrafts. done.
  - intros text' inProgress Hstored Hstored' Hne' Hparse'.
    assert (Hclaims : stored_claims P storage = no_text).
    { unfold stored_claims. by rewrite Hstored. }
    assert (Hdrafts : stored_inProgress P storage = a_table (map fromStorage inProgress)).
    { unfold stored_inProgress. rewrite Hstored', Hparse'.
      by destruct (String.eqb_spec text' EmptyString). }
    rewrite Hclaims, Hdrafts. done.
Qed.

Lemma loadFromStorage_one_try_witness :
  let load storage :=
    (loadFromStorage Demo.browser (Untyped.of_world (fresh_process storage))).2 in
  (Case.corrupt_claims !! KEY_CLAIMS = Some "[{not json" ∧
   JSON_parse_claims Demo.browser "[{not json" = None ∧
   World.state (Untyped.world (load Case.corrupt_claims)) = initialState) ∧
  (Case.corrupt_drafts !! KEY_CLAIMS = Some Case.claims_text ∧
   Case.corrupt_drafts !! KEY_IN_PROGRESS = Some "[{not json" ∧
   JSON_parse_inProgress Demo.browser "[{not json" = None ∧
   ClaimsState.claims (World.state (Untyped.world (load Case.corrupt_drafts)))
   = ClaimsState.claims (World.state Sample.world) ∧
   ClaimsState.inProgressClaims (World.state (Untyped.world (load Case.corrupt_drafts)))
   = []) ∧
  (Case.empty_claims !! KEY_CLAIMS = Some EmptyString ∧
   JSON_parse_claims Demo.browser EmptyString = None ∧
   ClaimsState.inProgressClaims (World.state (Untyped.world (load Case.empty_claims)))
   = map fromStorage (map toStorage [Sample.draft]) ∧
   World.console (Untyped.world (load Case.empty_claims)) = []).
Proof.
  intros load.
  assert (H1 : Case.corrupt_claims !! KEY_CLAIMS = Some "[{not json")
    by (vm_compute; reflexivity).
  assert (H2 : JSON_parse_claims Demo.browser "[{not json" = None)
    by (vm_compute; reflexivity).
  assert (H3 : Case.corrupt_drafts !! KEY_CLAIMS = Some Case.claims_text)
    by (vm_compute; reflexivity).
  assert (H4 : Case.corrupt_drafts !! KEY_IN_PROGRESS = Some "[{not json")
    by (vm_compute; reflexivity).
  assert (H5 : JSON_parse_inProgress Demo.browser "[{not json" = None)
    by (vm_compute; reflexivity).
  assert (H6 : JSON_parse_claims Demo.browser Case.claims_text
               = Some (of_type (ClaimsState.claims (World.state Sample.world))))
    by (vm_compute; reflexivity).
  assert (H7 : Case.empty_claims !! KEY_CLAIMS = Some EmptyString)
    by (vm_compute; reflexivity).
  assert (H8 : Case.empty_claims !! KEY_IN_PROGRESS = Some Case.drafts_text)
    by (vm_compute; reflexivity).
  assert (H9 : JSON_parse_inProgress Demo.browser Case.drafts_text
               = Some (of_type (map toStorage [Sample.draft])))
    by (vm_compute; reflexivity).
  assert (H10 : JSON_parse_claims Demo.browser EmptyString = None)
    by (vm_compute; reflexivity).
  assert (N1 : "[{not json" ≠ EmptyString) by discriminate.
  assert (N2 : Case.claims_text ≠ EmptyString) by (vm_compute; discriminate).
  assert (N3 : Case.drafts_text ≠ EmptyString) by (vm_compute; discriminate).
  split_and!.
  - exact H1.
  - exact H2.
  - destruct (loadFromStorage_one_try Demo.browser
                (Untyped.of_world (fresh_process Case.corrupt_claims))) as (Hcorrupt & _).
    exact (proj1 (Hcorrupt _ H1 N1 H2)).
  - exact H3.
  - exact H4.
  - exact H5.
  - destruct (loadFromStorage_one_try Demo.browser
                (Untyped.of_world (fresh_process Case.corrupt_drafts))) as (_ & Hvalid & _).
    exact (proj1 (Hvalid _ _ _ H3 N2 H6 H4 N1 (or_introl H5))).
  - destruct (loadFromStorage_one_try Demo.browser
                (Untyped.of_world (fresh_process Case.corrupt_drafts))) as (_ & Hvalid & _).
    destruct (Hvalid _ _ _ H3 N2 H6 H4 N1 (or_introl H5)) as (_ & _ & Hdrafts & _).
    exact Hdrafts.
  - exact H7.
  - exact H10.
  - destruct (loadFromStorage_one_try Demo.browser
                (Untyped.of_world (fresh_process Case.empty_claims))) as (_ & _ & Hempty).
    destruct (Hempty _ _ H7 H8 N3 H9) as (_ & _ & Hdrafts & _). exact Hdrafts.
  - destruct (loadFromStorage_one_try Demo.browser
                (Untyped.of_world (fresh_process Case.empty_claims))) as (_ & _ & Hempty).
    destruct (Hempty _ _ H7 H8 N3 H9) as (_ & _ & _ & _ & Hconsole). exact Hconsole.
Defined.

(** X7.  [load()] replaces, it does not merge, and it leaves alone what it
    has no text for.  In any state: a text of the claims that parses to a
    table becomes the claims table, what the table held before being dropped,
    whatever the text of the drafts is; a text of the drafts that parses to a
    table becomes the table of drafts in the same way, provided the load has
    not stopped on a text of the claims that does not parse; a table whose
    key is absent is as it was.  [loading], [error], [localStorage] and the
    two counters are as they were, and with both keys absent nothing changes
    at all. *)
Theorem loadFromStorage_replaces P u :
  let w := Untyped.world u in
  let storage := World.localStorage w in
  let u' := (loadFromStorage P u).2 in
  let w' := Untyped.world u' in
  let claims_fail :=
    ∃ text, storage !! KEY_CLAIMS = Some text ∧ text ≠ EmptyString ∧
            JSON_parse_claims P text = None in
  World.localStorage w' = storage ∧
  ClaimsState.loading (World.state w') = ClaimsState.loading (World.state w) ∧
  ClaimsState.error (World.state w') = ClaimsState.error (World.state w) ∧
  World.clock_reads w' = World.clock_reads w ∧
  World.random_draws w' = World.random_draws w ∧
  (storage !! KEY_CLAIMS = None → storage !! KEY_IN_PROGRESS = None → u' = u) ∧
  (∀ text claims,
     storage !! KEY_CLAIMS = Some text → text ≠ EmptyString →
     JSON_parse_claims P text = Some (of_type claims) →
     ClaimsState.claims (World.state w') = claims ∧ Untyped.claims u' = None) ∧
  (storage !! KEY_CLAIMS = None →
   ClaimsState.claims (World.state w') = ClaimsState.claims (World.state w) ∧
   Untyped.claims u' = Untyped.claims u) ∧
  (∀ text inProgress,
     storage !! KEY_IN_PROGRESS = Some text → text ≠ EmptyString →
     JSON_parse_inProgress P text = Some (of_type inProgress) →
     ¬ claims_fail →
     ClaimsState.inProgressClaims (World.state w') = map fromStorage inProgress ∧
     Untyped.inProgressClaims u' = None) ∧
  (storage !! KEY_IN_PROGRESS = None →
   ClaimsState.inProgressClaims (World.state w')
   = ClaimsState.inProgressClaims (World.state w) ∧
   Untyped.inProgressClaims u' = Untyped.inProgressClaims u).
Proof.
  intros w storage u' w' claims_fail. subst w' u'. rewrite loadFromStorage_run.
  cbn [snd]. unfold loaded. fold w storage.
  pose proof (failed_stored_claims P storage) as Hfail. fold claims_fail in Hfail.
  assert (Habsent : storage !! KEY_CLAIMS = None → stored_claims P storage = no_text).
  { intros H. unfold stored_claims. by rewrite H. }
  assert (Habsent' : storage !! KEY_IN_PROGRESS = None →
                     stored_inProgress P storage = no_text).
  { intros H. unfold stored_inProgress. by rewrite H. }
  assert (Htable : ∀ text claims,
            storage !! KEY_CLAIMS = Some text → text ≠ EmptyString →
            JSON_parse_claims P text = Some (of_type claims) →
            stored_claims P storage = a_table claims).
  { intros text claims H Hne Hparse. unfold stored_claims. rewrite H, Hparse.
    by destruct (String.eqb_spec text EmptyString). }
  assert (Htable' : ∀ text inProgress,
            storage !! KEY_IN_PROGRESS = Some text → text ≠ EmptyString →
            JSON_parse_inProgress P text = Some (of_type inProgress) →
            stored_inProgress P storage = a_table (map fromStorage inProgress)).
  { intros text inProgress H Hne Hparse. unfold stored_inProgress. rewrite H, Hparse.
    by destruct (String.eqb_spec text EmptyString). }
  split_and!.
  - destruct (stored_claims P storage) as [|claims|j|e]; cbn [failed claims_loaded];
      [| | |done]; destruct (stored_inProgress P storage) as [|inProgress|j'|e']; done.
  - destruct (stored_claims P storage) as [|claims|j|e]; cbn [failed claims_loaded];
      [| | |done]; destruct (stored_inProgress P storage) as [|inProgress|j'|e']; done.
  - destruct (stored_claims P storage) as [|claims|j|e]; cbn [failed claims_loaded];
      [| | |done]; destruct (stored_inProgress P storage) as [|inProgress|j'|e']; done.
  - destruct (stored_claims P storage) as [|claims|j|e]; cbn [failed claims_loaded];
      [| | |done]; destruct (stored_inProgress P storage) as [|inProgress|j'|e']; done.
  - destruct (stored_claims P storage) as [|claims|j|e]; cbn [failed claims_loaded];
      [| | |done]; destruct (stored_inProgress P storage) as [|inProgress|j'|e']; done.
  - intros H H'. rewrite (Habsent H), (Habsent' H'). done.
  - intros text claims H Hne Hparse. rewrite (Htable _ _ H Hne Hparse).
    cbn [failed claims_loaded].
    destruct (stored_inProgress P storage) as [|inProgress|j'|e']; done.
  - intros H. rewrite (Habsent H). cbn [failed claims_loaded].
    destruct (stored_inProgress P storage) as [|inProgress|j'|e']; done.
  - intros text inProgress H Hne Hparse Hok. rewrite (Htable' _ _ H Hne Hparse).
    destruct (failed (stored_claims P storage)) eqn:Hfailed.
    + exfalso. apply Hok, Hfail. done.
    + by destruct (stored_claims P storage).
  - intros H. rewrite (Habsent' H).
    destruct (stored_claims P storage) as [|claims|j|e]; done.
Qed.

Lemma loadFromStorage_replaces_witness :
  let reloaded := (loadFromStorage Demo.browser (Untyped.of_world Case.stale_page)).2 in
  World.localStorage Case.stale_page !! KEY_CLAIMS = Some Case.claims_text ∧
  World.localStorage Case.stale_page !! KEY_IN_PROGRESS = Some Case.drafts_text ∧
  JSON_parse_claims Demo.browser Case.claims_text
  = Some (of_type (ClaimsState.claims (World.state Sample.world))) ∧
  JSON_parse_inProgress Demo.browser Case.drafts_text
  = Some (of_type (map toStorage [Sample.draft])) ∧
  ClaimsState.claims (World.state (Untyped.world reloaded))
  = ClaimsState.claims (World.state Sample.world) ∧
  ClaimsState.inProgressClaims (World.state (Untyped.world reloaded))
  = map fromStorage (map toStorage [Sample.draft]).
Proof.
  intros reloaded.
  assert (H1 : World.localStorage Case.stale_page !! KEY_CLAIMS = Some Case.claims_text)
    by (vm_compute; reflexivity).
  assert (H2 : World.localStorage Case.stale_page !! KEY_IN_PROGRESS
               = Some Case.drafts_text) by (vm_compute; reflexivity).
  assert (H3 : JSON_parse_claims Demo.browser Case.claims_text
               = Some (of_type (ClaimsState.claims (World.state Sample.world))))
    by (vm_compute; reflexivity).
  assert (H4 : JSON_parse_inProgress Demo.browser Case.drafts_text
               = Some (of_type (map toStorage [Sample.draft])))
    by (vm_compute; reflexivity).
  assert (N1 : Case.claims_text ≠ EmptyString) by (vm_compute; discriminate).
  assert (N2 : Case.drafts_text ≠ EmptyString) by (vm_compute; discriminate).
  assert (Hok : ¬ ∃ text,
              World.localStorage Case.stale_page !! KEY_CLAIMS = Some text ∧
              text ≠ EmptyString ∧ JSON_parse_claims Demo.browser text = None).
  { intros (text & Htext & _ & Hnone). rewrite H1 in Htext. injection Htext as <-.
    rewrite H3 in Hnone. discriminate. }
  destruct (loadFromStorage_replaces Demo.browser (Untyped.of_world Case.stale_page))
    as (_ & _ & _ & _ & _ & _ & Hclaims & _ & Hdrafts & _).
  split; [exact H1|]. split; [exact H2|]. split; [exact H3|]. split; [exact H4|].
  split.
  - exact (proj1 (Hclaims _ _ H1 N1 H3)).
  - exact (proj1 (Hdrafts _ _ H2 N2 H4 Hok)).
Defined.

(** ** What an update keeps *)

Lemma updated_claims_map_kept {A} (field : Claim.t → A) P id updates n claims :
  (∀ claim now, field (with_updatedAt (spread claim updates) now) = field claim) →
  map field (updated_claims P id updates n claims) = map field claims.
Proof.
  intros Hkept. revert n. induction claims as [|claim rest IH]; intros n; [done|].
  cbn. destruct (bool_decide _); cbn; by rewrite IH, ?Hkept.
Qed.

(** X8.  [updateClaim] keeps the length of the table and, claim by claim,
    every key the patch does not carry, [updatedAt] apart: for each of the
    nineteen other keys, when the patch has no such key the values of the key
    are as they were, in the order of the table.  [updatedAt] is kept by the
    claims with another id, and in the claims that have the id it is a
    reading of the clock made during the update, whether the patch carries
    the key or not. *)
Theorem updateClaim_keeps_absent_keys P w id updates :
  let w' := (updateClaim P id updates w).2 in
  let claims := ClaimsState.claims (World.state w) in
  let claims' := ClaimsState.claims (World.state w') in
  length claims' = length claims ∧
  (PartialClaim.id updates = None → map Claim.id claims' = map Claim.id claims) ∧
  (PartialClaim.policyNumber updates = None →
   map Claim.policyNumber claims' = map Claim.policyNumber claims) ∧
  (PartialClaim.customerName updates = None →
   map Claim.customerName claims' = map Claim.customerName claims) ∧
  (PartialClaim.customerEmail updates = None →
   map Claim.customerEmail claims' = map Claim.customerEmail claims) ∧
  (PartialClaim.customerPhone updates = None →
   map Claim.customerPhone claims' = map Claim.customerPhone claims) ∧
  (PartialClaim.vehicleMake updates = None →
   map Claim.vehicleMake claims' = map Claim.vehicleMake claims) ∧
  (PartialClaim.vehicleModel updates = None →
   map Claim.vehicleModel claims' = map Claim.vehicleModel claims) ∧
  (PartialClaim.vehicleYear updates = None →
   map Claim.vehicleYear claims' = map Claim.vehicleYear claims) ∧
  (PartialClaim.accidentDate updates = None →
   map Claim.accidentDate claims' = map Claim.accidentDate claims) ∧
  (PartialClaim.accidentDescription updates = None →
   map Claim.accidentDescription claims' = map Claim.accidentDescription claims) ∧
  (PartialClaim.photos updates = None → map Claim.photos claims' = map Claim.photos claims) ∧
  (PartialClaim.videos updates = None → map Claim.videos claims' = map Claim.videos claims) ∧
  (PartialClaim.status updates = None → map Claim.status claims' = map Claim.status claims) ∧
  (PartialClaim.damageAssessments updates = None →
   map Claim.damageAssessments claims' = map Claim.damageAssessments claims) ∧
  (PartialClaim.totalEstimatedCost updates = None →
   map Claim.totalEstimatedCost claims' = map Claim.totalEstimatedCost claims) ∧
  (PartialClaim.repairShopId updates = None →
   map Claim.repairShopId claims' = map Claim.repairShopId claims) ∧
  (PartialClaim.createdAt updates = None →
   map Claim.createdAt claims' = map Claim.createdAt claims) ∧
  (PartialClaim.aiAnalysisComplete updates = None →
   map Claim.aiAnalysisComplete claims' = map Claim.aiAnalysisComplete claims) ∧
  (PartialClaim.processingTime updates = None →
   map Claim.processingTime claims' = map Claim.processingTime claims) ∧
  (∀ i claim,
     claims !! i = Some claim → Claim.id claim ≠ id →
     Claim.updatedAt <$> claims' !! i = Some (Claim.updatedAt claim)) ∧
  (∀ i claim,
     claims !! i = Some claim → Claim.id claim = id →
     ∃ k, (World.clock_reads w ≤ k < World.clock_reads w')%nat ∧
          Claim.updatedAt <$> claims' !! i = Some (clock P k)).
Proof.
  intros w' claims claims'. subst claims' w'. rewrite updateClaim_run.
  cbn [snd World.state World.clock_reads ClaimsState.claims]. fold claims.
  split_and!; [apply updated_claims_length | ..];
    try (intros H; apply updated_claims_map_kept; intros; cbn; by rewrite H).
  - intros i claim Hi Hne.
    rewrite (updated_claims_lookup _ _ _ _ _ _ _ Hi).
    by rewrite bool_decide_eq_false_2.
  - intros i claim Hi Hid.
    exists (matches id (take i claims) + World.clock_reads w)%nat. split.
    + pose proof (matches_take_lt _ _ _ _ Hi Hid). lia.
    + rewrite (updated_claims_lookup _ _ _ _ _ _ _ Hi).
      by rewrite bool_decide_eq_true_2.
Qed.

Lemma updateClaim_keeps_absent_keys_witness :
  PartialClaim.id (Sample.patch_status approved) = None ∧
  PartialClaim.policyNumber (Sample.patch_status approved) = None ∧
  map Claim.id
      (ClaimsState.claims
         (World.state (updateClaim Demo.browser "claim_1700000000000_k3v9"
                                   (Sample.patch_status approved) Sample.world).2))
  = map Claim.id (ClaimsState.claims (World.state Sample.world)) ∧
  map Claim.policyNumber
      (ClaimsState.claims
         (World.state (updateClaim Demo.browser "claim_1700000000000_k3v9"
                                   (Sample.patch_status approved) Sample.world).2))
  = map Claim.policyNumber (ClaimsState.claims (World.state Sample.world)).
Proof.
  split; [reflexivity|]. split; [reflexivity|].
  destruct (updateClaim_keeps_absent_keys Demo.browser Sample.world
              "claim_1700000000000_k3v9" (Sample.patch_status approved))
    as (_ & Hid & Hpolicy & _).
  split; [exact (Hid eq_refl) | exact (Hpolicy eq_refl)].
Defined.

(** ** Ids over the life of the page *)

Lemma ids_ok_step P op w :
  strictly_increasing P → keeps_id op → ids_ok P w → ids_ok P (run_op P op w).2.
Proof.
  intros Hclock Hkeep [Hnodup Hbuilt].
  destruct op as [claimData|id updates|id|draft|id|id]; cbn [run_op].
  - rewrite addClaim_run. unfold ids_ok.
    cbn [snd World.state World.clock_reads ClaimsState.claims map newClaim_of Claim.id].
    split.
    + apply NoDup_cons. split; [|done].
      intros Hin. rewrite Forall_forall in Hbuilt.
      destruct (Hbuilt _ Hin) as (k & suffix & Hk & Heq).
      apply claim_id_inj in Heq as [Heq _].
      specialize (Hclock k (World.clock_reads w) Hk). lia.
    + apply Forall_cons. split.
      * exists (World.clock_reads w), (random_suffix P (World.random_draws w)).
        split; [lia|done].
      * eapply Forall_impl; [exact Hbuilt|].
        intros id (k & suffix & Hk & ->). exists k, suffix. split; [lia|done].
  - assert (Hids : map Claim.id (ClaimsState.claims (World.state (updateClaim P id updates w).2))
                   = map Claim.id (ClaimsState.claims (World.state w))).
    { rewrite updateClaim_run. cbn [snd World.state ClaimsState.claims].
      apply updated_claims_map_kept. intros. cbn. by rewrite Hkeep. }
    unfold ids_ok. rewrite Hids. split; [done|].
    eapply Forall_impl; [exact Hbuilt|].
    intros i (k & suffix & Hk & ->). exists k, suffix. split; [|done].
    rewrite updateClaim_run. cbn. lia.
  - done.
  - done.
  - done.
  - done.
Qed.

(** X9.  When the clock advances between any two readings, the claims of
    every state reached from the initial one by the operations of the
    store, with patches that carry no [id] key, have pairwise different
    ids. *)
Theorem claim_ids_unique P storage ops :
  strictly_increasing P → Forall keeps_id ops →
  NoDup (map Claim.id
             (ClaimsState.claims (World.state (run_ops P ops (fresh_process storage)).2))).
Proof.
  intros Hclock Hkeep.
  assert (Hinv : ∀ w, ids_ok P w → ids_ok P (run_ops P ops w).2).
  { induction Hkeep as [|op ops Hop _ IH]; intros w Hw; [exact Hw|].
    rewrite run_ops_cons. apply IH. by apply ids_ok_step. }
  apply Hinv. split; constructor.
Qed.

Lemma claim_ids_unique_witness :
  strictly_increasing Demo.browser ∧
  Forall keeps_id
         [OpAddClaim (Sample.claimData pending);
          OpAddClaim (Sample.claimData pending);
          OpUpdateClaim "claim_1700000000000_k3v90" (Sample.patch_status approved)] ∧
  NoDup (map Claim.id
             (ClaimsState.claims
                (World.state
                   (run_ops Demo.browser
                      [OpAddClaim (Sample.claimData pending);
                       OpAddClaim (Sample.claimData pending);
                       OpUpdateClaim "claim_1700000000000_k3v90"
                                     (Sample.patch_status approved)]
                      (fresh_process ∅)).2))).
Proof.
  assert (Hclock : strictly_increasing Demo.browser) by (intros n m Hnm; cbn; lia).
  assert (Hkeep : Forall keeps_id
            [OpAddClaim (Sample.claimData pending);
             OpAddClaim (Sample.claimData pending);
             OpUpdateClaim "claim_1700000000000_k3v90" (Sample.patch_status approved)]).
  { repeat (apply Forall_cons; split; [reflexivity|]). apply Forall_nil_2. }
  split; [exact Hclock|]. split; [exact Hkeep|].
  exact (claim_ids_unique Demo.browser ∅ _ Hclock Hkeep).
Defined.

(** ** The order of the table *)

Lemma most_recent_first_cons latest instants :
  Forall (λ created, created ≤ latest) instants →
  most_recent_first instants → most_recent_first (latest :: instants).
Proof.
  intros Hle Hsorted [|i] [|j] earlier later Hij; cbn.
  - intros [= <-] [= <-]. lia.
  - intros [= <-] Hj. rewrite Forall_forall in Hle. apply Hle.
    by eapply list_elem_of_lookup_2.
  - lia.
  - apply Hsorted. lia.
Qed.

Lemma order_ok_step P op w :
  monotone P → keeps_createdAt op → order_ok P w → order_ok P (run_op P op w).2.
Proof.
  intros Hclock Hkeep [Hsorted Hpast].
  destruct op as [claimData|id updates|id|draft|id|id]; cbn [run_op].
  - rewrite addClaim_run. unfold order_ok.
    cbn [snd World.state World.clock_reads ClaimsState.claims map newClaim_of
         Claim.createdAt].
    split.
    + apply most_recent_first_cons; [|done].
      eapply Forall_impl; [exact Hpast|]. intros created Hc. cbn in Hc.
      etrans; [exact Hc|]. apply Hclock. lia.
    + apply Forall_cons. split; [apply Hclock; lia|].
      eapply Forall_impl; [exact Hpast|]. intros created Hc. cbn in Hc.
      etrans; [exact Hc|]. apply Hclock. lia.
  - assert (Hsame : map Claim.createdAt
                        (ClaimsState.claims (World.state (updateClaim P id updates w).2))
                    = map Claim.createdAt (ClaimsState.claims (World.state w))).
    { rewrite updateClaim_run. cbn [snd World.state ClaimsState.claims].
      apply updated_claims_map_kept. intros. cbn. by rewrite Hkeep. }
    unfold order_ok. rewrite Hsame. split; [done|].
    eapply Forall_impl; [exact Hpast|]. intros created Hc. cbn in Hc.
    etrans; [exact Hc|]. apply Hclock. rewrite updateClaim_run. cbn. lia.
  - done.
  - done.
  - done.
  - done.
Qed.

(** X10.  When the clock never goes back, the claims table of every state
    reached from the initial one by the operations of the store, with
    patches that carry no [createdAt] key, lists the claims most recent
    first: no claim was created after a claim that stands before it. *)
Theorem claims_most_recent_first P storage ops :
  monotone P → Forall keeps_createdAt ops →
  most_recent_first
    (map Claim.createdAt
         (ClaimsState.claims (World.state (run_ops P ops (fresh_process storage)).2))).
Proof.
  intros Hclock Hkeep.
  assert (Hinv : ∀ w, order_ok P w → order_ok P (run_ops P ops w).2).
  { induction Hkeep as [|op ops Hop _ IH]; intros w Hw; [exact Hw|].
    rewrite run_ops_cons. apply IH. by apply order_ok_step. }
  apply Hinv. split; [|constructor].
  intros i j earlier later _ Hi. by destruct i.
Qed.

Lemma claims_most_recent_first_witness :
  monotone Demo.browser ∧
  Forall keeps_createdAt
         [OpAddClaim (Sample.claimData pending);
          OpUpdateClaim "claim_1700000000000_k3v90" (Sample.patch_status approved);
          OpAddClaim (Sample.claimData pending)] ∧
  most_recent_first
    (map Claim.createdAt
         (ClaimsState.claims
            (World.state
               (run_ops Demo.browser
                  [OpAddClaim (Sample.claimData pending);
                   OpUpdateClaim "claim_1700000000000_k3v90"
                                 (Sample.patch_status approved);
                   OpAddClaim (Sample.claimData pending)]
                  (fresh_process ∅)).2))).
Proof.
  assert (Hclock : monotone Demo.browser) by (intros n m Hnm; cbn; lia).
  assert (Hkeep : Forall keeps_createdAt
            [OpAddClaim (Sample.claimData pending);
             OpUpdateClaim "claim_1700000000000_k3v90" (Sample.patch_status approved);
             OpAddClaim (Sample.claimData pending)]).
  { repeat (apply Forall_cons; split; [reflexivity|]). apply Forall_nil_2. }
  split; [exact Hclock|]. split; [exact Hkeep|].
  exact (claims_most_recent_first Demo.browser ∅ _ Hclock Hkeep).
Defined.
#[local] Set Warnings "-clear-no-such-hyp".

(** * The page of a new claim *)

(** ** Approving and rejecting assessments *)

Lemma toggle_twice prev id : toggle (toggle prev id) id = prev.
Proof.
  destruct (decide (id ∈ prev)) as [Hin|Hout].
  - assert (Hout : id ∉ prev ∖ {[id]}) by set_solver.
    unfold toggle at 2. rewrite (bool_decide_eq_true_2 _ Hin).
    unfold toggle. rewrite (bool_decide_eq_false_2 _ Hout).
    apply set_eq. intros x. destruct (decide (x = id)); set_solver.
  - assert (Hnow : id ∈ prev ∪ {[id]}) by set_solver.
    unfold toggle at 2. rewrite (bool_decide_eq_false_2 _ Hout).
    unfold toggle. rewrite (bool_decide_eq_true_2 _ Hnow). set_solver.
Qed.

Lemma elem_of_toggle prev id x :
  x ∈ toggle prev id ↔ (x = id ∧ id ∉ prev) ∨ (x ≠ id ∧ x ∈ prev).
Proof.
  unfold toggle. case_bool_decide as Hin; destruct (decide (x = id)); set_solver.
Qed.

(** The estimated costs of the assessments that carry an id, added up. *)
Lemma sum_costs_cons a rest :
  sum_costs (a :: rest) = DamageAssessment.estimatedCost a + sum_costs rest.
Proof. reflexivity. Qed.

Lemma approved_of_cons a rest approved :
  approved_of (a :: rest) approved =
  if bool_decide (DamageAssessment.id a ∈ approved)
  then a :: approved_of rest approved else approved_of rest approved.
Proof.
  unfold approved_of. case_bool_decide.
  - by rewrite filter_cons_True.
  - by rewrite filter_cons_False.
Qed.

Lemma sum_costs_toggle assessments approved id :
  sum_costs (approved_of assessments (toggle approved id)) =
  if bool_decide (id ∈ approved)
  then sum_costs (approved_of assessments approved)
       - sum_costs (filter (λ a, DamageAssessment.id a = id) assessments)
  else sum_costs (approved_of assessments approved)
       + sum_costs (filter (λ a, DamageAssessment.id a = id) assessments).
Proof.
  assert (Hother : ∀ a, DamageAssessment.id a ≠ id →
            bool_decide (DamageAssessment.id a ∈ toggle approved id)
            = bool_decide (DamageAssessment.id a ∈ approved)).
  { intros a Hne. apply bool_decide_ext. rewrite elem_of_toggle.
    split; [intros [[]|[]]; done|]. intros. by right. }
  destruct (decide (id ∈ approved)) as [Hin|Hout].
  - rewrite (bool_decide_eq_true_2 _ Hin).
    induction assessments as [|a rest IH]; [reflexivity|].
    rewrite !approved_of_cons.
    destruct (decide (DamageAssessment.id a = id)) as [Heq|Hne].
    + rewrite (filter_cons_True _ a) by done.
      rewrite (bool_decide_eq_false_2 (DamageAssessment.id a ∈ toggle approved id))
        by (rewrite elem_of_toggle; intros [[]|[]]; congruence).
      rewrite (bool_decide_eq_true_2 (DamageAssessment.id a ∈ approved)) by congruence.
      rewrite !sum_costs_cons, IH. lia.
    + rewrite (filter_cons_False _ a) by done. rewrite (Hother a Hne).
      destruct (bool_decide (DamageAssessment.id a ∈ approved));
        rewrite ?sum_costs_cons, IH; lia.
  - rewrite (bool_decide_eq_false_2 _ Hout).
    induction assessments as [|a rest IH]; [reflexivity|].
    rewrite !approved_of_cons.
    destruct (decide (DamageAssessment.id a = id)) as [Heq|Hne].
    + rewrite (filter_cons_True _ a) by done.
      rewrite (bool_decide_eq_true_2 (DamageAssessment.id a ∈ toggle approved id))
        by (rewrite elem_of_toggle; left; split; congruence).
      rewrite (bool_decide_eq_false_2 (DamageAssessment.id a ∈ approved)) by congruence.
      rewrite !sum_costs_cons, IH. lia.
    + rewrite (filter_cons_False _ a) by done. rewrite (Hother a Hne).
      destruct (bool_decide (DamageAssessment.id a ∈ approved));
        rewrite ?sum_costs_cons, IH; lia.
Qed.

(** X11.  A click on an assessment of the review step flips the approval
    of that assessment and of no other, and marks the page as changed; a
    second click on it gives back the set of approvals.  The total shown
    goes down by the cost of the assessment when it was approved and up by
    it when it was not (by the costs of all the assessments that carry the
    id, should several do). *)
Theorem toggleAssessmentApproval_total s id :
  let page := NewClaimState.page s in
  let page' := NewClaimState.page (toggleAssessmentApproval s id) in
  let cost := sum_costs (filter (λ a, DamageAssessment.id a = id)
                                (NewClaimPage.damageAssessments page)) in
  NewClaimState.hasUnsavedChanges (toggleAssessmentApproval s id) = true ∧
  (id ∈ NewClaimPage.approvedAssessments page' ↔ id ∉ NewClaimPage.approvedAssessments page) ∧
  (∀ other, other ≠ id →
     other ∈ NewClaimPage.approvedAssessments page'
     ↔ other ∈ NewClaimPage.approvedAssessments page) ∧
  getApprovedTotalCost page' =
    (if bool_decide (id ∈ NewClaimPage.approvedAssessments page)
     then getApprovedTotalCost page - cost else getApprovedTotalCost page + cost) ∧
  NewClaimPage.approvedAssessments
    (NewClaimState.page (toggleAssessmentApproval (toggleAssessmentApproval s id) id))
  = NewClaimPage.approvedAssessments page.
Proof.
  intros page page' cost. subst page'.
  cbn [toggleAssessmentApproval NewClaimState.page NewClaimState.hasUnsavedChanges
       NewClaimPage.damageAssessments NewClaimPage.approvedAssessments].
  fold page. split_and!.
  - done.
  - rewrite elem_of_toggle. split; [intros [[]|[]]; done|]. intros. left. by split.
  - intros other Hne. rewrite elem_of_toggle. split; [intros [[]|[]]; done|]. intros. by right.
  - unfold getApprovedTotalCost.
    cbn [NewClaimPage.damageAssessments NewClaimPage.approvedAssessments].
    rewrite !total_cost_sum. apply sum_costs_toggle.
  - apply toggle_twice.
Qed.

(** ** The total that is shown and the total that is stored *)

Lemma approved_of_stale assessments approved stale :
  Forall (λ a, DamageAssessment.id a ∉ stale) assessments →
  approved_of assessments (approved ∪ stale) = approved_of assessments approved.
Proof.
  induction 1 as [|a rest Ha _ IH]; [done|].
  rewrite !approved_of_cons, IH.
  assert (Hsame : bool_decide (DamageAssessment.id a ∈ approved ∪ stale)
                  = bool_decide (DamageAssessment.id a ∈ approved)).
  { apply bool_decide_ext. set_solver. }
  by rewrite Hsame.
Qed.

(** X12.  When the form is valid, the total of the claim that
    [handleSubmit] stores is the total the review step shows.  Approved ids
    that no assessment of the page carries, such as ids left from an earlier
    analysis, count neither in that total nor among the stored assessments. *)
Theorem NewClaim_shown_total_is_stored P w page :
  validateForm (NewClaimPage.formData page) = true →
  (∃ claim,
     ClaimsState.claims (World.state (NewClaim_handleSubmit P page w).2) !! 0%nat
     = Some claim ∧
     Claim.totalEstimatedCost claim = getApprovedTotalCost page) ∧
  ∀ stale,
    Forall (λ a, DamageAssessment.id a ∉ stale) (NewClaimPage.damageAssessments page) →
    approved_of (NewClaimPage.damageAssessments page)
                (NewClaimPage.approvedAssessments page ∪ stale)
    = approved_of (NewClaimPage.damageAssessments page)
                  (NewClaimPage.approvedAssessments page).
Proof.
  intros Hvalid. split.
  - destruct (NewClaim_handleSubmit_sum P w page Hvalid) as (claim & Hclaims & _ & _ & Htotal & _).
    exists claim. rewrite Hclaims. split; [done|].
    rewrite Htotal. unfold getApprovedTotalCost. by rewrite total_cost_sum.
  - intros stale. apply approved_of_stale.
Qed.

Lemma NewClaim_shown_total_is_stored_witness :
  validateForm (NewClaimPage.formData Sample.newClaimPage) = true ∧
  ∃ claim,
    ClaimsState.claims
      (World.state (NewClaim_handleSubmit Demo.browser Sample.newClaimPage
                                          Sample.world).2) !! 0%nat = Some claim ∧
    Claim.totalEstimatedCost claim = getApprovedTotalCost Sample.newClaimPage.
Proof.
  split; [reflexivity|].
  exact (proj1 (NewClaim_shown_total_is_stored Demo.browser Sample.world
                  Sample.newClaimPage eq_refl)).
Defined.
(** ** Removing a photo or a video *)

Lemma filter_other_index_spec {A} index i (l : list A) :
  filter_other_index index i l =
  if bool_decide (i ≤ index)%nat
  then take (index - i) l ++ drop (S (index - i)) l
  else l.
Proof.
  revert i. induction l as [|x rest IH]; intros i; cbn.
  - case_bool_decide; by rewrite ?take_nil, ?drop_nil.
  - rewrite IH. destruct (decide (i = index)) as [->|Hne].
    + rewrite (bool_decide_eq_false_2 (index ≠ index)) by (intros H; by apply H).
      rewrite (bool_decide_eq_false_2 (S index ≤ index)%nat) by lia.
      rewrite (bool_decide_eq_true_2 (index ≤ index)%nat) by lia.
      by rewrite Nat.sub_diag.
    + rewrite (bool_decide_eq_true_2 (i ≠ index)) by done.
      destruct (decide (i ≤ index)%nat).
      * rewrite (bool_decide_eq_true_2 (S i ≤ index)%nat) by lia.
        rewrite (bool_decide_eq_true_2 (i ≤ index)%nat) by lia.
        replace (index - i)%nat with (S (index - S i)) by lia. reflexivity.
      * rewrite (bool_decide_eq_false_2 (S i ≤ index)%nat) by lia.
        by rewrite (bool_decide_eq_false_2 (i ≤ index)%nat) by lia.
Qed.

(** X13.  [removePhoto(index)] takes out the photo at the index and no
    other: the photos before it and after it stay, in their order.  An index
    past the end removes nothing.  Every other cell of the page is as it was:
    the form, the videos, the two analysis flags, the assessments, the
    approvals, the step, the time of the last save and the flag of saved
    progress; the page is marked as changed. *)
Theorem removePhoto_at s index :
  let page := NewClaimState.page s in
  let photos := NewClaimPage.photos page in
  let s' := removePhoto s index in
  let page' := NewClaimState.page s' in
  let photos' := NewClaimPage.photos page' in
  photos' = take index photos ++ drop (S index) photos ∧
  (∀ i, (i < index)%nat → photos' !! i = photos !! i) ∧
  (∀ i, (index ≤ i)%nat → photos' !! i = photos !! S i) ∧
  ((index < length photos)%nat → S (length photos') = length photos) ∧
  ((length photos ≤ index)%nat → photos' = photos) ∧
  NewClaimPage.formData page' = NewClaimPage.formData page ∧
  NewClaimPage.videos page' = NewClaimPage.videos page ∧
  NewClaimPage.isAnalyzing page' = NewClaimPage.isAnalyzing page ∧
  NewClaimPage.analysisComplete page' = NewClaimPage.analysisComplete page ∧
  NewClaimPage.damageAssessments page' = NewClaimPage.damageAssessments page ∧
  NewClaimPage.approvedAssessments page' = NewClaimPage.approvedAssessments page ∧
  NewClaimState.currentStep s' = NewClaimState.currentStep s ∧
  NewClaimState.lastSaved s' = NewClaimState.lastSaved s ∧
  NewClaimState.hasSavedProgress s' = NewClaimState.hasSavedProgress s ∧
  NewClaimState.hasUnsavedChanges s' = true.
Proof.
  intros page photos s' page' photos'. subst s' page' photos'.
  cbn [removePhoto NewClaimState.page NewClaimPage.photos NewClaimPage.videos
       NewClaimPage.formData NewClaimPage.isAnalyzing NewClaimPage.analysisComplete
       NewClaimPage.damageAssessments NewClaimPage.approvedAssessments
       NewClaimState.currentStep NewClaimState.lastSaved NewClaimState.hasSavedProgress
       NewClaimState.hasUnsavedChanges].
  fold page. fold photos. rewrite filter_other_index_spec.
  rewrite (bool_decide_eq_true_2 (0 ≤ index)%nat) by lia. rewrite Nat.sub_0_r.
  split_and!; try done.
  - intros i Hi. destruct (decide (index < length photos)%nat).
    + rewrite lookup_app_l by (rewrite length_take; lia). by rewrite lookup_take_lt.
    + rewrite take_ge, drop_ge, app_nil_r by lia. done.
  - intros i Hi. destruct (decide (index < length photos)%nat).
    + rewrite lookup_app_r by (rewrite length_take; lia).
      rewrite length_take, lookup_drop. f_equal. lia.
    + rewrite take_ge, drop_ge, app_nil_r by lia.
      rewrite !lookup_ge_None_2 by lia. done.
  - intros Hlt. rewrite length_app, length_take, length_drop. lia.
  - intros Hge. by rewrite take_ge, drop_ge, app_nil_r by lia.
Qed.

Lemma removePhoto_at_witness :
  (1 < length ["p0"; "p1"; "p2"])%nat ∧ (length ["p0"; "p1"; "p2"] ≤ 5)%nat ∧
  filter_other_index 1 0 ["p0"; "p1"; "p2"] = ["p0"; "p2"] ∧
  filter_other_index 5 0 ["p0"; "p1"; "p2"] = ["p0"; "p1"; "p2"].
Proof.
  pose (s := {| NewClaimState.page :=
                  {| NewClaimPage.formData := Sample.formData;
                     NewClaimPage.photos := ["p0"; "p1"; "p2"];
                     NewClaimPage.videos := [];
                     NewClaimPage.isAnalyzing := false;
                     NewClaimPage.analysisComplete := false;
                     NewClaimPage.damageAssessments := [];
                     NewClaimPage.approvedAssessments := ∅ |};
                NewClaimState.currentStep := 2;
                NewClaimState.lastSaved := None;
                NewClaimState.hasUnsavedChanges := false;
                NewClaimState.hasSavedProgress := false |}).
  assert (Hin : (1 < length ["p0"; "p1"; "p2"])%nat) by (cbn; lia).
  assert (Hout : (length ["p0"; "p1"; "p2"] ≤ 5)%nat) by (cbn; lia).
  split; [exact Hin|]. split; [exact Hout|]. split.
  - exact (proj1 (removePhoto_at s 1)).
  - destruct (removePhoto_at s 5) as (_ & _ & _ & _ & Hsame & _). exact (Hsame Hout).
Defined.

(** ** Saved progress *)

Lemma spread_formData_all prev formData :
  spread_formData prev (formData_as_partial formData) = formData.
Proof. by destruct formData. Qed.

Lemma saveProgress_run P s w :
  saveProgress P s w =
  (Normal {| NewClaimState.page := NewClaimState.page s;
             NewClaimState.currentStep := NewClaimState.currentStep s;
             NewClaimState.lastSaved := Some (clock P (S (World.clock_reads w)));
             NewClaimState.hasUnsavedChanges := false;
             NewClaimState.hasSavedProgress := true |},
   World.mk
     (ClaimsState.mk
        (ClaimsState.claims (World.state w))
        (filter (λ d, InProgressClaim.id d ≠ NewClaimPage.sessionId)
                (ClaimsState.inProgressClaims (World.state w))
         ++ [inProgressData (NewClaimState.page s) (clock P (World.clock_reads w))])
        (ClaimsState.loading (World.state w))
        (ClaimsState.error (World.state w)))
     (World.localStorage w) (World.console w)
     (S (S (World.clock_reads w))) (World.random_draws w)).
Proof.
  unfold saveProgress. rewrite bind_run. cbn [new_Date_toISOString read_clock].
  rewrite bind_run, saveInProgressClaim_run, bind_run. reflexivity.
Qed.

(** X14.  Progress saved by [saveProgress] is what [loadSavedProgress]
    puts back, whatever the page holds by then: the form, the photos, the
    videos, the assessments, the approvals and the analysis flag are those of
    the page when it was saved; the step is 1 and nothing is marked as
    unsaved.  The time shown after the load is the [lastSaved] of the draft,
    the reading of the clock that precedes the one [saveProgress] showed. *)
Theorem saveProgress_then_load P w s later :
  let saved := saveProgress P s w in
  let loaded := loadSavedProgress later saved.2 in
  saved.1 = Normal {| NewClaimState.page := NewClaimState.page s;
                      NewClaimState.currentStep := NewClaimState.currentStep s;
                      NewClaimState.lastSaved := Some (clock P (S (World.clock_reads w)));
                      NewClaimState.hasUnsavedChanges := false;
                      NewClaimState.hasSavedProgress := true |} ∧
  ∃ s',
    loaded.1 = Normal s' ∧
    NewClaimPage.formData (NewClaimState.page s')
    = NewClaimPage.formData (NewClaimState.page s) ∧
    NewClaimPage.photos (NewClaimState.page s') = NewClaimPage.photos (NewClaimState.page s) ∧
    NewClaimPage.videos (NewClaimState.page s') = NewClaimPage.videos (NewClaimState.page s) ∧
    NewClaimPage.damageAssessments (NewClaimState.page s')
    = NewClaimPage.damageAssessments (NewClaimState.page s) ∧
    NewClaimPage.approvedAssessments (NewClaimState.page s')
    = NewClaimPage.approvedAssessments (NewClaimState.page s) ∧
    NewClaimPage.analysisComplete (NewClaimState.page s')
    = NewClaimPage.analysisComplete (NewClaimState.page s) ∧
    NewClaimPage.isAnalyzing (NewClaimState.page s')
    = NewClaimPage.isAnalyzing (NewClaimState.page later) ∧
    NewClaimState.currentStep s' = 1 ∧
    NewClaimState.lastSaved s' = Some (clock P (World.clock_reads w)) ∧
    NewClaimState.hasUnsavedChanges s' = false ∧
    NewClaimState.hasSavedProgress s' = true.
Proof.
  intros saved loaded. subst loaded saved. rewrite saveProgress_run.
  cbn [fst snd]. split; [done|].
  unfold loadSavedProgress. rewrite bind_run, getInProgressClaim_run.
  cbn [World.state ClaimsState.inProgressClaims].
  pose proof (find_upsert (inProgressData (NewClaimState.page s)
                                          (clock P (World.clock_reads w)))
                          (ClaimsState.inProgressClaims (World.state w))) as Hfound.
  cbn [inProgressData InProgressClaim.id] in Hfound. rewrite Hfound.
  rewrite bool_decide_eq_true_2 by (cbn; lia).
  eexists. split; [reflexivity|].
  cbn. by rewrite spread_formData_all.
Qed.
(** ** Validation *)

Lemma falsy_string_false s : falsy_string s = false ↔ s ≠ EmptyString.
Proof.
  unfold falsy_string. destruct (String.eqb_spec s EmptyString); split; congruence.
Qed.

(** X15.  [validateForm] accepts the form exactly when the eight text
    fields it checks are all filled in; the vehicle year is not looked at.
    The errors are the messages of the fields left empty and nothing else:
    each of the eight fields has its message, under its own key, among the
    errors exactly when it is empty, and every error is one of these. *)
Theorem validateForm_required formData :
  let messages :=
    [("policyNumber", "Policy number is required", FormData.policyNumber formData);
     ("customerName", "Customer name is required", FormData.customerName formData);
     ("customerEmail", "Email is required", FormData.customerEmail formData);
     ("customerPhone", "Phone number is required", FormData.customerPhone formData);
     ("vehicleMake", "Vehicle make is required", FormData.vehicleMake formData);
     ("vehicleModel", "Vehicle model is required", FormData.vehicleModel formData);
     ("accidentDate", "Accident date is required", FormData.accidentDate formData);
     ("accidentDescription", "Accident description is required",
      FormData.accidentDescription formData)] in
  (validateForm formData = true ↔
   FormData.policyNumber formData ≠ EmptyString ∧
   FormData.customerName formData ≠ EmptyString ∧
   FormData.customerEmail formData ≠ EmptyString ∧
   FormData.customerPhone formData ≠ EmptyString ∧
   FormData.vehicleMake formData ≠ EmptyString ∧
   FormData.vehicleModel formData ≠ EmptyString ∧
   FormData.accidentDate formData ≠ EmptyString ∧
   FormData.accidentDescription formData ≠ EmptyString) ∧
  newErrors formData
  = map (λ m, (m.1.1, m.1.2)) (filter (λ m, m.2 = EmptyString) messages) ∧
  (∀ key message,
     (key, message) ∈ newErrors formData ↔
     ∃ value, (key, message, value) ∈ messages ∧ value = EmptyString) ∧
  ∀ year,
    validateForm
      {| FormData.policyNumber := FormData.policyNumber formData;
         FormData.customerName := FormData.customerName formData;
         FormData.customerEmail := FormData.customerEmail formData;
         FormData.customerPhone := FormData.customerPhone formData;
         FormData.vehicleMake := FormData.vehicleMake formData;
         FormData.vehicleModel := FormData.vehicleModel formData;
         FormData.vehicleYear := year;
         FormData.accidentDate := FormData.accidentDate formData;
         FormData.accidentDescription := FormData.accidentDescription formData |}
    = validateForm formData.
Proof.
  intros messages.
  assert (Herrors : newErrors formData
                    = map (λ m, (m.1.1, m.1.2)) (filter (λ m, m.2 = EmptyString) messages)).
  { assert (Hone : ∀ (key message value : string),
              (if falsy_string value then [(key, message)] else [])
              = map (λ m : string * string * string, (m.1.1, m.1.2))
                    (filter (λ m, m.2 = EmptyString) [(key, message, value)])).
    { intros key message value. rewrite filter_cons, filter_nil. cbn [snd].
      unfold falsy_string.
      destruct (String.eqb_spec value EmptyString); by destruct (decide _). }
    subst messages. unfold newErrors. rewrite !Hone, <- !map_app, <- !filter_app.
    reflexivity. }
  split_and!.
  - unfold validateForm, newErrors. rewrite bool_decide_eq_true.
    rewrite <- !falsy_string_false.
    destruct (falsy_string (FormData.policyNumber formData)),
             (falsy_string (FormData.customerName formData)),
             (falsy_string (FormData.customerEmail formData)),
             (falsy_string (FormData.customerPhone formData)),
             (falsy_string (FormData.vehicleMake formData)),
             (falsy_string (FormData.vehicleModel formData)),
             (falsy_string (FormData.accidentDate formData)),
             (falsy_string (FormData.accidentDescription formData));
      cbn; split; (intros H; try discriminate H; try (by repeat split));
      try (destruct H as (?&?&?&?&?&?&?&?); discriminate).
  - exact Herrors.
  - intros key message. rewrite Herrors, list_elem_of_fmap. split.
    + intros ([[key' message'] value] & [= -> ->] & [Hempty Hin]%list_elem_of_filter).
      by exists value.
    + intros (value & Hin & Hempty). exists (key, message, value). split; [done|].
      by apply list_elem_of_filter.
  - done.
Qed.

(** ** Submitting *)

Lemma validateForm_required_witness :
  FormData.policyNumber Case.form_without_policy = EmptyString ∧
  newErrors Case.form_without_policy = [("policyNumber", "Policy number is required")] ∧
  validateForm Case.form_without_policy = false.
Proof.
  split; [reflexivity|]. split; [|reflexivity].
  destruct (validateForm_required Case.form_without_policy) as (_ & Herrors & _).
  exact (eq_trans Herrors eq_refl).
Defined.

Lemma NewClaim_handleSubmit_run P w page :
  validateForm (NewClaimPage.formData page) = true →
  ∃ claim console,
    NewClaim_handleSubmit P page w =
    (Normal (Some "/"),
     World.mk
       (ClaimsState.mk
          (claim :: ClaimsState.claims (World.state w))
          (filter (λ d, InProgressClaim.id d ≠ NewClaimPage.sessionId)
                  (ClaimsState.inProgressClaims (World.state w)))
          (ClaimsState.loading (World.state w))
          (ClaimsState.error (World.state w)))
       (World.localStorage w) console
       (S (S (S (World.clock_reads w)))) (S (World.random_draws w))) ∧
    Claim.repairShopId claim = Some "shop_001" ∧
    Claim.status claim = pending.
Proof.
  intros Hvalid. unfold NewClaim_handleSubmit. rewrite Hvalid. cbn [negb].
  rewrite bind_run, addClaim_run, bind_run, deleteInProgressClaim_run.
  eexists _, _. split; [reflexivity|]. done.
Qed.

(** X17.  A valid submission of a new claim uses up the saved progress:
    the claims table gains one claim, pending and assigned to the shop
    [shop_001]; no draft is left under the session id of the page, so
    [getInProgressClaim] finds none; the drafts under other ids are kept; the
    page goes to the dashboard. *)
Theorem NewClaim_handleSubmit_consumes_draft P w page :
  validateForm (NewClaimPage.formData page) = true →
  let w' := (NewClaim_handleSubmit P page w).2 in
  let drafts := ClaimsState.inProgressClaims (World.state w) in
  let drafts' := ClaimsState.inProgressClaims (World.state w') in
  (NewClaim_handleSubmit P page w).1 = Normal (Some "/") ∧
  (∃ claim,
     ClaimsState.claims (World.state w') = claim :: ClaimsState.claims (World.state w) ∧
     Claim.status claim = pending ∧ Claim.repairShopId claim = Some "shop_001") ∧
  Forall (λ d, InProgressClaim.id d ≠ NewClaimPage.sessionId) drafts' ∧
  (getInProgressClaim NewClaimPage.sessionId w').1 = Normal None ∧
  (∀ d, InProgressClaim.id d ≠ NewClaimPage.sessionId → d ∈ drafts' ↔ d ∈ drafts) ∧
  World.localStorage w' = World.localStorage w.
Proof.
  intros Hvalid w' drafts drafts'. subst w' drafts'.
  destruct (NewClaim_handleSubmit_run P w page Hvalid)
    as (claim & console & -> & Hshop & Hstatus).
  cbn [fst snd World.state World.localStorage ClaimsState.claims
       ClaimsState.inProgressClaims].
  fold drafts. split_and!.
  - done.
  - by exists claim.
  - apply Forall_filter_other_id.
  - rewrite getInProgressClaim_run.
    cbn [fst World.state ClaimsState.inProgressClaims].
    by rewrite find_draft_none by apply Forall_filter_other_id.
  - intros d Hd. rewrite list_elem_of_filter. tauto.
  - done.
Qed.

Lemma NewClaim_handleSubmit_consumes_draft_witness :
  let w := (saveProgress Demo.browser
              {| NewClaimState.page := Sample.newClaimPage;
                 NewClaimState.currentStep := 3;
                 NewClaimState.lastSaved := None;
                 NewClaimState.hasUnsavedChanges := true;
                 NewClaimState.hasSavedProgress := false |}
              Sample.world).2 in
  validateForm (NewClaimPage.formData Sample.newClaimPage) = true ∧
  (getInProgressClaim NewClaimPage.sessionId w).1
  = Normal (Some (inProgressData Sample.newClaimPage 1700000000000)) ∧
  (getInProgressClaim NewClaimPage.sessionId
     (NewClaim_handleSubmit Demo.browser Sample.newClaimPage w).2).1 = Normal None.
Proof.
  intros w. split; [reflexivity|]. split; [vm_compute; reflexivity|].
  destruct (NewClaim_handleSubmit_consumes_draft Demo.browser w Sample.newClaimPage
                                                  eq_refl)
    as (_ & _ & _ & Hgone & _).
  exact Hgone.
Defined.
(** ** Uploading photos and videos *)

Lemma NewClaim_onloads_no_result totalFiles loaded u s :
  with_result loaded = [] → NewClaim_onloads totalFiles loaded u s = (u, s).
Proof.
  unfold with_result. induction loaded as [|f rest IH]; [done|].
  destruct (decide (Upload.result f = EmptyString)) as [Hempty|Hres].
  - rewrite filter_cons_False by (intros H; by apply H). intros Hrest.
    cbn [NewClaim_onloads]. unfold Upload.onload. rewrite Hempty. cbn. by apply IH.
  - by rewrite filter_cons_True.
Qed.

Lemma photos_of_cons f rest :
  photos_of (f :: rest) =
  if String.prefix "image/" (Upload.type f) then Upload.result f :: photos_of rest
  else photos_of rest.
Proof.
  unfold photos_of. destruct (String.prefix "image/" (Upload.type f)) eqn:H.
  - by rewrite filter_cons_True.
  - by rewrite filter_cons_False by congruence.
Qed.

Lemma videos_of_cons f rest :
  videos_of (f :: rest) =
  if String.prefix "image/" (Upload.type f) then videos_of rest
  else if String.prefix "video/" (Upload.type f) then Upload.result f :: videos_of rest
  else videos_of rest.
Proof.
  unfold videos_of. destruct (String.prefix "image/" (Upload.type f)) eqn:H.
  - by rewrite filter_cons_False by (intros []; congruence).
  - destruct (String.prefix "video/" (Upload.type f)) eqn:H'.
    + by rewrite filter_cons_True.
    + by rewrite filter_cons_False by (intros []; congruence).
Qed.

Lemma NewClaim_onloads_cons totalFiles f rest u s :
  NewClaim_onloads totalFiles (f :: rest) u s =
  if String.eqb (Upload.result f) EmptyString
  then NewClaim_onloads totalFiles rest u s
  else NewClaim_onloads totalFiles rest (pushed f u)
         (if bool_decide (S (Upload.processedFiles u) = totalFiles)
          then NewClaim_commit s (Upload.newPhotos (pushed f u),
                                  Upload.newVideos (pushed f u))
          else s).
Proof.
  cbn [NewClaim_onloads]. unfold Upload.onload, pushed.
  destruct (String.eqb (Upload.result f) EmptyString); [reflexivity|].
  cbn [Upload.newPhotos Upload.newVideos].
  by destruct (bool_decide (S (Upload.processedFiles u) = totalFiles)).
Qed.

Lemma pushed_then f u rest :
  Upload.mk (Upload.newPhotos (pushed f u) ++ photos_of rest)
            (Upload.newVideos (pushed f u) ++ videos_of rest)
            (Upload.processedFiles (pushed f u) + length rest)
  = Upload.mk (Upload.newPhotos u ++ photos_of (f :: rest))
              (Upload.newVideos u ++ videos_of (f :: rest))
              (Upload.processedFiles u + length (f :: rest)).
Proof.
  rewrite photos_of_cons, videos_of_cons. unfold pushed. cbn. f_equal.
  - destruct (String.prefix "image/" (Upload.type f)); [|done].
    by rewrite <- app_assoc.
  - destruct (String.prefix "image/" (Upload.type f)); [done|].
    destruct (String.prefix "video/" (Upload.type f)); [|done].
    by rewrite <- app_assoc.
  - lia.
Qed.

(** The variables of the closure after the [onload] events of [loaded]. *)
Lemma NewClaim_onloads_spec totalFiles loaded u s :
  let ok := with_result loaded in
  let u' := Upload.mk (Upload.newPhotos u ++ photos_of ok)
                      (Upload.newVideos u ++ videos_of ok)
                      (Upload.processedFiles u + length ok) in
  ((Upload.processedFiles u + length ok < totalFiles)%nat →
   NewClaim_onloads totalFiles loaded u s = (u', s)) ∧
  ((Upload.processedFiles u < totalFiles)%nat →
   (Upload.processedFiles u + length ok = totalFiles)%nat →
   NewClaim_onloads totalFiles loaded u s
   = (u', NewClaim_commit s (Upload.newPhotos u', Upload.newVideos u'))).
Proof.
  revert u s. induction loaded as [|f rest IH]; intros u s ok u'; subst ok u'.
  - cbn. rewrite !app_nil_r, Nat.add_0_r. destruct u. split; [done|]. intros; lia.
  - rewrite NewClaim_onloads_cons. unfold with_result.
    destruct (String.eqb_spec (Upload.result f) EmptyString) as [Hempty|Hres].
    + rewrite filter_cons_False by (intros H; by apply H). apply IH.
    + rewrite filter_cons_True by done. fold (with_result rest).
      rewrite <- pushed_then.
      destruct (IH (pushed f u) s) as [IHless _].
      destruct (IH (pushed f u) s) as [_ IHall].
      cbn [length Upload.processedFiles pushed] in *.
      split.
      * intros Hlt. rewrite bool_decide_eq_false_2 by lia. apply IHless. lia.
      * intros Hlt Heq.
        destruct (decide (S (Upload.processedFiles u) = totalFiles)) as [Hlast|Hmore].
        -- rewrite bool_decide_eq_true_2 by done.
           assert (Hnone : with_result rest = []) by (apply length_zero_iff_nil; lia).
           rewrite NewClaim_onloads_no_result by done.
           rewrite Hnone. unfold photos_of, videos_of. rewrite !filter_nil. cbn [map length].
           rewrite !app_nil_r, Nat.add_0_r. reflexivity.
        -- rewrite bool_decide_eq_false_2 by done. apply IHall; lia.
Qed.

(** X18.  The files of one selection are committed together or not at
    all.  When every file of the selection has been read with a data URL,
    the photos of the page are followed by the data URLs of the image files
    and its videos by those of the video files, both in the order in which
    the reads completed; files of another type are dropped.  As long as
    fewer files than were selected have been read, which is for ever when a
    read fails, the page is as it was. *)
Theorem handleMediaUpload_all_or_nothing totalFiles loaded s :
  let page := NewClaimState.page s in
  let s' := handleMediaUpload totalFiles loaded s in
  let page' := NewClaimState.page s' in
  ((length (with_result loaded) < totalFiles)%nat → s' = s) ∧
  ((0 < totalFiles)%nat → length (with_result loaded) = totalFiles →
   NewClaimPage.photos page'
   = NewClaimPage.photos page ++ photos_of (with_result loaded) ∧
   NewClaimPage.videos page'
   = NewClaimPage.videos page ++ videos_of (with_result loaded) ∧
   NewClaimState.hasUnsavedChanges s' = true ∧
   NewClaimPage.approvedAssessments page' = NewClaimPage.approvedAssessments page ∧
   NewClaimPage.damageAssessments page' = NewClaimPage.damageAssessments page).
Proof.
  intros page s' page'. subst s' page'. unfold handleMediaUpload.
  destruct (NewClaim_onloads_spec totalFiles loaded Upload.start s) as [Hless Hall].
  cbn [Upload.start Upload.processedFiles Upload.newPhotos Upload.newVideos
       Nat.add app] in Hless, Hall.
  split.
  - intros Hlt. by rewrite Hless.
  - intros Hpos Heq. rewrite (Hall Hpos Heq).
    cbn [snd NewClaim_commit NewClaimState.page NewClaimState.hasUnsavedChanges
         NewClaimPage.photos NewClaimPage.videos NewClaimPage.approvedAssessments
         NewClaimPage.damageAssessments fst Upload.newPhotos Upload.newVideos].
    fold page. split_and!; try done.
    + case_bool_decide as Hn; [done|].
      assert (photos_of (with_result loaded) = []) as ->
        by (apply length_zero_iff_nil; lia).
      by rewrite app_nil_r.
    + case_bool_decide as Hn; [done|].
      assert (videos_of (with_result loaded) = []) as ->
        by (apply length_zero_iff_nil; lia).
      by rewrite app_nil_r.
Qed.

Lemma handleMediaUpload_all_or_nothing_witness :
  ((length (with_result (take 2 Case.selection)) < 3)%nat ∧
   handleMediaUpload 3 (take 2 Case.selection) Case.uploading = Case.uploading) ∧
  ((0 < 3)%nat ∧ length (with_result Case.selection) = 3%nat ∧
   NewClaimPage.photos (NewClaimState.page (handleMediaUpload 3 Case.selection Case.uploading))
   = ["data:image/png;base64,AAAA"; "data:image/png;base64,iVBORw0KGgo="] ∧
   NewClaimPage.videos (NewClaimState.page (handleMediaUpload 3 Case.selection Case.uploading))
   = ["data:video/mp4;base64,AAAA"]).
Proof.
  assert (Hless : (length (with_result (take 2 Case.selection)) < 3)%nat)
    by (vm_compute; lia).
  assert (Hpos : (0 < 3)%nat) by lia.
  assert (Hall : length (with_result Case.selection) = 3%nat) by (vm_compute; reflexivity).
  split.
  - split; [exact Hless|].
    exact (proj1 (handleMediaUpload_all_or_nothing 3 (take 2 Case.selection) Case.uploading)
                 Hless).
  - destruct (proj2 (handleMediaUpload_all_or_nothing 3 Case.selection Case.uploading)
                    Hpos Hall) as (Hphotos & Hvideos & _).
    split; [exact Hpos|]. split; [exact Hall|].
    split; [exact Hphotos | exact Hvideos].
Defined.

(** ** Importing a ticket *)

Lemma approved_of_all assessments :
  approved_of assessments (list_to_set (map DamageAssessment.id assessments)) = assessments.
Proof.
  unfold approved_of.
  assert (H : ∀ approved : gset string,
            Forall (λ a, DamageAssessment.id a ∈ approved) assessments →
            filter (λ a, DamageAssessment.id a ∈ approved) assessments = assessments).
  { intros approved. induction 1 as [|a rest Ha _ IH]; [done|].
    by rewrite filter_cons_True, IH. }
  apply H, Forall_forall. intros a Ha.
  apply elem_of_list_to_set, list_elem_of_fmap. by exists a.
Qed.


(** * The edit page *)

Lemma EditClaim_handleSubmit_run P w page existing :
  validateForm (EditClaimPage.formData page) = true →
  EditClaimPage.existingClaim page = Some existing →
  let formData := EditClaimPage.formData page in
  let updatedClaim :=
    {| PartialClaim.id := None;
       PartialClaim.policyNumber := Some (FormData.policyNumber formData);
       PartialClaim.customerName := Some (FormData.customerName formData);
       PartialClaim.customerEmail := Some (FormData.customerEmail formData);
       PartialClaim.customerPhone := Some (FormData.customerPhone formData);
       PartialClaim.vehicleMake := Some (FormData.vehicleMake formData);
       PartialClaim.vehicleModel := Some (FormData.vehicleModel formData);
       PartialClaim.vehicleYear := Some (FormData.vehicleYear formData);
       PartialClaim.accidentDate := Some (FormData.accidentDate formData);
       PartialClaim.accidentDescription := Some (FormData.accidentDescription formData);
       PartialClaim.photos := Some (EditClaimPage.photos page);
       PartialClaim.videos := Some (EditClaimPage.videos page);
       PartialClaim.status := None;
       PartialClaim.damageAssessments := Some (EditClaimPage.damageAssessments page);
       PartialClaim.totalEstimatedCost :=
         Some (total_cost (approved_of (EditClaimPage.damageAssessments page)
                                       (EditClaimPage.approvedAssessments page)));
       PartialClaim.repairShopId := None;
       PartialClaim.createdAt := None;
       PartialClaim.updatedAt := Some (clock P (World.clock_reads w));
       PartialClaim.aiAnalysisComplete := Some (EditClaimPage.analysisComplete page);
       PartialClaim.processingTime := None |} in
  (EditClaim_handleSubmit P page w).1 = Normal (Some ("/claim/" +:+ Claim.id existing)) ∧
  ClaimsState.claims (World.state (EditClaim_handleSubmit P page w).2)
  = updated_claims P (Claim.id existing) updatedClaim (S (World.clock_reads w))
                   (ClaimsState.claims (World.state w)).
Proof.
  intros Hvalid Hexisting formData updatedClaim. unfold EditClaim_handleSubmit.
  rewrite Hvalid, Hexisting. cbn [negb]. unfold try_catch.
  rewrite bind_run. cbn [new_Date_toISOString read_clock].
  rewrite bind_run, updateClaim_run.
  cbn [fst snd mret JS_ret mbind JS_bind World.state World.clock_reads
       ClaimsState.claims].
  done.
Qed.

(** X20.  Opening the edit page of a stored claim whose form is complete
    and saving it untouched rewrites the claim with two keys changed at
    most: [updatedAt], which is a reading of the clock made after the page's
    own, and [totalEstimatedCost], which becomes the sum of the costs of all
    the assessments of the claim.  A claim whose total is that sum comes
    back with a new [updatedAt] only. *)
Theorem EditClaim_unchanged_edit P w i claim page :
  ClaimsState.claims (World.state w) !! i = Some claim →
  EditClaimPage.existingClaim page = Some claim →
  validateForm (formData_of claim) = true →
  let run := EditClaim_handleSubmit P (EditClaim_init page) w in
  run.1 = Normal (Some ("/claim/" +:+ Claim.id claim)) ∧
  ∃ k, (World.clock_reads w < k)%nat ∧
       ClaimsState.claims (World.state run.2) !! i
       = Some (with_updatedAt
                 (with_totalEstimatedCost claim (sum_costs (Claim.damageAssessments claim)))
                 (clock P k)) ∧
       (Claim.totalEstimatedCost claim = sum_costs (Claim.damageAssessments claim) →
        ClaimsState.claims (World.state run.2) !! i
        = Some (with_updatedAt claim (clock P k))).
Proof.
  intros Hi Hexisting Hvalid run.
  assert (Hinit_existing :
            EditClaimPage.existingClaim (EditClaim_init page) = Some claim).
  { unfold EditClaim_init. by rewrite Hexisting. }
  assert (Hinit_valid : validateForm (EditClaimPage.formData (EditClaim_init page)) = true).
  { unfold EditClaim_init. rewrite Hexisting. exact Hvalid. }
  destruct (EditClaim_handleSubmit_run P w _ _ Hinit_valid Hinit_existing)
    as [Hresult Hclaims].
  fold run in Hresult, Hclaims. split; [exact Hresult|].
  exists (matches (Claim.id claim) (take i (ClaimsState.claims (World.state w)))
          + S (World.clock_reads w))%nat.
  split; [lia|].
  rewrite Hclaims, (updated_claims_lookup _ _ _ _ _ _ _ Hi).
  rewrite bool_decide_eq_true_2 by done.
  assert (Htotal :
            total_cost (approved_of (EditClaimPage.damageAssessments (EditClaim_init page))
                                    (EditClaimPage.approvedAssessments (EditClaim_init page)))
            = sum_costs (Claim.damageAssessments claim)).
  { unfold EditClaim_init. rewrite Hexisting.
    cbn [EditClaimPage.damageAssessments EditClaimPage.approvedAssessments].
    rewrite total_cost_sum. case_bool_decide as Hlen.
    - by rewrite approved_of_all.
    - destruct (Claim.damageAssessments claim); [done|cbn in Hlen; lia]. }
  rewrite Htotal.
  assert (Hclaim' :
            ∀ t t0, with_updatedAt
                   (spread claim
                      {| PartialClaim.id := None;
                         PartialClaim.policyNumber :=
                           Some (FormData.policyNumber (EditClaimPage.formData (EditClaim_init page)));
                         PartialClaim.customerName :=
                           Some (FormData.customerName (EditClaimPage.formData (EditClaim_init page)));
                         PartialClaim.customerEmail :=
                           Some (FormData.customerEmail (EditClaimPage.formData (EditClaim_init page)));
                         PartialClaim.customerPhone :=
                           Some (FormData.customerPhone (EditClaimPage.formData (EditClaim_init page)));
                         PartialClaim.vehicleMake :=
                           Some (FormData.vehicleMake (EditClaimPage.formData (EditClaim_init page)));
                         PartialClaim.vehicleModel :=
                           Some (FormData.vehicleModel (EditClaimPage.formData (EditClaim_init page)));
                         PartialClaim.vehicleYear :=
                           Some (FormData.vehicleYear (EditClaimPage.formData (EditClaim_init page)));
                         PartialClaim.accidentDate :=
                           Some (FormData.accidentDate (EditClaimPage.formData (EditClaim_init page)));
                         PartialClaim.accidentDescription :=
                           Some (FormData.accidentDescription
                                   (EditClaimPage.formData (EditClaim_init page)));
                         PartialClaim.photos := Some (EditClaimPage.photos (EditClaim_init page));
                         PartialClaim.videos := Some (EditClaimPage.videos (EditClaim_init page));
                         PartialClaim.status := None;
                         PartialClaim.damageAssessments :=
                           Some (EditClaimPage.damageAssessments (EditClaim_init page));
                         PartialClaim.totalEstimatedCost :=
                           Some (sum_costs (Claim.damageAssessments claim));
                         PartialClaim.repairShopId := None;
                         PartialClaim.createdAt := None;
                         PartialClaim.updatedAt := Some t0;
                         PartialClaim.aiAnalysisComplete :=
                           Some (EditClaimPage.analysisComplete (EditClaim_init page));
                         PartialClaim.processingTime := None |}) t
                 = with_updatedAt
                     (with_totalEstimatedCost claim (sum_costs (Claim.damageAssessments claim)))
                     t).
  { intros t t0. unfold EditClaim_init. rewrite Hexisting. reflexivity. }
  rewrite Hclaim'. split; [reflexivity|].
  intros Hsum. rewrite <- Hsum. by destruct claim.
Qed.

Lemma EditClaim_unchanged_edit_witness :
  ClaimsState.claims (World.state Sample.world) !! 0%nat
  = Some (Sample.claim "claim_1700000000000_k3v9" pending) ∧
  (EditClaim_handleSubmit Demo.browser (EditClaim_init Sample.editClaimPage) Sample.world).1
  = Normal (Some "/claim/claim_1700000000000_k3v9").
Proof.
  assert (Hi : ClaimsState.claims (World.state Sample.world) !! 0%nat
               = Some (Sample.claim "claim_1700000000000_k3v9" pending)) by reflexivity.
  assert (Hexisting : EditClaimPage.existingClaim Sample.editClaimPage
                      = Some (Sample.claim "claim_1700000000000_k3v9" pending))
    by reflexivity.
  assert (Hvalid : validateForm (formData_of (Sample.claim "claim_1700000000000_k3v9" pending))
                   = true) by reflexivity.
  split; [exact Hi|].
  exact (proj1 (EditClaim_unchanged_edit Demo.browser Sample.world 0 _ _ Hi Hexisting Hvalid)).
Defined.
(** X21.  A valid submission of the edit page changes, in every claim that
    has the id of the claim being edited, only the keys of the form, the
    media, the assessments, the total, the analysis flag and [updatedAt]: the
    id, the status, the creation time, the repair shop and the processing
    time stay.  The [updatedAt] stored is a reading of the clock made after
    the one [handleSubmit] put in its patch.  The claims with another id are
    untouched, and the table keeps its length. *)
Theorem EditClaim_handleSubmit_frame P w page existing :
  validateForm (EditClaimPage.formData page) = true →
  EditClaimPage.existingClaim page = Some existing →
  let claims := ClaimsState.claims (World.state w) in
  let claims' := ClaimsState.claims (World.state (EditClaim_handleSubmit P page w).2) in
  length claims' = length claims ∧
  (∀ i claim,
     claims !! i = Some claim → Claim.id claim = Claim.id existing →
     ∃ claim' k,
       claims' !! i = Some claim' ∧
       Claim.id claim' = Claim.id claim ∧
       Claim.status claim' = Claim.status claim ∧
       Claim.createdAt claim' = Claim.createdAt claim ∧
       Claim.repairShopId claim' = Claim.repairShopId claim ∧
       Claim.processingTime claim' = Claim.processingTime claim ∧
       Claim.policyNumber claim' = FormData.policyNumber (EditClaimPage.formData page) ∧
       Claim.photos claim' = EditClaimPage.photos page ∧
       Claim.updatedAt claim' = clock P k ∧ (World.clock_reads w < k)%nat) ∧
  (∀ i other,
     claims !! i = Some other → Claim.id other ≠ Claim.id existing →
     claims' !! i = Some other).
Proof.
  intros Hvalid Hexisting claims claims'.
  destruct (EditClaim_handleSubmit_run P w _ _ Hvalid Hexisting) as [_ Hclaims].
  subst claims'. rewrite Hclaims. split_and!.
  - apply updated_claims_length.
  - intros i claim Hi Hid.
    eexists _, (matches (Claim.id existing) (take i claims) + S (World.clock_reads w))%nat.
    rewrite (updated_claims_lookup _ _ _ _ _ _ _ Hi).
    rewrite bool_decide_eq_true_2 by done.
    split; [reflexivity|]. cbn. split_and!; try done. lia.
  - intros i other Hi Hne.
    rewrite (updated_claims_lookup _ _ _ _ _ _ _ Hi).
    by rewrite bool_decide_eq_false_2.
Qed.

Lemma EditClaim_handleSubmit_frame_witness :
  validateForm (EditClaimPage.formData Sample.editClaimPage) = true ∧
  length (ClaimsState.claims
            (World.state (EditClaim_handleSubmit Demo.browser Sample.editClaimPage
                                                 Sample.world).2))
  = 1%nat.
Proof.
  assert (Hvalid : validateForm (EditClaimPage.formData Sample.editClaimPage) = true)
    by reflexivity.
  split; [exact Hvalid|].
  exact (proj1 (EditClaim_handleSubmit_frame Demo.browser Sample.world Sample.editClaimPage
                  _ Hvalid eq_refl)).
Defined.
(** * The page of one claim *)

(** X22.  A click on a status button gives the claim shown the status of
    the button and a processing time that is a number other than zero: the
    one it had, or 3 when it had none or had 0.  [updatedAt] is a reading of
    the clock; every other key of the claim is as it was, and so is every
    claim with another id.  A second click does not change the processing
    time again. *)
Theorem handleStatusUpdate_frame P w i claim newStatus :
  ClaimsState.claims (World.state w) !! i = Some claim →
  let claims := ClaimsState.claims (World.state w) in
  let claims' := ClaimsState.claims (World.state (handleStatusUpdate P claim newStatus w).2) in
  (∃ k, (World.clock_reads w ≤ k)%nat ∧
        claims' !! i
        = Some (with_updatedAt
                  (with_status claim newStatus (Some (processingTime_or_3 claim)))
                  (clock P k))) ∧
  processingTime_or_3 claim ≠ 0 ∧
  (∀ n, Claim.processingTime claim = Some n → n ≠ 0 → processingTime_or_3 claim = n) ∧
  (∀ status t,
     processingTime_or_3
       (with_updatedAt (with_status claim status (Some (processingTime_or_3 claim))) t)
     = processingTime_or_3 claim) ∧
  (∀ j other,
     claims !! j = Some other → Claim.id other ≠ Claim.id claim →
     claims' !! j = Some other).
Proof.
  intros Hi claims claims'. subst claims'. unfold handleStatusUpdate.
  rewrite updateClaim_run. cbn [fst snd World.state ClaimsState.claims].
  assert (Hnonzero : processingTime_or_3 claim ≠ 0).
  { unfold processingTime_or_3. destruct (Claim.processingTime claim) as [n|]; [|done].
    destruct (Z.eqb_spec n 0); [done|done]. }
  split_and!.
  - exists (matches (Claim.id claim) (take i claims) + World.clock_reads w)%nat.
    split; [lia|].
    rewrite (updated_claims_lookup _ _ _ _ _ _ _ Hi).
    by rewrite bool_decide_eq_true_2.
  - exact Hnonzero.
  - intros n Hn Hne. unfold processingTime_or_3. rewrite Hn.
    by destruct (Z.eqb_spec n 0).
  - intros status t. unfold processingTime_or_3 at 1.
    cbn [with_updatedAt with_status Claim.processingTime].
    by destruct (Z.eqb_spec (processingTime_or_3 claim) 0).
  - intros j other Hj Hne.
    rewrite (updated_claims_lookup _ _ _ _ _ _ _ Hj).
    by rewrite bool_decide_eq_false_2.
Qed.

Lemma handleStatusUpdate_frame_witness :
  ClaimsState.claims (World.state Sample.world) !! 0%nat
  = Some (Sample.claim "claim_1700000000000_k3v9" pending) ∧
  processingTime_or_3 (Sample.claim "claim_1700000000000_k3v9" pending) ≠ 0.
Proof.
  assert (Hi : ClaimsState.claims (World.state Sample.world) !! 0%nat
               = Some (Sample.claim "claim_1700000000000_k3v9" pending)) by reflexivity.
  split; [exact Hi|].
  destruct (handleStatusUpdate_frame Demo.browser Sample.world 0 _ approved Hi)
    as (_ & Hnonzero & _).
  exact Hnonzero.
Defined.

Lemma getRepairShopById_listed shop :
  shop ∈ repairShops → getRepairShopById (RepairShop.id shop) = Some shop.
Proof.
  unfold repairShops. intros Hshop.
  repeat (apply elem_of_cons in Hshop as [-> | Hshop]); try reflexivity.
  by apply elem_of_nil in Hshop.
Qed.

Lemma getRepairShopById_unlisted id :
  Forall (λ shop, RepairShop.id shop ≠ id) repairShops → getRepairShopById id = None.
Proof.
  unfold getRepairShopById, repairShops. intros Hall.
  repeat (apply Forall_cons in Hall as [? Hall]).
  cbn [find RepairShop.id] in *.
  by rewrite !bool_decide_eq_false_2.
Qed.

(** X23.  After [handleRepairShopChange(shopId)] the claim shown stores
    [shopId] and differs from what it was in that key and in [updatedAt]
    only.  When a shop of the table has the id, that shop is the current
    repair shop of the claim; when none has, the id is stored all the same
    and the page shows the first shop of the table, [shop_001]. *)
Theorem handleRepairShopChange_current_shop P w i claim shopId :
  ClaimsState.claims (World.state w) !! i = Some claim →
  let run := ClaimDetails.handleRepairShopChange P claim shopId w in
  run.1 = Normal tt ∧
  ∃ claim' k,
    ClaimsState.claims (World.state run.2) !! i = Some claim' ∧
    claim' = with_updatedAt (with_repairShopId claim shopId) (clock P k) ∧
    (∀ shop, shop ∈ repairShops → RepairShop.id shop = shopId →
             ClaimDetails.getCurrentRepairShop claim' = Some shop) ∧
    (Forall (λ shop, RepairShop.id shop ≠ shopId) repairShops →
     Claim.repairShopId claim' = Some shopId ∧
     RepairShop.id <$> ClaimDetails.getCurrentRepairShop claim' = Some "shop_001").
Proof.
  intros Hi run. subst run. unfold ClaimDetails.handleRepairShopChange, try_catch.
  rewrite updateClaim_run. cbn [fst snd World.state ClaimsState.claims].
  split; [done|].
  eexists _, (matches (Claim.id claim) (take i (ClaimsState.claims (World.state w)))
              + World.clock_reads w)%nat.
  rewrite (updated_claims_lookup _ _ _ _ _ _ _ Hi).
  rewrite bool_decide_eq_true_2 by done.
  split; [reflexivity|]. split; [reflexivity|].
  unfold ClaimDetails.getCurrentRepairShop.
  cbn [with_updatedAt spread Claim.repairShopId PartialClaim.repairShopId default from_option id].
  split.
  - intros shop Hshop <-. rewrite (getRepairShopById_listed _ Hshop).
    unfold repairShops in Hshop.
    repeat (apply elem_of_cons in Hshop as [-> | Hshop]); try reflexivity.
    by apply elem_of_nil in Hshop.
  - intros Hnone. split; [done|].
    rewrite (getRepairShopById_unlisted _ Hnone).
    by destruct (falsy_string shopId).
Qed.

Lemma handleRepairShopChange_current_shop_witness :
  ClaimsState.claims (World.state Sample.world) !! 0%nat
  = Some (Sample.claim "claim_1700000000000_k3v9" pending) ∧
  (ClaimDetails.handleRepairShopChange Demo.browser
     (Sample.claim "claim_1700000000000_k3v9" pending) "shop_003" Sample.world).1
  = Normal tt.
Proof.
  assert (Hi : ClaimsState.claims (World.state Sample.world) !! 0%nat
               = Some (Sample.claim "claim_1700000000000_k3v9" pending)) by reflexivity.
  split; [exact Hi|].
  exact (proj1 (handleRepairShopChange_current_shop Demo.browser Sample.world 0 _
                  "shop_003" Hi)).
Defined.
(** * The approval page *)

Lemma forEach_cons {A} (body : A → JS unit) item rest w :
  (body item w).1 = Normal tt →
  forEach body (item :: rest) w = forEach body rest (body item w).2.
Proof.
  intros Hnormal. cbn [forEach]. rewrite bind_run.
  destruct (body item w) as [[[]|] w1]; [done|discriminate].
Qed.

(** The first half of [handleBulkAction]: one patch for each selected id,
    in the order of the selection, each with a reading of the clock; nothing
    else changes in the world. *)
Lemma bulk_patches_run P action ids : ∀ w,
  ∃ dispatched,
    mapM (λ claimId,
            updatedAt ← new_Date_toISOString P;
            mret (claimId, ClaimsApproval.bulk_patch action updatedAt)) ids w
    = (Normal dispatched,
       World.mk (World.state w) (World.localStorage w) (World.console w)
                (World.clock_reads w + length ids) (World.random_draws w)) ∧
    map fst dispatched = ids ∧
    Forall (λ update : string * PartialClaim.t,
            ∃ t, update.2 = ClaimsApproval.bulk_patch action t) dispatched.
Proof.
  induction ids as [|claimId ids IH]; intros w.
  - exists []. cbn [mapM length]. rewrite Nat.add_0_r. split; [by destruct w|done].
  - cbn [mapM]. rewrite !bind_run. cbn [new_Date_toISOString read_clock].
    cbn [mret JS_ret].
    destruct (IH (World.mk (World.state w) (World.localStorage w) (World.console w)
                           (S (World.clock_reads w)) (World.random_draws w)))
      as (dispatched & Hrun & Hids & Hpatches).
    rewrite bind_run, Hrun.
    cbn [World.state World.localStorage World.console World.clock_reads
         World.random_draws length].
    eexists. split; [|split].
    + f_equal. f_equal. lia.
    + cbn [map fst]. by rewrite Hids.
    + apply Forall_cons. split; [by eexists|done].
Qed.

(** The second half: the reducers of the dispatched updates, in order. *)
Lemma bulk_updates_run P action dispatched : ∀ w,
  Forall (λ update : string * PartialClaim.t,
            ∃ t, update.2 = ClaimsApproval.bulk_patch action t) dispatched →
  let run := forEach (λ update, updateClaim P update.1 update.2) dispatched w in
  run.1 = Normal tt ∧
  (World.clock_reads w ≤ World.clock_reads run.2)%nat ∧
  length (ClaimsState.claims (World.state run.2))
  = length (ClaimsState.claims (World.state w)) ∧
  ∀ i claim,
    ClaimsState.claims (World.state w) !! i = Some claim →
    ∃ claim',
      ClaimsState.claims (World.state run.2) !! i = Some claim' ∧
      (Claim.id claim ∈ map fst dispatched →
       ∃ k, (World.clock_reads w ≤ k < World.clock_reads run.2)%nat ∧
            claim' = with_updatedAt
                       (with_status claim (ClaimsApproval.bulk_status action)
                                    (Claim.processingTime claim))
                       (clock P k)) ∧
      (Claim.id claim ∉ map fst dispatched → claim' = claim).
Proof.
  induction dispatched as [|[claimId updates] dispatched IH]; intros w Hpatches run.
  - subst run. cbn [forEach]. split_and!; [done|done|done|].
    intros i claim Hi. exists claim. split; [exact Hi|].
    split; [by intros ?%elem_of_nil | done].
  - apply Forall_cons in Hpatches as [[t Hpatch] Hpatches]. cbn [snd] in Hpatch.
    subst updates. subst run.
    assert (Hnormal : (updateClaim P claimId (ClaimsApproval.bulk_patch action t) w).1
                      = Normal tt) by (by rewrite updateClaim_run).
    rewrite (forEach_cons (λ update, updateClaim P update.1 update.2)
                          (claimId, ClaimsApproval.bulk_patch action t) dispatched w Hnormal).
    cbn [fst snd].
    set (w1 := (updateClaim P claimId (ClaimsApproval.bulk_patch action t) w).2).
    destruct (IH w1 Hpatches) as (Hnormal' & Hclock' & Hlen' & Hclaims').
    assert (Hw1 : ClaimsState.claims (World.state w1)
                  = updated_claims P claimId (ClaimsApproval.bulk_patch action t)
                                   (World.clock_reads w) (ClaimsState.claims (World.state w)) ∧
                  World.clock_reads w1
                  = (matches claimId (ClaimsState.claims (World.state w))
                     + World.clock_reads w)%nat).
    { subst w1. by rewrite updateClaim_run. }
    destruct Hw1 as [Hclaims1 Hclock1].
    split_and!.
    + exact Hnormal'.
    + lia.
    + rewrite Hlen', Hclaims1. apply updated_claims_length.
    + intros i claim Hi.
      assert (Hi1 : ClaimsState.claims (World.state w1) !! i
                    = Some (if bool_decide (Claim.id claim = claimId)
                            then with_updatedAt
                                   (spread claim (ClaimsApproval.bulk_patch action t))
                                   (clock P (matches claimId
                                               (take i (ClaimsState.claims (World.state w)))
                                             + World.clock_reads w))
                            else claim)).
      { rewrite Hclaims1. by rewrite (updated_claims_lookup _ _ _ _ _ _ _ Hi). }
      destruct (Hclaims' i _ Hi1) as (claim' & Hi' & Hin & Hout).
      exists claim'. split; [exact Hi'|].
      cbn [map fst]. case_bool_decide as Hid.
      * split.
        -- intros _. destruct (decide (Claim.id claim ∈ map fst dispatched)) as [Hrest|Hrest].
           ++ destruct (Hin Hrest) as (k & Hk & ->). exists k. split; [lia|done].
           ++ rewrite (Hout Hrest).
              exists (matches claimId (take i (ClaimsState.claims (World.state w)))
                      + World.clock_reads w)%nat.
              split; [|done].
              pose proof (matches_take_lt _ _ _ _ Hi Hid). lia.
        -- intros Hnot. exfalso. apply Hnot. rewrite Hid. apply list_elem_of_here.
      * split.
        -- intros [?|Hrest]%elem_of_cons; [done|].
           destruct (Hin Hrest) as (k & Hk & ->). exists k. split; [lia|done].
        -- intros Hnot. apply Hout. intros Hrest. apply Hnot.
           by apply list_elem_of_further.
Qed.

(** X24.  [handleBulkAction] gives every claim whose id is selected the
    status of the action, whatever status it had, and an [updatedAt] that is
    a reading of the clock made by the reducer, after all the readings that
    the handler put in its patches, none of which is stored; nothing else
    changes in these claims.  The claims whose id is not selected are
    untouched, selected ids that no claim carries do nothing, the table keeps
    its length, and the selection is emptied. *)
Theorem handleBulkAction_statuses P w selectedClaims action :
  let run := ClaimsApproval.handleBulkAction P selectedClaims action w in
  let claims := ClaimsState.claims (World.state w) in
  let claims' := ClaimsState.claims (World.state run.2) in
  run.1 = Normal [] ∧
  length claims' = length claims ∧
  ∀ i claim,
    claims !! i = Some claim →
    ∃ claim',
      claims' !! i = Some claim' ∧
      (Claim.id claim ∈ selectedClaims →
       ∃ k, (World.clock_reads w + length selectedClaims ≤ k < World.clock_reads run.2)%nat ∧
            claim' = with_updatedAt
                       (with_status claim (ClaimsApproval.bulk_status action)
                                    (Claim.processingTime claim))
                       (clock P k)) ∧
      (Claim.id claim ∉ selectedClaims → claim' = claim).
Proof.
  intros run claims claims'. subst run claims claims'.
  unfold ClaimsApproval.handleBulkAction. rewrite bind_run.
  destruct (bulk_patches_run P action selectedClaims w)
    as (dispatched & -> & Hids & Hpatches).
  rewrite bind_run.
  set (w1 := World.mk (World.state w) (World.localStorage w) (World.console w)
                      (World.clock_reads w + length selectedClaims) (World.random_draws w)).
  destruct (bulk_updates_run P action dispatched w1 Hpatches)
    as (Hnormal & Hclock & Hlen & Hclaims).
  rewrite Hids in Hclaims.
  destruct (forEach _ dispatched w1) as [[[]|] w2]; [|discriminate].
  cbn [fst snd mret JS_ret] in *.
  split_and!; [done | exact Hlen | exact Hclaims].
Qed.

(** Two claims selected in a browser whose clock advances at each reading:
    the handler makes the first two readings, the reducers the next two, and
    it is these that are stored. *)
Example handleBulkAction_readings :
  let w := (run_ops Demo.browser [OpAddClaim (Sample.claimData pending);
                                  OpAddClaim (Sample.claimData processing)]
                    (fresh_process ∅)).2 in
  let selected := map Claim.id (ClaimsState.claims (World.state w)) in
  let run := ClaimsApproval.handleBulkAction Demo.browser selected ClaimsApproval.approve w in
  World.clock_reads w = 6%nat ∧
  map (λ claim, (Claim.status claim, Claim.updatedAt claim))
      (ClaimsState.claims (World.state run.2))
  = [(approved, clock Demo.browser 8); (approved, clock Demo.browser 9)].
Proof. vm_compute. split; reflexivity. Qed.

Lemma JSSet_add_NoDup x s : NoDup s → NoDup (JSSet.add x s).
Proof.
  intros Hs. unfold JSSet.add, JSSet.has. case_bool_decide as Hx; [done|].
  apply NoDup_app. split_and!; [done | | apply NoDup_singleton].
  intros y Hy ->%list_elem_of_singleton. done.
Qed.

Lemma JSSet_fold_spec items : ∀ acc,
  NoDup acc →
  let s := foldl (λ s x, JSSet.add x s) acc items in
  NoDup s ∧
  (∀ x, x ∈ s ↔ x ∈ acc ∨ x ∈ items) ∧
  (length s ≤ length acc + length items)%nat ∧
  (NoDup items → (∀ x, x ∈ items → x ∉ acc) → s = acc ++ items) ∧
  (length s = (length acc + length items)%nat →
   NoDup items ∧ ∀ x, x ∈ items → x ∉ acc).
Proof.
  induction items as [|item items IH]; intros acc Hacc; cbn [foldl length].
  - split_and!.
    + done.
    + intros x. rewrite elem_of_nil. tauto.
    + lia.
    + intros _ _. by rewrite app_nil_r.
    + intros _. split; [apply NoDup_nil_2|]. by intros x ?%elem_of_nil.
  - destruct (IH (JSSet.add item acc) (JSSet_add_NoDup item acc Hacc))
      as (Hnodup & Hmem & Hlen & Hfresh & Hfull).
    assert (Hadd : ∀ x, x ∈ JSSet.add item acc ↔ x ∈ acc ∨ x = item).
    { intros x. unfold JSSet.add, JSSet.has. case_bool_decide as Hitem.
      - split; [tauto|]. intros [?| ->]; done.
      - rewrite elem_of_app, list_elem_of_singleton. tauto. }
    assert (Hadd_len : (length (JSSet.add item acc) ≤ S (length acc))%nat ∧
                       (length (JSSet.add item acc) = S (length acc) → item ∉ acc)).
    { unfold JSSet.add, JSSet.has. case_bool_decide as Hitem.
      - split; [lia|]. intros ?. lia.
      - rewrite length_app. cbn [length]. split; [lia|done]. }
    destruct Hadd_len as [Hle Hnew].
    split_and!.
    + exact Hnodup.
    + intros x. rewrite Hmem, Hadd, elem_of_cons. tauto.
    + lia.
    + intros [Hitem Hitems]%NoDup_cons Hdisjoint.
      assert (Habsent : item ∉ acc) by (apply Hdisjoint, list_elem_of_here).
      rewrite Hfresh.
      * unfold JSSet.add, JSSet.has. rewrite bool_decide_eq_false_2 by done.
        by rewrite <- app_assoc.
      * exact Hitems.
      * intros x Hx. rewrite Hadd. intros [Hacc'| ->]; [|done].
        by apply (Hdisjoint x); [apply list_elem_of_further|].
    + intros Hlength.
      assert (Hitem : item ∉ acc) by (apply Hnew; lia).
      destruct Hfull as [Hitems Hdisjoint]; [lia|].
      split.
      * apply NoDup_cons. split; [|exact Hitems].
        intros Hdup. apply (Hdisjoint item Hdup), Hadd. by right.
      * intros x [->|Hx]%elem_of_cons; [exact Hitem|].
        intros Hx'. apply (Hdisjoint x Hx), Hadd. by left.
Qed.

Lemma JSSet_of_list_spec items :
  NoDup (JSSet.of_list items) ∧
  (∀ x, x ∈ JSSet.of_list items ↔ x ∈ items) ∧
  (NoDup items → JSSet.of_list items = items) ∧
  (JSSet.size (JSSet.of_list items) = length items → NoDup items).
Proof.
  destruct (JSSet_fold_spec items [] (NoDup_nil_2 (A:=string))) as (Hnodup & Hmem & _ & Hfresh & Hfull).
  unfold JSSet.of_list, JSSet.size. split_and!.
  - exact Hnodup.
  - intros x. rewrite Hmem, elem_of_nil. tauto.
  - intros Hitems. apply Hfresh; [exact Hitems|]. by intros x _ ?%elem_of_nil.
  - intros Hlen. by apply Hfull.
Qed.

(** X25.  After a click on the box that selects all, the selection is
    empty or holds the id of every claim shown.  The box compares sizes
    only: a selection of as many ids as there are claims shown is emptied,
    whichever ids it holds.  From a selection of another size, the click
    selects the ids of the claims shown, in their order, and a second click
    empties the selection exactly when no two claims shown share an id. *)
Theorem handleSelectAll_toggle selectedClaims filteredClaims :
  let ids := map Claim.id filteredClaims in
  let selected' := ClaimsApproval.handleSelectAll selectedClaims filteredClaims in
  (selected' = [] ∨
   ∀ claim, claim ∈ filteredClaims → JSSet.has (Claim.id claim) selected' = true) ∧
  (JSSet.size selectedClaims = length filteredClaims → selected' = []) ∧
  (JSSet.size selectedClaims ≠ length filteredClaims →
   (∀ id, id ∈ selected' ↔ id ∈ ids) ∧
   (NoDup ids → selected' = ids) ∧
   (ClaimsApproval.handleSelectAll selected' filteredClaims = [] ↔ NoDup ids)).
Proof.
  intros ids selected'. subst selected'. unfold ClaimsApproval.handleSelectAll.
  destruct (JSSet_of_list_spec ids) as (Hnodup & Hmem & Hsame & Hfull).
  case_bool_decide as Hsize.
  - split_and!; [by left | done | done].
  - split_and!.
    + right. intros claim Hclaim. apply bool_decide_eq_true_2, Hmem.
      apply list_elem_of_fmap. by exists claim.
    + done.
    + intros _. split_and!; [exact Hmem | exact Hsame |].
      fold ids. case_bool_decide as Hsize'.
      * split; [intros _|done]. apply Hfull. subst ids. by rewrite length_map.
      * split.
        -- intros Hempty. exfalso. apply Hsize'. unfold JSSet.size.
           rewrite Hempty. cbn [length].
           destruct filteredClaims as [|claim rest]; [done|].
           assert (Hin : Claim.id claim ∈ JSSet.of_list ids).
           { apply Hmem. subst ids. apply list_elem_of_here. }
           rewrite Hempty in Hin. by apply elem_of_nil in Hin.
        -- intros Hids. exfalso. apply Hsize'. unfold JSSet.size.
           rewrite (Hsame Hids). subst ids. by rewrite length_map.
Qed.

Lemma handleSelectAll_toggle_witness :
  JSSet.size [] ≠ length (ClaimsState.claims (World.state Sample.world)) ∧
  ClaimsApproval.handleSelectAll [] (ClaimsState.claims (World.state Sample.world))
  = ["claim_1700000000000_k3v9"].
Proof.
  assert (Hsize : JSSet.size [] ≠ length (ClaimsState.claims (World.state Sample.world)))
    by (vm_compute; lia).
  assert (Hids : NoDup (map Claim.id (ClaimsState.claims (World.state Sample.world)))).
  { apply NoDup_singleton. }
  split; [exact Hsize|].
  destruct (handleSelectAll_toggle [] (ClaimsState.claims (World.state Sample.world)))
    as (_ & _ & Hselect).
  destruct (Hselect Hsize) as (_ & Hsame & _).
  exact (Hsame Hids).
Defined.
(** * The dashboard *)

Lemma status_counts claims :
  length claims
  = (length (filter (λ claim, Claim.status claim = pending) claims)
     + length (filter (λ claim, Claim.status claim = processing) claims)
     + length (filter (λ claim, Claim.status claim = approved) claims)
     + length (rejected_claims claims))%nat.
Proof.
  unfold rejected_claims. induction claims as [|claim rest IH]; [done|].
  rewrite !filter_cons. cbn [length]. rewrite IH.
  destruct (Claim.status claim);
    repeat (destruct (decide _) as [?|?]; try discriminate; try done);
    cbn [length]; lia.
Qed.

Lemma totalValue_fold claims : ∀ acc,
  fold_left (λ sum claim, sum + Claim.totalEstimatedCost claim) claims acc
  = acc + fold_left (λ sum claim, sum + Claim.totalEstimatedCost claim) claims 0.
Proof.
  induction claims as [|claim rest IH]; intros acc; cbn [fold_left]; [lia|].
  rewrite (IH (acc + _)), (IH (0 + _)). lia.
Qed.

(** X26.  The three status counters of the dashboard leave out the
    rejected claims: the total is the sum of the pending, the processing, the
    approved and the rejected claims, so the counters shown add up to the
    total exactly when no claim is rejected.  The recent claims are the first
    five of the table, or all of them when there are fewer. *)
Theorem Dashboard_counters state :
  let shown := (Dashboard.pendingClaims state + Dashboard.processingClaims state
                + Dashboard.approvedClaims state)%nat in
  Dashboard.totalClaims state
  = (shown + length (rejected_claims (ClaimsState.claims state)))%nat ∧
  (shown = Dashboard.totalClaims state ↔
   Forall (λ claim, Claim.status claim ≠ rejected) (ClaimsState.claims state)) ∧
  length (Dashboard.recentClaims state) = (Dashboard.totalClaims state `min` 5)%nat ∧
  Dashboard.recentClaims state `prefix_of` ClaimsState.claims state.
Proof.
  intros shown. subst shown.
  unfold Dashboard.totalClaims, Dashboard.pendingClaims, Dashboard.processingClaims,
    Dashboard.approvedClaims, Dashboard.recentClaims.
  pose proof (status_counts (ClaimsState.claims state)) as Hcounts.
  split_and!.
  - exact Hcounts.
  - assert (Hnone : length (rejected_claims (ClaimsState.claims state)) = 0%nat ↔
                    Forall (λ claim, Claim.status claim ≠ rejected)
                           (ClaimsState.claims state)).
    { clear Hcounts. unfold rejected_claims. rewrite length_zero_iff_nil.
      induction (ClaimsState.claims state) as [|claim rest IH]; [done|].
      rewrite filter_cons, Forall_cons. destruct (decide _) as [Hrej|Hrej].
      + split; [done|]. intros [? _]. done.
      + rewrite IH. tauto. }
    rewrite <- Hnone. lia.
  - rewrite length_take. lia.
  - apply prefix_take.
Qed.

(** X27.  A valid submission of a new claim shows on the dashboard as one
    claim more in the total and among the pending ones, the other two
    counters being as they were; the total value grows by the total that the
    review step showed; the new claim is the first of the recent claims,
    followed by the four that were first. *)
Theorem Dashboard_after_submit P w page :
  validateForm (NewClaimPage.formData page) = true →
  let state := World.state w in
  let state' := World.state (NewClaim_handleSubmit P page w).2 in
  Dashboard.totalClaims state' = S (Dashboard.totalClaims state) ∧
  Dashboard.pendingClaims state' = S (Dashboard.pendingClaims state) ∧
  Dashboard.processingClaims state' = Dashboard.processingClaims state ∧
  Dashboard.approvedClaims state' = Dashboard.approvedClaims state ∧
  Dashboard.totalValue state' = Dashboard.totalValue state + getApprovedTotalCost page ∧
  ∃ claim,
    Dashboard.recentClaims state' = claim :: take 4 (ClaimsState.claims state) ∧
    Claim.status claim = pending ∧
    Claim.totalEstimatedCost claim = getApprovedTotalCost page.
Proof.
  intros Hvalid state state'.
  destruct (NewClaim_handleSubmit_sum P w page Hvalid)
    as (claim & Hclaims & Hstatus & _ & Htotal & _).
  rewrite <- total_cost_sum in Htotal. fold (getApprovedTotalCost page) in Htotal.
  subst state state'.
  unfold Dashboard.totalClaims, Dashboard.pendingClaims, Dashboard.processingClaims,
    Dashboard.approvedClaims, Dashboard.totalValue, Dashboard.recentClaims.
  rewrite Hclaims. rewrite !filter_cons, Hstatus.
  split_and!; try done.
  - cbn [fold_left]. rewrite totalValue_fold, Htotal. lia.
  - exists claim. done.
Qed.

Lemma Dashboard_after_submit_witness :
  validateForm (NewClaimPage.formData Sample.newClaimPage) = true ∧
  Dashboard.totalValue
    (World.state (NewClaim_handleSubmit Demo.browser Sample.newClaimPage Sample.world).2)
  = Dashboard.totalValue (World.state Sample.world)
    + getApprovedTotalCost Sample.newClaimPage.
Proof.
  assert (Hvalid : validateForm (NewClaimPage.formData Sample.newClaimPage) = true)
    by reflexivity.
  split; [exact Hvalid|].
  destruct (Dashboard_after_submit Demo.browser Sample.world Sample.newClaimPage Hvalid)
    as (_ & _ & _ & _ & Hvalue & _).
  exact Hvalue.
Defined.
Lemma updated_claims_unique P id updates n claims : ∀ i claim,
  NoDup (map Claim.id claims) →
  claims !! i = Some claim → Claim.id claim = id →
  updated_claims P id updates n claims
  = take i claims ++ with_updatedAt (spread claim updates) (clock P n) :: drop (S i) claims.
Proof.
  induction claims as [|first rest IH]; intros i claim Hids Hi Hid; [done|].
  cbn [map] in Hids. apply NoDup_cons in Hids as [Hfirst Hrest].
  destruct i as [|i]; cbn [updated_claims take drop app].
  - injection Hi as ->. rewrite bool_decide_eq_true_2 by done.
    f_equal. rewrite drop_0. apply updated_claims_absent.
    apply Forall_forall. intros other Hother Hsame. apply Hfirst.
    apply list_elem_of_fmap. exists other. split; [congruence|done].
  - cbn in Hi. rewrite bool_decide_eq_false_2.
    + f_equal. by apply IH.
    + intros Hsame. apply Hfirst. apply list_elem_of_fmap. exists claim.
      split; [congruence|]. by eapply list_elem_of_lookup_2.
Qed.

Lemma count_replaced (keep : Claim.t → Prop) `{∀ claim, Decision (keep claim)}
    claims i claim claim' :
  claims !! i = Some claim →
  (length (filter keep (take i claims ++ claim' :: drop (S i) claims))
   + (if decide (keep claim) then 1 else 0)
   = length (filter keep claims) + (if decide (keep claim') then 1 else 0))%nat.
Proof.
  intros Hi. rewrite <- (take_drop_middle claims i claim Hi) at 3.
  rewrite !filter_app, !filter_cons, !length_app.
  destruct (decide (keep claim)), (decide (keep claim')); cbn [length]; lia.
Qed.

(** X28.  When no two claims share an id, a click on a status button of a
    pending claim moves one claim between the counters of the dashboard: the
    pending claims are one fewer, the counter of the new status, if it is
    shown, is one more, and the other counters, the total and the total value
    are as they were.  A rejection thus takes a claim out of the counters
    shown. *)
Theorem Dashboard_after_status_update P w i claim newStatus :
  NoDup (map Claim.id (ClaimsState.claims (World.state w))) →
  ClaimsState.claims (World.state w) !! i = Some claim →
  Claim.status claim = pending → newStatus ≠ pending →
  let state := World.state w in
  let state' := World.state (handleStatusUpdate P claim newStatus w).2 in
  Dashboard.totalClaims state' = Dashboard.totalClaims state ∧
  Dashboard.totalValue state' = Dashboard.totalValue state ∧
  S (Dashboard.pendingClaims state') = Dashboard.pendingClaims state ∧
  Dashboard.processingClaims state'
  = (Dashboard.processingClaims state + if decide (newStatus = processing) then 1 else 0)%nat ∧
  Dashboard.approvedClaims state'
  = (Dashboard.approvedClaims state + if decide (newStatus = approved) then 1 else 0)%nat ∧
  length (rejected_claims (ClaimsState.claims state'))
  = (length (rejected_claims (ClaimsState.claims state))
     + if decide (newStatus = rejected) then 1 else 0)%nat.
Proof.
  intros Hids Hi Hpending Hnew state state'. subst state state'.
  unfold handleStatusUpdate. rewrite updateClaim_run.
  cbn [fst snd World.state ClaimsState.claims].
  unfold Dashboard.totalClaims, Dashboard.totalValue, Dashboard.pendingClaims,
    Dashboard.processingClaims, Dashboard.approvedClaims, rejected_claims.
  cbn [ClaimsState.claims].
  rewrite (updated_claims_unique _ _ _ _ _ i claim Hids Hi eq_refl).
  set (claim' := with_updatedAt _ _).
  assert (Hstatus' : Claim.status claim' = newStatus) by done.
  assert (Hcost' : Claim.totalEstimatedCost claim' = Claim.totalEstimatedCost claim) by done.
  pose proof (count_replaced (λ c, Claim.status c = pending) _ i claim claim' Hi) as Hp.
  pose proof (count_replaced (λ c, Claim.status c = processing) _ i claim claim' Hi) as Hq.
  pose proof (count_replaced (λ c, Claim.status c = approved) _ i claim claim' Hi) as Ha.
  pose proof (count_replaced (λ c, Claim.status c = rejected) _ i claim claim' Hi) as Hr.
  cbn beta in Hp, Hq, Ha, Hr. rewrite Hstatus', Hpending in Hp, Hq, Ha, Hr.
  split_and!.
  - rewrite <- (take_drop_middle _ i claim Hi) at 3.
    rewrite !length_app. done.
  - rewrite <- (take_drop_middle _ i claim Hi) at 3.
    rewrite !fold_left_app. cbn [fold_left].
    rewrite (totalValue_fold (drop _ _) (_ + Claim.totalEstimatedCost claim')).
    rewrite (totalValue_fold (drop _ _) (_ + Claim.totalEstimatedCost claim)).
    by rewrite Hcost'.
  - destruct (decide (pending = pending)); [|done].
    destruct (decide (newStatus = pending)); [done|]. lia.
  - destruct (decide (pending = processing)); [done|]. lia.
  - destruct (decide (pending = approved)); [done|]. lia.
  - destruct (decide (pending = rejected)); [done|]. lia.
Qed.

Lemma Dashboard_after_status_update_witness :
  NoDup (map Claim.id (ClaimsState.claims (World.state Sample.world))) ∧
  S (Dashboard.pendingClaims
       (World.state (handleStatusUpdate Demo.browser
                       (Sample.claim "claim_1700000000000_k3v9" pending) rejected
                       Sample.world).2))
  = Dashboard.pendingClaims (World.state Sample.world).
Proof.
  assert (Hids : NoDup (map Claim.id (ClaimsState.claims (World.state Sample.world))))
    by apply NoDup_singleton.
  assert (Hi : ClaimsState.claims (World.state Sample.world) !! 0%nat
               = Some (Sample.claim "claim_1700000000000_k3v9" pending)) by reflexivity.
  assert (Hpending : Claim.status (Sample.claim "claim_1700000000000_k3v9" pending) = pending)
    by reflexivity.
  assert (Hnew : rejected ≠ pending) by discriminate.
  split; [exact Hids|].
  destruct (Dashboard_after_status_update Demo.browser Sample.world 0 _ rejected
              Hids Hi Hpending Hnew) as (_ & _ & Hcount & _).
  exact Hcount.
Defined.
(** * Stars *)

Lemma Qfloor_ceiling rating :
  Qfloor rating ≤ Qceiling rating ≤ Qfloor rating + 1.
Proof.
  pose proof (Qfloor_le rating) as H1. pose proof (Qle_ceiling rating) as H2.
  pose proof (Qlt_floor rating) as H3. pose proof (Qceiling_lt rating) as H4.
  split.
  - rewrite Zle_Qle. by eapply Qle_trans.
  - assert (H5 : (inject_Z (Qceiling rating - 1) < inject_Z (Qfloor rating + 1))%Q)
      by (by eapply Qlt_trans).
    rewrite <- Zlt_Qlt in H5. lia.
Qed.

Lemma Qfloor_nonneg rating : (0 <= rating)%Q ↔ 0 ≤ Qfloor rating.
Proof.
  split.
  - intros H. change 0 with (Qfloor 0). by apply Qfloor_resp_le.
  - intros H. eapply Qle_trans; [|apply Qfloor_le]. change 0%Q with (inject_Z 0).
    by rewrite <- Zle_Qle.
Qed.

Lemma Qceiling_le_5 rating : (rating <= 5)%Q ↔ Qceiling rating ≤ 5.
Proof.
  split.
  - intros H. change 5 with (Qceiling 5). by apply Qceiling_resp_le.
  - intros H. eapply Qle_trans; [apply Qle_ceiling|]. change 5%Q with (inject_Z 5).
    by rewrite <- Zle_Qle.
Qed.

Lemma whole_iff rating n :
  (rating == inject_Z n)%Q → Qfloor rating = n ∧ Qceiling rating = n.
Proof.
  intros H. split.
  - rewrite (Qfloor_comp _ _ H). apply Qfloor_Z.
  - rewrite (Qceiling_comp _ _ H). apply Qceiling_Z.
Qed.

Lemma hasHalfStar_spec rating :
  negb (Qeq_bool (Qrem1 rating) 0) = bool_decide (Qfloor rating ≠ Qceiling rating).
Proof.
  pose proof (Qfloor_le rating) as H1. pose proof (Qle_ceiling rating) as H2.
  assert (Hwhole : ∀ n, (n = Qfloor rating ∨ n = Qceiling rating) →
                        (rating - inject_Z n == 0)%Q ↔ Qfloor rating = Qceiling rating).
  { intros n Hn. split.
    - intros Heq. assert (Hr : (rating == inject_Z n)%Q).
      { rewrite <- (Qplus_0_l (inject_Z n)), <- Heq. ring. }
      destruct (whole_iff _ _ Hr). congruence.
    - intros Hfc.
      assert (Hr : (rating == inject_Z n)%Q).
      { apply Qle_antisym.
        - destruct Hn as [->| ->]; [by rewrite Hfc|done].
        - destruct Hn as [->| ->]; [done|by rewrite <- Hfc]. }
      rewrite Hr. ring. }
  unfold Qrem1, Qtruncate.
  destruct (Qeq_bool _ 0) eqn:Heq; cbn [negb]; symmetry.
  - apply Qeq_bool_iff in Heq. apply bool_decide_eq_false_2. intros Hne. apply Hne.
    eapply Hwhole; [|exact Heq]. destruct (Qle_bool 0 rating); tauto.
  - apply bool_decide_eq_true_2. intros Hfc.
    apply Qeq_bool_neq in Heq. apply Heq, Hwhole; [|done].
    destruct (Qle_bool 0 rating); tauto.
Qed.

Lemma yellow_replicate n star :
  length (filter (λ s, RepairShops.yellow s = true) (replicate n star))
  = if RepairShops.yellow star then n else 0%nat.
Proof.
  induction n as [|n IH]; cbn [replicate]; [by destruct (RepairShops.yellow star)|].
  rewrite filter_cons.
  destruct (decide _) as [Hy|Hy]; cbn [length]; rewrite IH;
    destruct (RepairShops.yellow star); done.
Qed.

(** X29.  In the list of repair shops [getRatingStars] draws five stars
    exactly for the ratings from 0 to 5.  For such a rating it draws in
    yellow as many stars as the rating rounded up, and the page of a claim as
    many as the rating rounded down: the two pages agree on the ratings
    without a fraction only.  Every shop of the table has five yellow stars in
    the list and four on the page of a claim. *)
Theorem getRatingStars_five rating :
  let list_stars := RepairShops.getRatingStars rating in
  let page_stars := ClaimDetails.getRatingStars rating in
  let yellow_in_list := length (filter (λ s, RepairShops.yellow s = true) list_stars) in
  let yellow_on_page := length (filter (λ b, b = true) page_stars) in
  (length list_stars = 5%nat ↔ (0 <= rating <= 5)%Q) ∧
  length page_stars = 5%nat ∧
  ((0 <= rating <= 5)%Q →
   Z.of_nat yellow_in_list = Qceiling rating ∧
   Z.of_nat yellow_on_page = Qfloor rating ∧
   (yellow_in_list = yellow_on_page ↔ (rating == inject_Z (Qfloor rating))%Q)) ∧
  Forall (λ shop,
            length (filter (λ s, RepairShops.yellow s = true)
                           (RepairShops.getRatingStars (RepairShop.rating shop))) = 5%nat ∧
            length (filter (λ b, b = true)
                           (ClaimDetails.getRatingStars (RepairShop.rating shop))) = 4%nat)
         repairShops.
Proof.
  intros list_stars page_stars yellow_in_list yellow_on_page.
  pose proof (Qfloor_ceiling rating) as Hfc.
  pose proof (Qfloor_nonneg rating) as Hf.
  pose proof (Qceiling_le_5 rating) as Hc.
  assert (Hlen : length list_stars
                 = (Z.to_nat (Qfloor rating) + Z.to_nat (Qceiling rating - Qfloor rating)
                    + Z.to_nat (5 - Qceiling rating))%nat).
  { subst list_stars. unfold RepairShops.getRatingStars. rewrite hasHalfStar_spec.
    rewrite !length_app, !length_replicate.
    destruct (bool_decide_reflect (Qfloor rating ≠ Qceiling rating)); cbn [length]; lia. }
  assert (Hyellow : yellow_in_list
                    = (Z.to_nat (Qfloor rating)
                       + Z.to_nat (Qceiling rating - Qfloor rating))%nat).
  { subst yellow_in_list list_stars. unfold RepairShops.getRatingStars.
    rewrite hasHalfStar_spec, !filter_app, !length_app, !yellow_replicate.
    cbn [RepairShops.yellow].
    destruct (bool_decide_reflect (Qfloor rating ≠ Qceiling rating));
      [rewrite filter_cons_True by done|]; rewrite filter_nil; cbn [length]; lia. }
  split_and!.
  - rewrite Hlen. split.
    + intros Hfive.
      destruct (Qlt_le_dec rating 0) as [Hneg|Hpos].
      * exfalso. assert (Hf' : ¬ 0 ≤ Qfloor rating).
        { intros H0. apply Hf in H0. by apply Qle_not_lt in H0. }
        assert (Hc' : Qceiling rating ≤ 0).
        { change 0 with (Qceiling 0). apply Qceiling_resp_le. by apply Qlt_le_weak. }
        lia.
      * destruct (Qlt_le_dec 5 rating) as [Hbig|Hsmall]; [|done].
        exfalso. assert (Hc' : ¬ Qceiling rating ≤ 5).
        { intros H5. apply Hc in H5. by apply Qle_not_lt in H5. }
        assert (Hf' : 5 ≤ Qfloor rating).
        { change 5 with (Qfloor 5). apply Qfloor_resp_le. by apply Qlt_le_weak. }
        lia.
    + intros [H0 H5]. apply Hf in H0. apply Hc in H5. lia.
  - subst page_stars. unfold ClaimDetails.getRatingStars. by rewrite length_map.
  - intros [H0 H5]. apply Hf in H0. apply Hc in H5.
    assert (Hpage : Z.of_nat yellow_on_page = Qfloor rating).
    { subst yellow_on_page page_stars. unfold ClaimDetails.getRatingStars.
      assert (Hcases : Qfloor rating = 0 ∨ Qfloor rating = 1 ∨ Qfloor rating = 2 ∨
                       Qfloor rating = 3 ∨ Qfloor rating = 4 ∨ Qfloor rating = 5) by lia.
      destruct Hcases as [-> | [-> | [-> | [-> | [-> | ->]]]]]; reflexivity. }
    split_and!.
    + rewrite Hyellow. lia.
    + exact Hpage.
    + rewrite Hyellow. split.
      * intros Hsame.
        assert (Hne : Qfloor rating = Qceiling rating) by lia.
        apply Qle_antisym; [|apply Qfloor_le].
        rewrite Hne. apply Qle_ceiling.
      * intros Hwhole. destruct (whole_iff _ _ Hwhole) as [_ Hceil]. lia.
  - unfold repairShops. repeat constructor.
Qed.

Lemma getRatingStars_five_witness :
  (0 <= 45 # 10 <= 5)%Q ∧
  Z.of_nat (length (filter (λ s, RepairShops.yellow s = true)
                           (RepairShops.getRatingStars (45 # 10)))) = 5 ∧
  Z.of_nat (length (filter (λ b, b = true) (ClaimDetails.getRatingStars (45 # 10)))) = 4.
Proof.
  assert (Hrange : (0 <= 45 # 10 <= 5)%Q) by (split; discriminate).
  destruct (getRatingStars_five (45 # 10)) as (_ & _ & Hyellow & _).
  destruct (Hyellow Hrange) as (Hlist & Hpage & _).
  split; [exact Hrange|]. split; [exact Hlist | exact Hpage].
Defined.
(** * The analysis *)

Lemma last_char_append s t c :
  last_char t = Some c → last_char (s +:+ t) = Some c.
Proof.
  intros Ht. induction s as [|d s IH]; [exact Ht|].
  change (String d s +:+ t) with (String d (s +:+ t)).
  cbn [last_char]. destruct (s +:+ t); [discriminate|exact IH].
Qed.

Lemma last_char_damage_id stamp suffix c :
  last_char (damage_id stamp suffix (String c EmptyString)) = Some c.
Proof.
  unfold damage_id. repeat apply last_char_append. reflexivity.
Qed.

(** X30.  Whatever the clock and [Math.random] give, the three mock
    assessments of [simulateAIAnalysis] have three different ids, since the
    ids end in 1, 2 and 3.  All three are therefore approved, one by one, and
    the total shown after the analysis is 850 + 320 + 450 = 1620.  The
    analysis reads the clock and draws a random number three times each, and
    leaves the store alone. *)
Theorem simulateAIAnalysis_all_approved P w s :
  ∃ s',
    (simulateAIAnalysis P s w).1 = Normal s' ∧
    let page' := NewClaimState.page s' in
    NoDup (map DamageAssessment.id (NewClaimPage.damageAssessments page')) ∧
    map DamageAssessment.estimatedCost (NewClaimPage.damageAssessments page')
    = [850; 320; 450] ∧
    approved_of (NewClaimPage.damageAssessments page')
                (NewClaimPage.approvedAssessments page')
    = NewClaimPage.damageAssessments page' ∧
    size (NewClaimPage.approvedAssessments page') = 3%nat ∧
    getApprovedTotalCost page' = 1620 ∧
    NewClaimPage.isAnalyzing page' = false ∧
    NewClaimPage.analysisComplete page' = true ∧
    NewClaimPage.formData page' = NewClaimPage.formData (NewClaimState.page s) ∧
    World.state (simulateAIAnalysis P s w).2 = World.state w ∧
    World.clock_reads (simulateAIAnalysis P s w).2 = (3 + World.clock_reads w)%nat ∧
    World.random_draws (simulateAIAnalysis P s w).2 = (3 + World.random_draws w)%nat.
Proof.
  unfold simulateAIAnalysis. eexists. split; [reflexivity|].
  cbn [fst snd mret JS_ret mbind JS_bind Date_now read_clock Math_random_suffix
       NewClaimState.page NewClaimPage.damageAssessments NewClaimPage.approvedAssessments
       NewClaimPage.isAnalyzing NewClaimPage.analysisComplete NewClaimPage.formData
       World.state World.clock_reads World.random_draws map DamageAssessment.id
       DamageAssessment.estimatedCost].
  set (id1 := damage_id _ _ "1"). set (id2 := damage_id _ _ "2").
  set (id3 := damage_id _ _ "3").
  assert (H1 : last_char id1 = Some "1"%char) by apply last_char_damage_id.
  assert (H2 : last_char id2 = Some "2"%char) by apply last_char_damage_id.
  assert (H3 : last_char id3 = Some "3"%char) by apply last_char_damage_id.
  assert (H12 : id1 ≠ id2) by (intros Heq; rewrite Heq, H2 in H1; discriminate).
  assert (H13 : id1 ≠ id3) by (intros Heq; rewrite Heq, H3 in H1; discriminate).
  assert (H23 : id2 ≠ id3) by (intros Heq; rewrite Heq, H3 in H2; discriminate).
  clearbody id1 id2 id3.
  assert (Hnodup : NoDup [id1; id2; id3]).
  { repeat (apply NoDup_cons; split); [set_solver | set_solver | set_solver | apply NoDup_nil_2]. }
  assert (Happroved : ∀ a1 a2 a3,
            DamageAssessment.id a1 = id1 → DamageAssessment.id a2 = id2 →
            DamageAssessment.id a3 = id3 →
            approved_of [a1; a2; a3] (list_to_set [id1; id2; id3]) = [a1; a2; a3]).
  { intros a1 a2 a3 <- <- <-. exact (approved_of_all [a1; a2; a3]). }
  split_and!; try done.
  - by apply Happroved.
  - rewrite size_list_to_set; [done|exact Hnodup].
  - unfold getApprovedTotalCost.
    cbn [NewClaimPage.damageAssessments NewClaimPage.approvedAssessments].
    rewrite Happroved by done. reflexivity.
Qed.
